(** * eagle-cooltils: filter engine, subscription manager, scoped config
      store and bare library I/O, embedded from the TypeScript sources

    Each module below embeds one source file of [src/universal]:
    - [Filter]    : filter.ts   (builder and evaluator)
    - [Subscribe] : subscribe.ts (the polling manager)
    - [Config]    : config.ts   (scoped key/value store, SHA-256 keys)
    - [BareIO]    : bareio/core.ts (clone-mutate-replace on the heap)
    - [BareFolders], [BareTagGroups] : the folder forest and the tag
      groups of bareio/folders.ts, bareio/smart-folders.ts, bareio/tags.ts
    The platform's own services (ECMAScript values, [RegExp], SHA-256,
    [structuredClone]) come first, in [Js], [Regex], [Sha256]. *)

From Stdlib Require Import ZArith List Bool Ascii String Lia.
From stdpp Require Import base option list strings gmap pretty.

Set Warnings "-register-all".

Local Open Scope Z_scope.

(** ** Completions of a call

    A TypeScript call either returns, or throws.  [Unmodelled] marks the
    inputs on which the embedding does not say what the platform does
    (a regular expression outside the embedded fragment, a coercion of a
    non-numeric operand): nothing is proved about them. *)

Inductive JsError :=
  | SyntaxError
  | TypeError
  | IOError
  | Exception.         (* whatever a function passed in by the caller throws *)

Inductive outcome (A : Type) :=
  | Returns (a : A)
  | Throws (e : JsError)
  | Unmodelled.
Arguments Returns {A} a.
Arguments Throws {A} e.
Arguments Unmodelled {A}.

#[global] Instance outcome_bind : MBind outcome := fun A B k m =>
  match m with
  | Returns a => k a
  | Throws e => Throws e
  | Unmodelled => Unmodelled
  end.

(** [xs.map(f)] when [f] may throw: elements are visited left to right
    and the first abrupt completion ends the loop. *)
Fixpoint traverse {A B} (f : A -> outcome B) (xs : list A) : outcome (list B) :=
  match xs with
  | [] => Returns []
  | x :: xs' => y ← f x; ys ← traverse f xs'; Returns (y :: ys)
  end.

(** ** ECMAScript values *)
Module Js.

(** The values a snapshot field or a rule value can hold.  Numbers are the
    integer-valued ones (sizes, dimensions, ratings, epoch milliseconds).
    Arrays and objects carry the identity of the object, which is what
    [===] compares; strings are sequences of code units below 256. *)
Inductive JsVal :=
  | JUndefined
  | JNull
  | JBool (b : bool)
  | JNum (n : Z)
  | JStr (s : string)
  | JArr (ref : nat) (elems : list JsVal)
  | JObj (ref : nat).

Inductive JsType := TUndefined | TObject | TBoolean | TNumber | TString.

(** [typeof v] *)
Definition typeof (v : JsVal) : JsType :=
  match v with
  | JUndefined => TUndefined
  | JNull => TObject
  | JBool _ => TBoolean
  | JNum _ => TNumber
  | JStr _ => TString
  | JArr _ _ => TObject
  | JObj _ => TObject
  end.

(** [Array.isArray(v)] *)
Definition isArray (v : JsVal) : bool :=
  match v with JArr _ _ => true | _ => false end.

(** [a === b]: by value on primitives, by identity on arrays and objects. *)
Definition strict_equals (a b : JsVal) : bool :=
  match a, b with
  | JUndefined, JUndefined => true
  | JNull, JNull => true
  | JBool x, JBool y => Bool.eqb x y
  | JNum x, JNum y => Z.eqb x y
  | JStr x, JStr y => String.eqb x y
  | JArr r _, JArr r' _ => Nat.eqb r r'
  | JObj r, JObj r' => Nat.eqb r r'
  | _, _ => false
  end.

(** [arr.includes(v)]: SameValueZero, which is [===] on these values. *)
Definition array_includes (elems : list JsVal) (v : JsVal) : bool :=
  existsb (fun e => strict_equals e v) elems.

Fixpoint join (sep : string) (parts : list string) : string :=
  match parts with
  | [] => ""
  | [p] => p
  | p :: rest => p +:+ sep +:+ join sep rest
  end.

(** [String(v)].  An array is its elements joined by commas, with
    [undefined] and [null] elements rendered empty. *)
Fixpoint ToString (v : JsVal) : string :=
  match v with
  | JUndefined => "undefined"
  | JNull => "null"
  | JBool true => "true"
  | JBool false => "false"
  | JNum n => pretty n
  | JStr s => s
  | JArr _ elems =>
      join "," (List.map (fun e => match e with
                                   | JUndefined | JNull => ""
                                   | _ => ToString e
                                   end) elems)
  | JObj _ => "[object Object]"
  end.

(** [s.startsWith(t)], [s.endsWith(t)], [s.includes(t)] *)
Definition startsWith (s t : string) : bool := String.prefix t s.

Fixpoint includes (s t : string) : bool :=
  String.prefix t s ||
  match s with
  | EmptyString => false
  | String _ s' => includes s' t
  end.

Definition endsWith (s t : string) : bool :=
  let n := String.length s in
  let m := String.length t in
  (m <=? n)%nat && String.eqb (String.substring (n - m) m s) t.

(** [ToNumber(v)] for the operand of a relational comparison; [None] is
    NaN.  Strings and arrays would be parsed: they are left out. *)
Definition ToNumber (v : JsVal) : outcome (option Z) :=
  match v with
  | JUndefined => Returns None
  | JNull => Returns (Some 0)
  | JBool true => Returns (Some 1)
  | JBool false => Returns (Some 0)
  | JNum n => Returns (Some n)
  | JStr _ => Unmodelled
  | JArr _ _ => Unmodelled
  | JObj _ => Returns None
  end.

(** [n < v], [n <= v], [n > v], [n >= v] with a number on the left: a
    comparison with NaN is false. *)
Definition rel (op : Z -> Z -> bool) (n : Z) (v : JsVal) : outcome bool :=
  m ← ToNumber v;
  Returns (match m with Some k => op n k | None => false end).

End Js.

(** ** Regular expressions: [new RegExp(pattern, flags)] and [test]

    The fragment of the ECMAScript pattern language that is embedded:
    literal characters, [.], [^], [$], [|], groups [( )] and [(?: )],
    the quantifiers [*], [+], [?] (greedy or lazy) and a backslash before
    a syntax character.  Everything else is reported as [Unsupported]. *)
Module Regex.

Inductive regex :=
  | Empty
  | Char (c : ascii)
  | Dot
  | Bol
  | Eol
  | Seq (r1 r2 : regex)
  | Alt (r1 r2 : regex)
  | Star (r : regex).

(** *** Parsing a pattern *)

Inductive compiled (A : Type) :=
  | Compiled (a : A)
  | Invalid           (* the constructor throws a SyntaxError *)
  | Unsupported.      (* outside the embedded fragment *)
Arguments Compiled {A} a.
Arguments Invalid {A}.
Arguments Unsupported {A}.

(** What the last term of the alternative being read is, which decides
    whether a quantifier may follow it. *)
Inductive term_kind :=
  | Atom
  | Quantified (lazy_allowed : bool)
  | Assertion.

(** One open group: the alternatives already closed by [|], the terms
    of the current alternative, and its last term. *)
Record frame := {
  alts : list regex;
  done : regex;
  last : option (regex * term_kind)
}.

Definition empty_frame : frame :=
  {| alts := []; done := Empty; last := None |}.

Definition flush (f : frame) : regex :=
  match last f with
  | Some (r, _) => Seq (done f) r
  | None => done f
  end.

Definition push_term (r : regex) (k : term_kind) (f : frame) : frame :=
  {| alts := alts f; done := flush f; last := Some (r, k) |}.

Definition next_alternative (f : frame) : frame :=
  {| alts := flush f :: alts f; done := Empty; last := None |}.

(** The disjunction of a finished group, leftmost alternative first. *)
Definition close (f : frame) : regex :=
  fold_left (fun acc r => Alt r acc) (alts f) (flush f).

Inductive quantifier := QStar | QPlus | QOpt.

Definition quantify (q : quantifier) (r : regex) : regex :=
  match q with
  | QStar => Star r
  | QPlus => Seq r (Star r)
  | QOpt => Alt r Empty
  end.

Definition apply_quantifier (q : quantifier) (f : frame) : compiled frame :=
  match last f with
  | None => Invalid                                   (* nothing to repeat *)
  | Some (r, Atom) =>
      Compiled {| alts := alts f; done := done f;
                  last := Some (quantify q r, Quantified true) |}
  | Some (r, Quantified true) =>
      match q with
      | QOpt => Compiled {| alts := alts f; done := done f;
                            last := Some (r, Quantified false) |}
      | _ => Invalid
      end
  | Some (_, Quantified false) => Invalid
  | Some (_, Assertion) => Unsupported
  end.

Definition is_syntax_char (c : ascii) : bool :=
  existsb (Ascii.eqb c)
    ["^"; "$"; "\"; "."; "*"; "+"; "?"; "("; ")"; "["; "]"; "{"; "}"; "|"; "/"]%char.

Definition is_ascii (c : ascii) : bool := (nat_of_ascii c <? 128)%nat.

(** The scan keeps the innermost open group [f] and the enclosing ones
    [stack]. *)
Fixpoint scan (cs : list ascii) (f : frame) (stack : list frame)
  : compiled regex :=
  match cs with
  | [] =>
      match stack with
      | [] => Compiled (close f)
      | _ :: _ => Invalid                             (* unterminated group *)
      end
  | "\"%char :: [] => Invalid                         (* \ at end of pattern *)
  | "\"%char :: c :: rest =>
      if is_syntax_char c then scan rest (push_term (Char c) Atom f) stack
      else Unsupported
  | "("%char :: "?"%char :: ":"%char :: rest => scan rest empty_frame (f :: stack)
  | "("%char :: "?"%char :: _ => Unsupported
  | "("%char :: rest => scan rest empty_frame (f :: stack)
  | ")"%char :: rest =>
      match stack with
      | [] => Invalid                                 (* unmatched ')' *)
      | parent :: stack' => scan rest (push_term (close f) Atom parent) stack'
      end
  | "|"%char :: rest => scan rest (next_alternative f) stack
  | "*"%char :: rest =>
      match apply_quantifier QStar f with
      | Compiled f' => scan rest f' stack
      | Invalid => Invalid
      | Unsupported => Unsupported
      end
  | "+"%char :: rest =>
      match apply_quantifier QPlus f with
      | Compiled f' => scan rest f' stack
      | Invalid => Invalid
      | Unsupported => Unsupported
      end
  | "?"%char :: rest =>
      match apply_quantifier QOpt f with
      | Compiled f' => scan rest f' stack
      | Invalid => Invalid
      | Unsupported => Unsupported
      end
  | "^"%char :: rest => scan rest (push_term Bol Assertion f) stack
  | "$"%char :: rest => scan rest (push_term Eol Assertion f) stack
  | "."%char :: rest => scan rest (push_term Dot Atom f) stack
  | "["%char :: _ | "]"%char :: _ | "{"%char :: _ | "}"%char :: _ => Unsupported
  | c :: rest =>
      if is_ascii c then scan rest (push_term (Char c) Atom f) stack
      else Unsupported
  end.

Definition parse (pattern : string) : compiled regex :=
  scan (list_ascii_of_string pattern) empty_frame [].

(** *** Matching *)

(** The case folding of an [ignoreCase] comparison: the upper-case form
    of the character. *)
Definition upper (c : ascii) : ascii :=
  let n := nat_of_ascii c in
  if ((97 <=? n) && (n <=? 122))%nat then ascii_of_nat (n - 32) else c.

Definition is_line_terminator (c : ascii) : bool :=
  Ascii.eqb c "010" || Ascii.eqb c "013".

(** [star_ends step fuel i]: the positions reached from [i] by repeating
    [step], each repetition consuming at least one character. *)
Fixpoint star_ends (step : nat -> list nat) (fuel : nat) (i : nat) : list nat :=
  i :: match fuel with
       | O => []
       | S fuel' =>
           flat_map (star_ends step fuel')
                    (List.filter (fun j => (i <? j)%nat) (step i))
       end.

Section Matcher.
Variable ignoreCase : bool.
Variable subject : list ascii.

Definition canon (c : ascii) : ascii := if ignoreCase then upper c else c.

(** [ends r i]: every position [j] such that [r] matches the subject
    from position [i] up to [j]. *)
Fixpoint ends (r : regex) (i : nat) : list nat :=
  match r with
  | Empty => [i]
  | Char c =>
      match nth_error subject i with
      | Some x => if Ascii.eqb (canon x) (canon c) then [S i] else []
      | None => []
      end
  | Dot =>
      match nth_error subject i with
      | Some x => if is_line_terminator x then [] else [S i]
      | None => []
      end
  | Bol => if (i =? 0)%nat then [i] else []
  | Eol => if (i =? length subject)%nat then [i] else []
  | Seq r1 r2 => flat_map (ends r2) (ends r1 i)
  | Alt r1 r2 => ends r1 i ++ ends r2 i
  | Star r' => star_ends (ends r') (length subject) i
  end.

(** A match may start at any position of the subject. *)
Definition search (r : regex) : bool :=
  existsb (fun i => match ends r i with [] => false | _ => true end)
          (seq 0 (S (length subject))).
End Matcher.

(** A [RegExp] object: its [source], the [i] flag, and the program. *)
Record RegExp := {
  source : string;
  ignore_case : bool;
  program : regex
}.

Definition parse_flags (flags : string) : compiled bool :=
  if String.eqb flags "" then Compiled false
  else if String.eqb flags "i" then Compiled true
  else Unsupported.

(** [new RegExp(pattern, flags)] *)
Definition RegExp_new (pattern flags : string) : compiled RegExp :=
  match parse_flags flags with
  | Compiled ic =>
      match parse pattern with
      | Compiled r => Compiled {| source := pattern; ignore_case := ic; program := r |}
      | Invalid => Invalid
      | Unsupported => Unsupported
      end
  | Invalid => Invalid
  | Unsupported => Unsupported
  end.

(** [regex.test(s)], on subjects made of ASCII characters. *)
Definition test (re : RegExp) (s : string) : outcome bool :=
  let cs := list_ascii_of_string s in
  if forallb is_ascii cs
  then Returns (search (ignore_case re) cs (program re))
  else Unmodelled.

End Regex.

(** ** filter.ts *)
Module Filter.
Import Js.

(** [FilterMethod]; [UnknownMethod] is any other string met at run time
    (a filter read back from JSON is not checked against the type). *)
Inductive FilterMethod :=
  | is_ | isNot
  | contains | notContains | startsWith | endsWith
  | matches
  | gt | gte | lt | lte | between
  | isEmpty | isNotEmpty
  | includesAny | includesAll | excludesAny | excludesAll
  | UnknownMethod (name : string).

Inductive FilterProperty :=
  | id | name | ext | url | annotation | tags | folders | star
  | width | height | size | importedAt | modifiedAt | isDeleted.

Inductive MatchMode := AND | OR.

Record FilterRule := {
  property : FilterProperty;
  method : FilterMethod;
  value : JsVal              (* [JUndefined] when the rule has no value *)
}.

Record FilterCondition := {
  rules : list FilterRule;
  cmatch : MatchMode
}.

Record ItemFilter := {
  conditions : list FilterCondition;
  fmatch : MatchMode
}.

(** An item as the evaluator sees it: [item[property]] for each of the
    properties, whatever value the field holds at run time. *)
Definition FilterableItem := FilterProperty -> JsVal.

(** *** Filter execution *)

(** [value == null] then string and array emptiness *)
Definition isEmptyValue (v : JsVal) : bool :=
  match v with
  | JUndefined | JNull => true
  | JStr s => (String.length s =? 0)%nat
  | JArr _ elems => (length elems =? 0)%nat
  | _ => false
  end.

(** [xs.every(p)] and [xs.some(p)] *)
Definition every {A} (p : A -> bool) (xs : list A) : bool := forallb p xs.
Definition some {A} (p : A -> bool) (xs : list A) : bool := existsb p xs.

(** [const [min, max] = ruleValue]: missing positions are [undefined]. *)
Definition destructure2 (elems : list JsVal) : JsVal * JsVal :=
  (nth 0 elems JUndefined, nth 1 elems JUndefined).

Definition matchesRule (item : FilterableItem) (rule : FilterRule) : outcome bool :=
  let itemValue := item (property rule) in
  let ruleValue := value rule in
  match method rule with
  | is_ => Returns (strict_equals itemValue ruleValue)
  | isNot => Returns (negb (strict_equals itemValue ruleValue))
  | contains =>
      match itemValue with
      | JStr s => Returns (includes s (ToString ruleValue))
      | _ => Returns false
      end
  | notContains =>
      match itemValue with
      | JStr s => Returns (negb (includes s (ToString ruleValue)))
      | _ => Returns false
      end
  | startsWith =>
      match itemValue with
      | JStr s => Returns (Js.startsWith s (ToString ruleValue))
      | _ => Returns false
      end
  | endsWith =>
      match itemValue with
      | JStr s => Returns (Js.endsWith s (ToString ruleValue))
      | _ => Returns false
      end
  | matches =>
      match itemValue with
      | JStr s =>
          match Regex.RegExp_new (ToString ruleValue) "i" with
          | Regex.Compiled regex => Regex.test regex s
          | Regex.Invalid => Throws SyntaxError
          | Regex.Unsupported => Unmodelled
          end
      | _ => Returns false
      end
  | gt =>
      match itemValue with
      | JNum n => rel Z.gtb n ruleValue
      | _ => Returns false
      end
  | gte =>
      match itemValue with
      | JNum n => rel Z.geb n ruleValue
      | _ => Returns false
      end
  | lt =>
      match itemValue with
      | JNum n => rel Z.ltb n ruleValue
      | _ => Returns false
      end
  | lte =>
      match itemValue with
      | JNum n => rel Z.leb n ruleValue
      | _ => Returns false
      end
  | between =>
      match itemValue, ruleValue with
      | JNum n, JArr _ bounds =>
          let (min, max) := destructure2 bounds in
          match rel Z.geb n min with
          | Returns true => rel Z.leb n max
          | lower => lower
          end
      | _, _ => Returns false
      end
  | isEmpty => Returns (isEmptyValue itemValue)
  | isNotEmpty => Returns (negb (isEmptyValue itemValue))
  | includesAny =>
      match itemValue, ruleValue with
      | JArr _ have, JArr _ want => Returns (some (fun v => array_includes have v) want)
      | _, _ => Returns false
      end
  | includesAll =>
      match itemValue, ruleValue with
      | JArr _ have, JArr _ want => Returns (every (fun v => array_includes have v) want)
      | _, _ => Returns false
      end
  | excludesAny =>
      match itemValue, ruleValue with
      | JArr _ have, JArr _ want =>
          Returns (some (fun v => negb (array_includes have v)) want)
      | _, _ => Returns false
      end
  | excludesAll =>
      match itemValue, ruleValue with
      | JArr _ have, JArr _ want =>
          Returns (every (fun v => negb (array_includes have v)) want)
      | _, _ => Returns false
      end
  | UnknownMethod _ => Returns false
  end.

Definition combine (m : MatchMode) (results : list bool) : bool :=
  match m with
  | AND => every (fun b => b) results
  | OR => some (fun b => b) results
  end.

Definition matchesCondition (item : FilterableItem) (condition : FilterCondition)
  : outcome bool :=
  if (length (rules condition) =? 0)%nat then Returns true
  else
    results ← traverse (matchesRule item) (rules condition);
    Returns (combine (cmatch condition) results).

Definition matchesFilter (item : FilterableItem) (filter : ItemFilter) : outcome bool :=
  if (length (conditions filter) =? 0)%nat then Returns true
  else
    results ← traverse (matchesCondition item) (conditions filter);
    Returns (combine (fmatch filter) results).

(** [items.filter(item => matchesFilter(item, filter))] *)
Fixpoint filterItems (items : list FilterableItem) (filter : ItemFilter)
  : outcome (list FilterableItem) :=
  match items with
  | [] => Returns []
  | item :: rest =>
      keep ← matchesFilter item filter;
      kept ← filterItems rest filter;
      Returns (if (keep : bool) then item :: kept else kept)
  end.

(** *** The fluent builder

    Condition objects are shared between the builder's [conditions]
    array, its [currentCondition] and every [RuleBuilder] made for them,
    so they live in a store and are named by their index in it. *)
Record ItemFilterBuilder := {
  store : list FilterCondition;
  b_conditions : list nat;
  currentCondition : option nat;
  conditionMatch : MatchMode
}.

Record RuleBuilder := {
  rb_condition : nat;
  rb_property : FilterProperty
}.

(** [new ItemFilterBuilder()] *)
Definition new_builder : ItemFilterBuilder :=
  {| store := []; b_conditions := []; currentCondition := None; conditionMatch := AND |}.

(** Allocates the object [{ rules: [], match: 'AND' }], makes it current
    and pushes it. *)
Definition start_condition (m : MatchMode) (b : ItemFilterBuilder)
  : ItemFilterBuilder * nat :=
  let ref := length (store b) in
  ({| store := store b ++ [{| rules := []; cmatch := AND |}];
      b_conditions := b_conditions b ++ [ref];
      currentCondition := Some ref;
      conditionMatch := m |}, ref).

Definition where_ (p : FilterProperty) (b : ItemFilterBuilder)
  : ItemFilterBuilder * RuleBuilder :=
  let (b', ref) := start_condition (conditionMatch b) b in
  (b', {| rb_condition := ref; rb_property := p |}).

Definition and_ (p : FilterProperty) (b : ItemFilterBuilder)
  : ItemFilterBuilder * RuleBuilder :=
  match currentCondition b with
  | None => where_ p b
  | Some ref => (b, {| rb_condition := ref; rb_property := p |})
  end.

Definition or_ (p : FilterProperty) (b : ItemFilterBuilder)
  : ItemFilterBuilder * RuleBuilder :=
  let (b', ref) := start_condition OR b in
  (b', {| rb_condition := ref; rb_property := p |}).

(** A condition object made by the caller, e.g. an object literal. *)
Definition alloc_condition (c : FilterCondition) (b : ItemFilterBuilder)
  : ItemFilterBuilder * nat :=
  ({| store := store b ++ [c];
      b_conditions := b_conditions b;
      currentCondition := currentCondition b;
      conditionMatch := conditionMatch b |}, length (store b)).

(** [addCondition(condition)], for the condition object [ref] *)
Definition addCondition (ref : nat) (b : ItemFilterBuilder) : ItemFilterBuilder :=
  {| store := store b;
     b_conditions := b_conditions b ++ [ref];
     currentCondition := Some ref;
     conditionMatch := conditionMatch b |}.

Definition setConditionMatch (m : MatchMode) (b : ItemFilterBuilder) : ItemFilterBuilder :=
  {| store := store b;
     b_conditions := b_conditions b;
     currentCondition := currentCondition b;
     conditionMatch := m |}.

(** [build()]: the conditions array with each object as it now is. *)
Definition build (b : ItemFilterBuilder) : ItemFilter :=
  {| conditions := omap (fun ref => store b !! ref) (b_conditions b);
     fmatch := conditionMatch b |}.

(** [this.condition.rules.push({ property, method, value })] *)
Definition addRule (rb : RuleBuilder) (m : FilterMethod) (v : JsVal)
    (b : ItemFilterBuilder) : ItemFilterBuilder :=
  let rule := {| property := rb_property rb; method := m; value := v |} in
  {| store := alter (fun c => {| rules := rules c ++ [rule]; cmatch := cmatch c |})
                    (rb_condition rb) (store b);
     b_conditions := b_conditions b;
     currentCondition := currentCondition b;
     conditionMatch := conditionMatch b |}.

(** The argument of [matches(regex: RegExp | string)] *)
Inductive RegExpOrString :=
  | OfRegExp (regex : Regex.RegExp)
  | OfString (pattern : string).

Module Rule.
Definition is_ (rb : RuleBuilder) (v : JsVal) := addRule rb is_ v.
Definition isNot (rb : RuleBuilder) (v : JsVal) := addRule rb isNot v.
Definition contains (rb : RuleBuilder) (v : string) := addRule rb contains (JStr v).
Definition notContains (rb : RuleBuilder) (v : string) := addRule rb notContains (JStr v).
Definition startsWith (rb : RuleBuilder) (v : string) := addRule rb startsWith (JStr v).
Definition endsWith (rb : RuleBuilder) (v : string) := addRule rb endsWith (JStr v).
Definition matches (rb : RuleBuilder) (regex : RegExpOrString) :=
  addRule rb matches
    (JStr match regex with
          | OfRegExp re => Regex.source re
          | OfString pattern => pattern
          end).
Definition gt (rb : RuleBuilder) (v : Z) := addRule rb gt (JNum v).
Definition gte (rb : RuleBuilder) (v : Z) := addRule rb gte (JNum v).
Definition lt (rb : RuleBuilder) (v : Z) := addRule rb lt (JNum v).
Definition lte (rb : RuleBuilder) (v : Z) := addRule rb lte (JNum v).
(** [[min, max]] is a fresh array, with identity [ref]. *)
Definition between (rb : RuleBuilder) (ref : nat) (min max : Z) :=
  addRule rb between (JArr ref [JNum min; JNum max]).
Definition includesAny (rb : RuleBuilder) (values : JsVal) := addRule rb includesAny values.
Definition includesAll (rb : RuleBuilder) (values : JsVal) := addRule rb includesAll values.
Definition excludesAny (rb : RuleBuilder) (values : JsVal) := addRule rb excludesAny values.
Definition excludesAll (rb : RuleBuilder) (values : JsVal) := addRule rb excludesAll values.
Definition isEmpty (rb : RuleBuilder) := addRule rb isEmpty JUndefined.
Definition isNotEmpty (rb : RuleBuilder) := addRule rb isNotEmpty JUndefined.
End Rule.

(** *** Convenience functions

    Each builds a filter of one rule with a new builder and runs
    [filterItems] with it. *)

(** [s.slice(1)] *)
Definition slice1 (s : string) : string :=
  String.substring 1 (String.length s - 1) s.

Definition filterByTags (items : list FilterableItem) (tagValues : JsVal)
  : outcome (list FilterableItem) :=
  let (b, rb) := where_ tags new_builder in
  filterItems items (build (Rule.includesAny rb tagValues b)).

Definition filterByFolders (items : list FilterableItem) (folderIds : JsVal)
  : outcome (list FilterableItem) :=
  let (b, rb) := where_ folders new_builder in
  filterItems items (build (Rule.includesAny rb folderIds b)).

Definition filterByName (items : list FilterableItem) (pattern : RegExpOrString)
  : outcome (list FilterableItem) :=
  let (b, rb) := where_ name new_builder in
  filterItems items (build (Rule.matches rb pattern b)).

Definition filterByExtension (items : list FilterableItem) (extension : string)
  : outcome (list FilterableItem) :=
  let normalizedExt :=
    if Js.startsWith extension "." then slice1 extension else extension in
  let (b, rb) := where_ ext new_builder in
  filterItems items (build (Rule.is_ rb (JStr normalizedExt) b)).

Definition filterByRating (items : list FilterableItem) (minStars : Z)
  : outcome (list FilterableItem) :=
  let (b, rb) := where_ star new_builder in
  filterItems items (build (Rule.gte rb minStars b)).

Definition filterUntagged (items : list FilterableItem)
  : outcome (list FilterableItem) :=
  let (b, rb) := where_ tags new_builder in
  filterItems items (build (Rule.isEmpty rb b)).

Definition filterUnfiled (items : list FilterableItem)
  : outcome (list FilterableItem) :=
  let (b, rb) := where_ folders new_builder in
  filterItems items (build (Rule.isEmpty rb b)).

(** The argument [Date | number] of [filterByImportDate]; a [Date] is
    its time value (an invalid one, whose time is NaN, is left out). *)
Inductive DateOrNumber :=
  | OfDate (time : Z)
  | OfNumber (n : Z).

(** [d instanceof Date ? d.getTime() : d] *)
Definition timestamp_of (d : DateOrNumber) : Z :=
  match d with
  | OfDate time => time
  | OfNumber n => n
  end.

(** [ref] is the identity of the array [[fromTs, toTs]]. *)
Definition filterByImportDate (items : list FilterableItem)
    (from to : DateOrNumber) (ref : nat) : outcome (list FilterableItem) :=
  let fromTs := timestamp_of from in
  let toTs := timestamp_of to in
  let (b, rb) := where_ importedAt new_builder in
  filterItems items (build (Rule.between rb ref fromTs toTs b)).

(** [filters.flatMap(f => f.conditions)] under one match mode *)
Definition combineFilters (filters : list ItemFilter) : ItemFilter :=
  {| conditions := flat_map conditions filters; fmatch := AND |}.

Definition anyOfFilters (filters : list ItemFilter) : ItemFilter :=
  {| conditions := flat_map conditions filters; fmatch := OR |}.

End Filter.

(** ** subscribe.ts and models.ts *)
Module Subscribe.

(** *** Snapshots (models.ts) *)

Record LibraryState := { path : string; lib_name : string }.

(** [ConfigState] and [LibraryFolderState]: a modification time. *)
Record ConfigState := { mtime : Z }.
Definition LibraryFolderState := ConfigState.

(** [PlainItem] and [PlainFolder]; of the projected fields only [id]
    takes part in change detection, the others travel in the payload. *)
Record PlainItem := { item_id : string; item_name : string }.
Record PlainFolder := { folder_id : string; folder_name : string }.

(** *** Subscriptions *)

Record SubscribeOptions := {
  opt_interval : option Z;
  opt_maxEqualLookups : option Z
}.

Record ChangeEvent (T : Type) := {
  ev_previous : T;
  ev_current : T;
  timestamp : Z
}.
Arguments ev_previous {T} _.
Arguments ev_current {T} _.
Arguments timestamp {T} _.

(** A callback is a function object, known by its identity. *)
Definition Callback := nat.
Bind Scope nat_scope with Callback.

(** A [WatcherEntry] is an object too: [entry_id] is its identity, by
    which [Set.delete] finds it. *)
Record WatcherEntry := {
  entry_id : nat;
  callback : Callback;
  interval : Z;
  maxEqualLookups : Z
}.

(** [timerId] holds the period the timer was created with. *)
Record WatcherState (T : Type) := {
  entries : list WatcherEntry;
  timerId : option Z;
  previous : option (list T)
}.
Arguments entries {T} _.
Arguments timerId {T} _.
Arguments previous {T} _.

Record SubscriptionManager := {
  libraryState : option LibraryState;
  libraryTimerId : option Z;
  libraryCallbacks : list Callback;
  itemWatchers : WatcherState PlainItem;
  folderWatchers : WatcherState PlainFolder;
  configPrevious : option ConfigState;
  configEntries : list WatcherEntry;
  configTimerId : option Z;
  libraryFolderPrevious : option LibraryFolderState;
  libraryFolderEntries : list WatcherEntry;
  libraryFolderTimerId : option Z;
  next_entry : nat
}.

(** What a step of the manager makes observable: the callbacks it
    invokes, in order, with their event, and the errors it logs.  What a
    callback does is its own business: an exception it throws is caught
    and logged, and it is taken not to call back into the manager. *)
Inductive Effect :=
  | LibraryChanged (cb : Callback) (ev : ChangeEvent LibraryState)
  | ItemsChanged (cb : Callback) (ev : ChangeEvent (list PlainItem))
  | FoldersChanged (cb : Callback) (ev : ChangeEvent (list PlainFolder))
  | ConfigChanged (cb : Callback) (ev : ChangeEvent ConfigState)
  | LibraryFoldersChanged (cb : Callback) (ev : ChangeEvent LibraryFolderState)
  | Logged (message : string).

(** [new SubscriptionManager()] *)
Definition initial : SubscriptionManager :=
  {| libraryState := None; libraryTimerId := None; libraryCallbacks := [];
     itemWatchers := {| entries := []; timerId := None; previous := None |};
     folderWatchers := {| entries := []; timerId := None; previous := None |};
     configPrevious := None; configEntries := []; configTimerId := None;
     libraryFolderPrevious := None; libraryFolderEntries := [];
     libraryFolderTimerId := None;
     next_entry := 0 |}.

(** Field updates *)
Definition with_library (st : option LibraryState) (timer : option Z)
    (cbs : list Callback) (m : SubscriptionManager) : SubscriptionManager :=
  {| libraryState := st; libraryTimerId := timer; libraryCallbacks := cbs;
     itemWatchers := itemWatchers m; folderWatchers := folderWatchers m;
     configPrevious := configPrevious m; configEntries := configEntries m;
     configTimerId := configTimerId m;
     libraryFolderPrevious := libraryFolderPrevious m;
     libraryFolderEntries := libraryFolderEntries m;
     libraryFolderTimerId := libraryFolderTimerId m;
     next_entry := next_entry m |}.

Definition with_itemWatchers (w : WatcherState PlainItem) (m : SubscriptionManager)
  : SubscriptionManager :=
  {| libraryState := libraryState m; libraryTimerId := libraryTimerId m;
     libraryCallbacks := libraryCallbacks m;
     itemWatchers := w; folderWatchers := folderWatchers m;
     configPrevious := configPrevious m; configEntries := configEntries m;
     configTimerId := configTimerId m;
     libraryFolderPrevious := libraryFolderPrevious m;
     libraryFolderEntries := libraryFolderEntries m;
     libraryFolderTimerId := libraryFolderTimerId m;
     next_entry := next_entry m |}.

Definition with_folderWatchers (w : WatcherState PlainFolder) (m : SubscriptionManager)
  : SubscriptionManager :=
  {| libraryState := libraryState m; libraryTimerId := libraryTimerId m;
     libraryCallbacks := libraryCallbacks m;
     itemWatchers := itemWatchers m; folderWatchers := w;
     configPrevious := configPrevious m; configEntries := configEntries m;
     configTimerId := configTimerId m;
     libraryFolderPrevious := libraryFolderPrevious m;
     libraryFolderEntries := libraryFolderEntries m;
     libraryFolderTimerId := libraryFolderTimerId m;
     next_entry := next_entry m |}.

Definition with_config (prev : option ConfigState) (es : list WatcherEntry)
    (timer : option Z) (m : SubscriptionManager) : SubscriptionManager :=
  {| libraryState := libraryState m; libraryTimerId := libraryTimerId m;
     libraryCallbacks := libraryCallbacks m;
     itemWatchers := itemWatchers m; folderWatchers := folderWatchers m;
     configPrevious := prev; configEntries := es; configTimerId := timer;
     libraryFolderPrevious := libraryFolderPrevious m;
     libraryFolderEntries := libraryFolderEntries m;
     libraryFolderTimerId := libraryFolderTimerId m;
     next_entry := next_entry m |}.

Definition with_libraryFolder (prev : option LibraryFolderState)
    (es : list WatcherEntry) (timer : option Z) (m : SubscriptionManager)
  : SubscriptionManager :=
  {| libraryState := libraryState m; libraryTimerId := libraryTimerId m;
     libraryCallbacks := libraryCallbacks m;
     itemWatchers := itemWatchers m; folderWatchers := folderWatchers m;
     configPrevious := configPrevious m; configEntries := configEntries m;
     configTimerId := configTimerId m;
     libraryFolderPrevious := prev; libraryFolderEntries := es;
     libraryFolderTimerId := timer;
     next_entry := next_entry m |}.

Definition with_next_entry (n : nat) (m : SubscriptionManager) : SubscriptionManager :=
  {| libraryState := libraryState m; libraryTimerId := libraryTimerId m;
     libraryCallbacks := libraryCallbacks m;
     itemWatchers := itemWatchers m; folderWatchers := folderWatchers m;
     configPrevious := configPrevious m; configEntries := configEntries m;
     configTimerId := configTimerId m;
     libraryFolderPrevious := libraryFolderPrevious m;
     libraryFolderEntries := libraryFolderEntries m;
     libraryFolderTimerId := libraryFolderTimerId m;
     next_entry := n |}.

(** *** Utilities *)

Definition getMinInterval (es : list WatcherEntry) : Z :=
  fold_left (fun min e => if interval e <? min then interval e else min) es 500.

(** The loop [for (i = 0; i < limit; i++) if (prev[i] !== curr[i]) return true] *)
Fixpoint differs_within (limit : nat) (prev curr : list string) : bool :=
  match limit, prev, curr with
  | S k, p :: prev', c :: curr' =>
      negb (String.eqb p c) || differs_within k prev' curr'
  | _, _, _ => false
  end.

Definition hasSelectionChanged (prev curr : list string) (maxLookups : Z) : bool :=
  if negb (length prev =? length curr)%nat then true
  else
    let limit := if maxLookups =? -1 then Z.of_nat (length prev)
                 else Z.min maxLookups (Z.of_nat (length prev)) in
    differs_within (Z.to_nat limit) prev curr.

(** [set.add(x)] and [set.delete(x)] on a set of callbacks *)
Definition set_add (cb : Callback) (cbs : list Callback) : list Callback :=
  if existsb (Nat.eqb cb) cbs then cbs else cbs ++ [cb].
Definition set_delete (cb : Callback) (cbs : list Callback) : list Callback :=
  List.filter (fun c => negb (Nat.eqb cb c)) cbs.

Definition delete_entry (eid : nat) (es : list WatcherEntry) : list WatcherEntry :=
  List.filter (fun e => negb (Nat.eqb eid (entry_id e))) es.

(** *** Library change (parent watcher, 1 s fixed)

    [host] is what [getLibraryState()] reads at the time of the call. *)

Definition ensureLibraryWatcher (host : LibraryState) (m : SubscriptionManager)
  : SubscriptionManager :=
  match libraryTimerId m with
  | Some _ => m
  | None => with_library (Some host) (Some 1000) (libraryCallbacks m) m
  end.

Definition maybeStopLibraryWatcher (m : SubscriptionManager) : SubscriptionManager :=
  if (length (libraryCallbacks m) =? 0)%nat
     && (length (entries (itemWatchers m)) =? 0)%nat
     && (length (entries (folderWatchers m)) =? 0)%nat
     && (length (configEntries m) =? 0)%nat
     && (length (libraryFolderEntries m) =? 0)%nat
  then with_library None None (libraryCallbacks m) m
  else m.

Definition resetChildWatchers (m : SubscriptionManager) : SubscriptionManager :=
  let m1 := with_itemWatchers
              {| entries := entries (itemWatchers m);
                 timerId := timerId (itemWatchers m); previous := None |} m in
  let m2 := with_folderWatchers
              {| entries := entries (folderWatchers m1);
                 timerId := timerId (folderWatchers m1); previous := None |} m1 in
  let m3 := with_config None (configEntries m2) (configTimerId m2) m2 in
  with_libraryFolder None (libraryFolderEntries m3) (libraryFolderTimerId m3) m3.

Definition checkLibraryChange (current : LibraryState) (now : Z)
    (m : SubscriptionManager) : SubscriptionManager * list Effect :=
  let previous := libraryState m in
  let (m', fired) :=
    match previous with
    | Some prev =>
        if negb (String.eqb (path current) (path prev)) then
          let event := {| ev_previous := prev; ev_current := current;
                          timestamp := now |} in
          (resetChildWatchers m,
           List.map (fun cb => LibraryChanged cb event) (libraryCallbacks m))
        else (m, [])
    | None => (m, [])
    end in
  (with_library (Some current) (libraryTimerId m') (libraryCallbacks m') m', fired).

Definition subscribeLibrary (cb : Callback) (host : LibraryState)
    (m : SubscriptionManager) : SubscriptionManager :=
  ensureLibraryWatcher host
    (with_library (libraryState m) (libraryTimerId m)
                  (set_add cb (libraryCallbacks m)) m).

Definition unsubscribeLibrary (cb : Callback) (m : SubscriptionManager)
  : SubscriptionManager :=
  maybeStopLibraryWatcher
    (with_library (libraryState m) (libraryTimerId m)
                  (set_delete cb (libraryCallbacks m)) m).


(** *** Item selection change

    A tick of the poller is [checkItemChange]: [selected] is what the
    awaited host query gave, already projected by [extractItem], or
    [None] when it threw.  The body after the [await] runs in one go. *)

Definition checkItemChange (selected : option (list PlainItem)) (now : Z)
    (m : SubscriptionManager) : SubscriptionManager * list Effect :=
  match selected with
  | None => (m, [Logged "Item selection check error"])
  | Some current =>
      let w := itemWatchers m in
      let fired :=
        match previous w with
        | Some prev =>
            flat_map
              (fun entry =>
                 let prevIds := List.map item_id prev in
                 let currIds := List.map item_id current in
                 if hasSelectionChanged prevIds currIds (maxEqualLookups entry)
                 then [ItemsChanged (callback entry)
                         {| ev_previous := prev; ev_current := current;
                            timestamp := now |}]
                 else [])
              (entries w)
        | None => []
        end in
      (with_itemWatchers {| entries := entries w; timerId := timerId w;
                          previous := Some current |} m, fired)
  end.

(** The result says whether the timer was created by this call, in which
    case a first [checkItemChange] has been launched as well. *)
Definition ensureItemWatcher (m : SubscriptionManager) : SubscriptionManager * bool :=
  let w := itemWatchers m in
  match timerId w with
  | Some _ => (m, false)
  | None =>
      let minInterval := getMinInterval (entries w) in
      (with_itemWatchers {| entries := entries w; timerId := Some minInterval;
                          previous := previous w |} m, true)
  end.

Definition maybeStopItemWatcher (m : SubscriptionManager) : SubscriptionManager :=
  let w := itemWatchers m in
  match timerId w with
  | Some _ =>
      if (length (entries w) =? 0)%nat
      then with_itemWatchers {| entries := entries w; timerId := None;
                             previous := None |} m
      else m
  | None => m
  end.

(** [subscribeItems(callback, options)]: the new manager, whether a
    first tick was launched, and the entry the returned [Unsubscribe]
    closes over. *)
Definition subscribeItems (cb : Callback) (options : SubscribeOptions)
    (host : LibraryState) (m : SubscriptionManager)
  : SubscriptionManager * bool * nat :=
  let entry := {| entry_id := next_entry m; callback := cb;
                  interval := default 500 (opt_interval options);
                  maxEqualLookups := default (-1) (opt_maxEqualLookups options) |} in
  let w := itemWatchers m in
  let m1 := with_next_entry (S (next_entry m))
              (with_itemWatchers {| entries := entries w ++ [entry];
                                 timerId := timerId w; previous := previous w |} m) in
  let m2 := ensureLibraryWatcher host m1 in
  let (m3, launched) := ensureItemWatcher m2 in
  (m3, launched, entry_id entry).

Definition unsubscribeItems (eid : nat) (m : SubscriptionManager) : SubscriptionManager :=
  let w := itemWatchers m in
  maybeStopLibraryWatcher
    (maybeStopItemWatcher
       (with_itemWatchers {| entries := delete_entry eid (entries w);
                          timerId := timerId w; previous := previous w |} m)).

(** *** Folder selection change

    A tick of the poller is [checkFolderChange]: [selected] is what the
    awaited host query gave, already projected by [extractFolder], or
    [None] when it threw.  The body after the [await] runs in one go. *)

Definition checkFolderChange (selected : option (list PlainFolder)) (now : Z)
    (m : SubscriptionManager) : SubscriptionManager * list Effect :=
  match selected with
  | None => (m, [Logged "Folder selection check error"])
  | Some current =>
      let w := folderWatchers m in
      let fired :=
        match previous w with
        | Some prev =>
            flat_map
              (fun entry =>
                 let prevIds := List.map folder_id prev in
                 let currIds := List.map folder_id current in
                 if hasSelectionChanged prevIds currIds (maxEqualLookups entry)
                 then [FoldersChanged (callback entry)
                         {| ev_previous := prev; ev_current := current;
                            timestamp := now |}]
                 else [])
              (entries w)
        | None => []
        end in
      (with_folderWatchers {| entries := entries w; timerId := timerId w;
                          previous := Some current |} m, fired)
  end.

(** The result says whether the timer was created by this call, in which
    case a first [checkFolderChange] has been launched as well. *)
Definition ensureFolderWatcher (m : SubscriptionManager) : SubscriptionManager * bool :=
  let w := folderWatchers m in
  match timerId w with
  | Some _ => (m, false)
  | None =>
      let minInterval := getMinInterval (entries w) in
      (with_folderWatchers {| entries := entries w; timerId := Some minInterval;
                          previous := previous w |} m, true)
  end.

Definition maybeStopFolderWatcher (m : SubscriptionManager) : SubscriptionManager :=
  let w := folderWatchers m in
  match timerId w with
  | Some _ =>
      if (length (entries w) =? 0)%nat
      then with_folderWatchers {| entries := entries w; timerId := None;
                             previous := None |} m
      else m
  | None => m
  end.

(** [subscribeFolders(callback, options)]: the new manager, whether a
    first tick was launched, and the entry the returned [Unsubscribe]
    closes over. *)
Definition subscribeFolders (cb : Callback) (options : SubscribeOptions)
    (host : LibraryState) (m : SubscriptionManager)
  : SubscriptionManager * bool * nat :=
  let entry := {| entry_id := next_entry m; callback := cb;
                  interval := default 500 (opt_interval options);
                  maxEqualLookups := default (-1) (opt_maxEqualLookups options) |} in
  let w := folderWatchers m in
  let m1 := with_next_entry (S (next_entry m))
              (with_folderWatchers {| entries := entries w ++ [entry];
                                 timerId := timerId w; previous := previous w |} m) in
  let m2 := ensureLibraryWatcher host m1 in
  let (m3, launched) := ensureFolderWatcher m2 in
  (m3, launched, entry_id entry).

Definition unsubscribeFolders (eid : nat) (m : SubscriptionManager) : SubscriptionManager :=
  let w := folderWatchers m in
  maybeStopLibraryWatcher
    (maybeStopFolderWatcher
       (with_folderWatchers {| entries := delete_entry eid (entries w);
                          timerId := timerId w; previous := previous w |} m)).

(** *** Library config change (mtime monitoring)

    [stat] is the [mtimeMs] of the library's metadata.json, or [None] when [fs.stat] threw. *)

Definition checkConfigChange (stat : option Z) (now : Z)
    (m : SubscriptionManager) : SubscriptionManager * list Effect :=
  match stat with
  | None => (m, [Logged "Config mtime check error"])
  | Some t =>
      let current := {| mtime := t |} in
      let fired :=
        match configPrevious m with
        | Some prev =>
            if negb (mtime current =? mtime prev) then
              List.map
                (fun entry => ConfigChanged (callback entry)
                                {| ev_previous := prev; ev_current := current;
                                   timestamp := now |})
                (configEntries m)
            else []
        | None => []
        end in
      (with_config (Some current) (configEntries m) (configTimerId m) m, fired)
  end.

Definition ensureConfigWatcher (m : SubscriptionManager) : SubscriptionManager * bool :=
  match configTimerId m with
  | Some _ => (m, false)
  | None =>
      let minInterval := getMinInterval (configEntries m) in
      (with_config (configPrevious m) (configEntries m) (Some minInterval) m, true)
  end.

Definition maybeStopConfigWatcher (m : SubscriptionManager) : SubscriptionManager :=
  match configTimerId m with
  | Some _ =>
      if (length (configEntries m) =? 0)%nat
      then with_config None (configEntries m) None m
      else m
  | None => m
  end.

Definition subscribeConfig (cb : Callback) (options : SubscribeOptions)
    (host : LibraryState) (m : SubscriptionManager)
  : SubscriptionManager * bool * nat :=
  let entry := {| entry_id := next_entry m; callback := cb;
                  interval := default 500 (opt_interval options);
                  maxEqualLookups := -1 |} in
  let m1 := with_next_entry (S (next_entry m))
              (with_config (configPrevious m) (configEntries m ++ [entry]) (configTimerId m) m) in
  let m2 := ensureLibraryWatcher host m1 in
  let (m3, launched) := ensureConfigWatcher m2 in
  (m3, launched, entry_id entry).

Definition unsubscribeConfig (eid : nat) (m : SubscriptionManager) : SubscriptionManager :=
  maybeStopLibraryWatcher
    (maybeStopConfigWatcher
       (with_config (configPrevious m) (delete_entry eid (configEntries m)) (configTimerId m) m)).

(** *** Library folder structure change (directory mtime monitoring)

    [stat] is the [mtimeMs] of the library directory, or [None] when [fs.stat] threw. *)

Definition checkLibraryFolderChange (stat : option Z) (now : Z)
    (m : SubscriptionManager) : SubscriptionManager * list Effect :=
  match stat with
  | None => (m, [Logged "LibraryFolder mtime check error"])
  | Some t =>
      let current := {| mtime := t |} in
      let fired :=
        match libraryFolderPrevious m with
        | Some prev =>
            if negb (mtime current =? mtime prev) then
              List.map
                (fun entry => LibraryFoldersChanged (callback entry)
                                {| ev_previous := prev; ev_current := current;
                                   timestamp := now |})
                (libraryFolderEntries m)
            else []
        | None => []
        end in
      (with_libraryFolder (Some current) (libraryFolderEntries m) (libraryFolderTimerId m) m, fired)
  end.

Definition ensureLibraryFolderWatcher (m : SubscriptionManager) : SubscriptionManager * bool :=
  match libraryFolderTimerId m with
  | Some _ => (m, false)
  | None =>
      let minInterval := getMinInterval (libraryFolderEntries m) in
      (with_libraryFolder (libraryFolderPrevious m) (libraryFolderEntries m) (Some minInterval) m, true)
  end.

Definition maybeStopLibraryFolderWatcher (m : SubscriptionManager) : SubscriptionManager :=
  match libraryFolderTimerId m with
  | Some _ =>
      if (length (libraryFolderEntries m) =? 0)%nat
      then with_libraryFolder None (libraryFolderEntries m) None m
      else m
  | None => m
  end.

Definition subscribeLibraryFolders (cb : Callback) (options : SubscribeOptions)
    (host : LibraryState) (m : SubscriptionManager)
  : SubscriptionManager * bool * nat :=
  let entry := {| entry_id := next_entry m; callback := cb;
                  interval := default 500 (opt_interval options);
                  maxEqualLookups := -1 |} in
  let m1 := with_next_entry (S (next_entry m))
              (with_libraryFolder (libraryFolderPrevious m) (libraryFolderEntries m ++ [entry]) (libraryFolderTimerId m) m) in
  let m2 := ensureLibraryWatcher host m1 in
  let (m3, launched) := ensureLibraryFolderWatcher m2 in
  (m3, launched, entry_id entry).

Definition unsubscribeLibraryFolders (eid : nat) (m : SubscriptionManager) : SubscriptionManager :=
  maybeStopLibraryWatcher
    (maybeStopLibraryFolderWatcher
       (with_libraryFolder (libraryFolderPrevious m) (delete_entry eid (libraryFolderEntries m)) (libraryFolderTimerId m) m)).

End Subscribe.

(** ** SHA-256 ([createHash('sha256')], FIPS 180-4)

    Words are 32-bit, kept in [Z] with the wrap-around written out. *)
Module Sha256.

Definition wrap (x : Z) : Z := x mod 2 ^ 32.
Definition add32 (x y : Z) : Z := wrap (x + y).
Definition rotr (n x : Z) : Z :=
  Z.lor (Z.shiftr x n) (wrap (Z.shiftl x (32 - n))).
Definition shr (n x : Z) : Z := Z.shiftr x n.
Definition not32 (x : Z) : Z := 2 ^ 32 - 1 - x.

Definition Ch (x y z : Z) : Z := Z.lxor (Z.land x y) (Z.land (not32 x) z).
Definition Maj (x y z : Z) : Z :=
  Z.lxor (Z.lxor (Z.land x y) (Z.land x z)) (Z.land y z).
Definition bsig0 (x : Z) : Z := Z.lxor (Z.lxor (rotr 2 x) (rotr 13 x)) (rotr 22 x).
Definition bsig1 (x : Z) : Z := Z.lxor (Z.lxor (rotr 6 x) (rotr 11 x)) (rotr 25 x).
Definition ssig0 (x : Z) : Z := Z.lxor (Z.lxor (rotr 7 x) (rotr 18 x)) (shr 3 x).
Definition ssig1 (x : Z) : Z := Z.lxor (Z.lxor (rotr 17 x) (rotr 19 x)) (shr 10 x).

(** Round constants: the fractional parts of the cube roots of the first
    64 primes. *)
Definition K : list Z :=
  [ 1116352408; 1899447441; 3049323471; 3921009573; 961987163; 1508970993;
    2453635748; 2870763221; 3624381080; 310598401; 607225278; 1426881987;
    1925078388; 2162078206; 2614888103; 3248222580; 3835390401; 4022224774;
    264347078; 604807628; 770255983; 1249150122; 1555081692; 1996064986;
    2554220882; 2821834349; 2952996808; 3210313671; 3336571891; 3584528711;
    113926993; 338241895; 666307205; 773529912; 1294757372; 1396182291;
    1695183700; 1986661051; 2177026350; 2456956037; 2730485921; 2820302411;
    3259730800; 3345764771; 3516065817; 3600352804; 4094571909; 275423344;
    430227734; 506948616; 659060556; 883997877; 958139571; 1322822218;
    1537002063; 1747873779; 1955562222; 2024104815; 2227730452; 2361852424;
    2428436474; 2756734187; 3204031479; 3329325298 ].

(** Initial hash value: from the square roots of the first 8 primes. *)
Definition H0 : list Z :=
  [ 1779033703; 3144134277; 1013904242; 2773480762; 1359893119; 2600822924;
    528734635; 1541459225 ].

(** Big-endian bytes of [x], most significant first. *)
Fixpoint be_bytes (n : nat) (x : Z) : list Z :=
  match n with
  | O => []
  | S n' => (Z.shiftr x (8 * Z.of_nat n')) mod 256 :: be_bytes n' x
  end.

Definition be_word (bs : list Z) : Z :=
  fold_left (fun acc b => acc * 256 + b) bs 0.

(** Padding: a 1 bit, zeros up to 56 mod 64 bytes, the bit length on 64
    bits. *)
Definition pad (msg : list Z) : list Z :=
  let len := Z.of_nat (length msg) in
  let zeros := Z.to_nat ((55 - len) mod 64) in
  msg ++ [128] ++ repeat 0 zeros ++ be_bytes 8 (8 * len).

Fixpoint chunks {A} (size : nat) (count : nat) (xs : list A) : list (list A) :=
  match count with
  | O => []
  | S c => firstn size xs :: chunks size c (skipn size xs)
  end.

(** The message schedule, newest word first while it is being built. *)
Fixpoint extend (n : nat) (rev_w : list Z) : list Z :=
  match n with
  | O => rev_w
  | S n' =>
      let w := add32 (add32 (ssig1 (nth 1 rev_w 0)) (nth 6 rev_w 0))
                     (add32 (ssig0 (nth 14 rev_w 0)) (nth 15 rev_w 0)) in
      extend n' (w :: rev_w)
  end.

Definition schedule (block : list Z) : list Z :=
  rev (extend 48 (rev (List.map be_word (chunks 4 16 block)))).

Record regs := { ra : Z; rb : Z; rc : Z; rd : Z; re : Z; rf : Z; rg : Z; rh : Z }.

Definition round (s : regs) (kw : Z * Z) : regs :=
  let (k, w) := kw in
  let t1 := add32 (add32 (add32 (add32 (rh s) (bsig1 (re s)))
                                 (Ch (re s) (rf s) (rg s))) k) w in
  let t2 := add32 (bsig0 (ra s)) (Maj (ra s) (rb s) (rc s)) in
  {| ra := add32 t1 t2; rb := ra s; rc := rb s; rd := rc s;
     re := add32 (rd s) t1; rf := re s; rg := rf s; rh := rg s |}.

Definition compress (h : regs) (block : list Z) : regs :=
  let s := fold_left round (combine K (schedule block)) h in
  {| ra := add32 (ra h) (ra s); rb := add32 (rb h) (rb s);
     rc := add32 (rc h) (rc s); rd := add32 (rd h) (rd s);
     re := add32 (re h) (re s); rf := add32 (rf h) (rf s);
     rg := add32 (rg h) (rg s); rh := add32 (rh h) (rh s) |}.

Definition initial : regs :=
  {| ra := nth 0 H0 0; rb := nth 1 H0 0; rc := nth 2 H0 0; rd := nth 3 H0 0;
     re := nth 4 H0 0; rf := nth 5 H0 0; rg := nth 6 H0 0; rh := nth 7 H0 0 |}.

(** The 32 bytes of the digest. *)
Definition digest (msg : list Z) : list Z :=
  let padded := pad msg in
  let h := fold_left compress (chunks 64 (length padded / 64) padded) initial in
  flat_map (be_bytes 4) [ra h; rb h; rc h; rd h; re h; rf h; rg h; rh h].

Definition hex_digit (d : Z) : ascii :=
  nth (Z.to_nat d) (list_ascii_of_string "0123456789abcdef") "0"%char.

(** [digest('hex')] *)
Definition hex (bytes : list Z) : string :=
  string_of_list_ascii
    (flat_map (fun b => [hex_digit (b / 16); hex_digit (b mod 16)]) bytes).

(** [createHash('sha256').update(input).digest('hex')], the input taken
    as its sequence of bytes. *)
Definition sha256_hex (input : string) : string :=
  hex (digest (List.map (fun c => Z.of_nat (nat_of_ascii c))
                        (list_ascii_of_string input))).

End Sha256.

(** ** config.ts *)
Module Config.

(** JSON documents, as [JSON.parse] gives them. *)
Inductive Json :=
  | JsonNull
  | JsonBool (b : bool)
  | JsonNum (n : Z)
  | JsonStr (s : string)
  | JsonArr (elems : list Json)
  | JsonObj (fields : gmap string Json).

(** What a path holds: a JSON document, or text [JSON.parse] rejects. *)
Inductive Content :=
  | Parsed (doc : Json)
  | Unparsable.

(** The file system, by path; a path not in the map does not exist. *)
Abbreviation Files := (gmap string Content).

(** The ambient [eagle] object, the next value of [randomUUID()], and
    whether a file can be written in the library's folder (the folder
    is there and may be written to). *)
Record Host := {
  homedir : string;
  library_path : string;
  library_name : string;
  randomUUID : string;
  library_writable : bool
}.

(** The state the module works on: the files, and the module-level
    [_currentPluginId]. *)
Record World := {
  files : Files;
  _currentPluginId : option string
}.

Definition with_files (fs : Files) (w : World) : World :=
  {| files := fs; _currentPluginId := _currentPluginId w |}.

(** An [async] function of the module: it ends in a completion and
    leaves a world behind, also when it throws. *)
Definition Async (A : Type) := World -> outcome A * World.

#[global] Instance async_bind : MBind Async := fun A B k m w =>
  match m w with
  | (Returns a, w') => k a w'
  | (Throws e, w') => (Throws e, w')
  | (Unmodelled, w') => (Unmodelled, w')
  end.

Definition ret {A} (a : A) : Async A := fun w => (Returns a, w).
Definition throw {A} (e : JsError) : Async A := fun w => (Throws e, w).
Definition unmodelled {A} : Async A := fun w => (Unmodelled, w).
Definition lift {A} (o : outcome A) : Async A := fun w => (o, w).

Inductive ConfigType := global | pluginbased | librarybased.

Record EagleUserConfig := {
  type : ConfigType;
  thisPluginOnly : bool;
  useLibraryNameAsLibIdentifier : bool;
  useLibraryUuid : bool
}.

(** *** Constants *)
Definition CONFIG_DIR_NAME : string := ".eaglecooler".
Definition CONFIG_SUBDIR : string := "config".
Definition CONFIG_FILES_global : string := "global.json".
Definition CONFIG_FILES_globalPerPlugin : string := "globalPerPlugin.json".
Definition CONFIG_FILES_library : string := "library.json".
Definition CONFIG_FILES_plugin : string := "plugin.json".
Definition LIBRARY_UUID_FILENAME : string := "cooler-uuid.json".

(** *** Helpers *)

(** [path.join], on segments that need no normalising. *)
Definition path_join (segments : list string) : string := Js.join "/" segments.

(** First 16 characters of the hex digest. *)
Definition sha256 (input : string) : string :=
  String.substring 0 16 (Sha256.sha256_hex input).
#[global] Arguments sha256 : simpl never.

Definition getConfigBasePath (h : Host) : string :=
  path_join [homedir h; CONFIG_DIR_NAME; CONFIG_SUBDIR].

(** [readJsonFile]: the parsed document, [{}] when the file is missing or
    does not parse. *)
Definition readJsonFile (filePath : string) : Async Json := fun w =>
  match files w !! filePath with
  | Some (Parsed doc) => (Returns doc, w)
  | Some Unparsable | None => (Returns (JsonObj ∅), w)
  end.

(** [writeJsonFile]: the directory is made if need be, then the file
    holds the document. *)
Definition writeJsonFile (filePath : string) (data : Json) : Async unit := fun w =>
  (Returns tt, with_files (<[filePath := Parsed data]> (files w)) w).

(** [_currentPluginId ?? 'unknown-plugin'] *)
Definition getPluginId : Async string := fun w =>
  (Returns (default "unknown-plugin" (_currentPluginId w)), w).

Definition getLibraryUuidFilePath (h : Host) : string :=
  path_join [library_path h; LIBRARY_UUID_FILENAME].

(** Truthiness of a JSON value *)
Definition truthy (j : Json) : bool :=
  match j with
  | JsonNull => false
  | JsonBool b => b
  | JsonNum n => negb (n =? 0)
  | JsonStr s => negb (String.eqb s "")
  | JsonArr _ | JsonObj _ => true
  end.

(** [readLibraryUuid]: [data.uuid], [None] for [undefined] (file missing
    or invalid, no such field, or a [null] document, on which the
    property read throws inside the [try]). *)
Definition readLibraryUuid (h : Host) : Async (option Json) := fun w =>
  match files w !! getLibraryUuidFilePath h with
  | Some (Parsed (JsonObj fields)) => (Returns (fields !! "uuid"), w)
  | Some (Parsed (JsonArr _)) | Some (Parsed (JsonStr _)) => (Unmodelled, w)
  | _ => (Returns None, w)
  end.

(** [writeLibraryUuid]: [fs.writeFile] in the library's folder, which is
    not made first; the rejection is not caught. *)
Definition writeLibraryUuid (h : Host) (uuid : string) : Async unit := fun w =>
  if library_writable h
  then (Returns tt,
        with_files (<[getLibraryUuidFilePath h :=
                        Parsed (JsonObj {[ "uuid" := JsonStr uuid ]})]> (files w)) w)
  else (Throws IOError, w).

(** [getOrCreateLibraryUuid]; a stored uuid that is truthy but not a
    string is left out. *)
Definition getOrCreateLibraryUuid (h : Host) : Async string :=
  existingUuid ← readLibraryUuid h;
  match existingUuid with
  | Some (JsonStr u) =>
      if truthy (JsonStr u) then ret u
      else _ ← writeLibraryUuid h (randomUUID h); ret (randomUUID h)
  | Some j =>
      if truthy j then unmodelled
      else _ ← writeLibraryUuid h (randomUUID h); ret (randomUUID h)
  | None => _ ← writeLibraryUuid h (randomUUID h); ret (randomUUID h)
  end.

Definition getLibraryIdentifier (h : Host) (useNameAsIdentifier : bool) : string :=
  if useNameAsIdentifier then library_name h else library_path h.

(** [initEagleConfig(plugin)]: [manifest.id ?? manifest.name ?? 'unknown-plugin'] *)
Definition initEagleConfig (manifest_id manifest_name : option string) (w : World)
  : World :=
  {| files := files w;
     _currentPluginId :=
       Some (match manifest_id with
             | Some i => i
             | None => default "unknown-plugin" manifest_name
             end) |}.

(** *** Key generation *)

Definition getConfigFilePath (c : EagleUserConfig) (h : Host) : string :=
  let basePath := getConfigBasePath h in
  match type c with
  | global =>
      if thisPluginOnly c then path_join [basePath; CONFIG_FILES_globalPerPlugin]
      else path_join [basePath; CONFIG_FILES_global]
  | pluginbased => path_join [basePath; CONFIG_FILES_plugin]
  | librarybased => path_join [basePath; CONFIG_FILES_library]
  end.

(** [None] is the [null] key: the scope is the root of the document. *)
Definition getConfigKey (c : EagleUserConfig) (h : Host) : Async (option string) :=
  match type c with
  | global =>
      if thisPluginOnly c
      then pluginId ← getPluginId; ret (Some (sha256 pluginId))
      else ret None
  | pluginbased => pluginId ← getPluginId; ret (Some (sha256 pluginId))
  | librarybased =>
      libId ← (if useLibraryUuid c then getOrCreateLibraryUuid h
               else ret (getLibraryIdentifier h (useLibraryNameAsLibIdentifier c)));
      if thisPluginOnly c
      then pluginId ← getPluginId; ret (Some (sha256 (libId +:+ pluginId)))
      else ret (Some (sha256 libId))
  end.

(** *** Property access on a parsed document

    What an object inherits from [Object.prototype] under one of these
    names is a function or an accessor, and no JSON value: reading and
    writing such a name is left out, as are arrays and strings used as
    objects.  [in] sees the names an object inherits beside its own. *)
Definition inherited (k : string) : bool :=
  existsb (String.eqb k)
    ["constructor"; "__proto__"; "hasOwnProperty"; "isPrototypeOf";
     "propertyIsEnumerable"; "toLocaleString"; "toString"; "valueOf";
     "__defineGetter__"; "__defineSetter__"; "__lookupGetter__";
     "__lookupSetter__"].

(** [o[k]]; [None] is [undefined]. *)
Definition get_property (o : Json) (k : string) : outcome (option Json) :=
  if inherited k then Unmodelled
  else match o with
       | JsonObj fields => Returns (fields !! k)
       | JsonNull => Throws TypeError
       | _ => Unmodelled
       end.

(** [o[k] = v], in strict mode. *)
Definition set_property (o : Json) (k : string) (v : Json) : outcome Json :=
  if inherited k then Unmodelled
  else match o with
       | JsonObj fields => Returns (JsonObj (<[k := v]> fields))
       | JsonNull | JsonBool _ | JsonNum _ | JsonStr _ => Throws TypeError
       | JsonArr _ => Unmodelled
       end.

(** [k in o] *)
Definition has_property (o : Json) (k : string) : outcome bool :=
  match o with
  | JsonObj fields => Returns (bool_decide (is_Some (fields !! k)) || inherited k)
  | JsonNull | JsonBool _ | JsonNum _ | JsonStr _ => Throws TypeError
  | JsonArr _ => Unmodelled
  end.

(** [delete o[k]], for an object [o]: an own property goes, an inherited
    one stays *)
Definition delete_property (o : Json) (k : string) : outcome Json :=
  match o with
  | JsonObj fields => Returns (JsonObj (delete k fields))
  | _ => Unmodelled
  end.

(** [Object.assign(o, values)]: the fields of [values] win. *)
Definition object_assign (o : Json) (values : gmap string Json) : outcome Json :=
  if bool_decide (set_Exists (fun k => inherited k = true) (dom values)) then Unmodelled
  else match o with
       | JsonObj fields => Returns (JsonObj (values ∪ fields))
       | JsonNull => Throws TypeError
       | JsonBool _ | JsonNum _ => Returns o
       | JsonStr _ | JsonArr _ => Unmodelled
       end.

(** *** Core operations *)

Definition loadFile (c : EagleUserConfig) (h : Host) : Async Json :=
  readJsonFile (getConfigFilePath c h).

Definition saveFile (c : EagleUserConfig) (h : Host) (data : Json) : Async unit :=
  writeJsonFile (getConfigFilePath c h) data.

(** [value ?? {}] *)
Definition or_empty (v : option Json) : Json :=
  match v with
  | None | Some JsonNull => JsonObj ∅
  | Some j => j
  end.

Definition getSection (c : EagleUserConfig) (h : Host) : Async Json :=
  fileData ← loadFile c h;
  key ← getConfigKey c h;
  match key with
  | None => ret fileData
  | Some k => v ← lift (get_property fileData k); ret (or_empty v)
  end.

Definition saveSection (c : EagleUserConfig) (h : Host) (sectionData : Json)
  : Async unit :=
  key ← getConfigKey c h;
  match key with
  | None => saveFile c h sectionData
  | Some k =>
      fileData ← loadFile c h;
      fileData' ← lift (set_property fileData k sectionData);
      saveFile c h fileData'
  end.

(** *** Public API *)

Definition getAll (c : EagleUserConfig) (h : Host) : Async Json := getSection c h.

Definition get (c : EagleUserConfig) (h : Host) (key : string) : Async (option Json) :=
  data ← getSection c h;
  lift (get_property data key).

Definition getOrDefault (c : EagleUserConfig) (h : Host) (key : string)
    (defaultValue : Json) : Async Json :=
  value ← get c h key;
  ret (default defaultValue value).

(** [set], for a [value] that JSON writes as it is.  The values
    [JSON.stringify] drops or rewrites on the way to the file
    ([undefined], a function, [NaN], a [Date]) are not among the
    [Json] values and are left out. *)
Definition set (c : EagleUserConfig) (h : Host) (key : string) (value : Json)
  : Async unit :=
  data ← getSection c h;
  data' ← lift (set_property data key value);
  saveSection c h data'.

Definition setMany (c : EagleUserConfig) (h : Host) (values : gmap string Json)
  : Async unit :=
  data ← getSection c h;
  data' ← lift (object_assign data values);
  saveSection c h data'.

Definition remove (c : EagleUserConfig) (h : Host) (key : string) : Async bool :=
  data ← getSection c h;
  present ← lift (has_property data key);
  if (present : bool) then
    data' ← lift (delete_property data key);
    _ ← saveSection c h data';
    ret true
  else ret false.

Definition has (c : EagleUserConfig) (h : Host) (key : string) : Async bool :=
  data ← getSection c h;
  lift (has_property data key).

Definition clear (c : EagleUserConfig) (h : Host) : Async unit :=
  saveSection c h (JsonObj ∅).

Definition getResolvedKey (c : EagleUserConfig) (h : Host) : Async (option string) :=
  getConfigKey c h.

Definition getFilePath (c : EagleUserConfig) (h : Host) : string :=
  getConfigFilePath c h.

(** *** Factory functions *)

Definition createGlobalConfig : EagleUserConfig :=
  {| type := global; thisPluginOnly := false;
     useLibraryNameAsLibIdentifier := false; useLibraryUuid := false |}.

Definition createPluginGlobalConfig : EagleUserConfig :=
  {| type := global; thisPluginOnly := true;
     useLibraryNameAsLibIdentifier := false; useLibraryUuid := false |}.

Definition createPluginConfig : EagleUserConfig :=
  {| type := pluginbased; thisPluginOnly := false;
     useLibraryNameAsLibIdentifier := false; useLibraryUuid := false |}.

Definition createLibraryConfig (useLibraryName : option bool) : EagleUserConfig :=
  {| type := librarybased; thisPluginOnly := false;
     useLibraryNameAsLibIdentifier := default false useLibraryName;
     useLibraryUuid := false |}.

Definition createLibraryPluginConfig (useLibraryName : option bool) : EagleUserConfig :=
  {| type := librarybased; thisPluginOnly := true;
     useLibraryNameAsLibIdentifier := default false useLibraryName;
     useLibraryUuid := false |}.

Definition createLibraryUuidConfig : EagleUserConfig :=
  {| type := librarybased; thisPluginOnly := false;
     useLibraryNameAsLibIdentifier := false; useLibraryUuid := true |}.

Definition createLibraryUuidPluginConfig : EagleUserConfig :=
  {| type := librarybased; thisPluginOnly := true;
     useLibraryNameAsLibIdentifier := false; useLibraryUuid := true |}.

End Config.

(** ** bareio/core.ts

    The library document is an object graph: [updateLibraryMetadata]
    reads one, clones it and hands the clone to a function that may
    change it in place.  Objects therefore live in a heap and are named
    by their location. *)
Module BareIO.

(** JSON text: the members of an object in the order written. *)
Inductive Doc :=
  | DNull
  | DBool (b : bool)
  | DNum (n : Z)
  | DStr (s : string)
  | DArr (items : list Doc)
  | DObj (members : list (string * Doc)).

Abbreviation loc := nat.

Inductive prim :=
  | PNull
  | PBool (b : bool)
  | PNum (n : Z)
  | PStr (s : string).

Inductive val :=
  | VPrim (p : prim)
  | VRef (l : loc).

Inductive node :=
  | NObj (fields : gmap string val)
  | NArr (items : list val).

Abbreviation heap := (gmap loc node).

Inductive Content :=
  | Parsed (doc : Doc)
  | Unparsable.

Record State := {
  objects : heap;
  files : gmap string Content
}.

(** An [async] method: a completion and the state it leaves. *)
Definition IO (A : Type) := State -> outcome A * State.

#[global] Instance io_bind : MBind IO := fun A B k m st =>
  match m st with
  | (Returns a, st') => k a st'
  | (Throws e, st') => (Throws e, st')
  | (Unmodelled, st') => (Unmodelled, st')
  end.

Definition ret {A} (a : A) : IO A := fun st => (Returns a, st).

(** A new object, at a location no object has. *)
Definition alloc_node (n : node) (h : heap) : heap * val :=
  let l := fresh (dom h) in (<[l := n]> h, VRef l).

(** [JSON.parse]: every array and object of the text becomes a new
    object; of two members with one name the later one stays. *)
Fixpoint parse (d : Doc) (h : heap) : heap * val :=
  match d with
  | DNull => (h, VPrim PNull)
  | DBool b => (h, VPrim (PBool b))
  | DNum n => (h, VPrim (PNum n))
  | DStr s => (h, VPrim (PStr s))
  | DArr items =>
      let '(h1, vs) :=
        (fix parse_items (ds : list Doc) (h : heap) : heap * list val :=
           match ds with
           | [] => (h, [])
           | d :: ds' =>
               let '(h1, v) := parse d h in
               let '(h2, vs) := parse_items ds' h1 in
               (h2, v :: vs)
           end) items h in
      alloc_node (NArr vs) h1
  | DObj members =>
      let '(h1, fields) :=
        (fix parse_members (ms : list (string * Doc)) (h : heap)
             (acc : gmap string val) : heap * gmap string val :=
           match ms with
           | [] => (h, acc)
           | (k, d) :: ms' =>
               let '(h1, v) := parse d h in
               parse_members ms' h1 (<[k := v]> acc)
           end) members h ∅ in
      alloc_node (NObj fields) h1
  end.

(** The values of a list cloned one after the other. *)
Fixpoint clone_all (clone1 : val -> heap -> option (heap * val))
    (vs : list val) (h : heap) : option (heap * list val) :=
  match vs with
  | [] => Some (h, [])
  | v :: vs' =>
      match clone1 v h with
      | Some (h1, v') =>
          match clone_all clone1 vs' h1 with
          | Some (h2, vs'') => Some (h2, v' :: vs'')
          | None => None
          end
      | None => None
      end
  end.

(** [structuredClone] by descent: a primitive is itself, an object is a
    new object whose fields are clones.  The table of objects already
    cloned, which keeps shared and cyclic references, is left out (a
    parsed document is a tree); [fuel] bounds the depth, and [None] is
    fuel run out or a dangling reference. *)
Fixpoint clone (fuel : nat) (v : val) (h : heap) : option (heap * val) :=
  match v with
  | VPrim _ => Some (h, v)
  | VRef l =>
      match fuel with
      | O => None
      | S fuel' =>
          match h !! l with
          | None => None
          | Some (NArr items) =>
              match clone_all (clone fuel') items h with
              | Some (h1, items') => Some (alloc_node (NArr items') h1)
              | None => None
              end
          | Some (NObj fields) =>
              let ms := map_to_list fields in
              match clone_all (clone fuel') ms.*2 h with
              | Some (h1, vs) =>
                  Some (alloc_node (NObj (list_to_map (zip ms.*1 vs))) h1)
              | None => None
              end
          end
      end
  end.

(** No path in the heap is longer than the number of its objects, unless
    it runs in a cycle. *)
Definition structuredClone (v : val) (h : heap) : option (heap * val) :=
  clone (S (size h)) v h.

Definition doc_of_prim (p : prim) : Doc :=
  match p with
  | PNull => DNull
  | PBool b => DBool b
  | PNum n => DNum n
  | PStr s => DStr s
  end.

(** [JSON.stringify]; [None] when the value is circular. *)
Fixpoint stringify (fuel : nat) (h : heap) (v : val) : option Doc :=
  match v with
  | VPrim p => Some (doc_of_prim p)
  | VRef l =>
      match fuel with
      | O => None
      | S fuel' =>
          match h !! l with
          | None => None
          | Some (NArr items) => DArr <$> mapM (stringify fuel' h) items
          | Some (NObj fields) =>
              DObj <$> mapM (fun kv => pair kv.1 <$> stringify fuel' h kv.2)
                            (map_to_list fields)
          end
      end
  end.

(** [UpdateMetadataFn]: given the document it returns the next one, and
    may change objects on the way; [None] when it throws. *)
Definition UpdateMetadataFn := val -> heap -> option (heap * val).

Record BareLibraryCore := { rootPath : string }.

Definition metadataPath (core : BareLibraryCore) : string :=
  Config.path_join [rootPath core; "metadata.json"].

Definition readJson (filePath : string) : IO val := fun st =>
  match files st !! filePath with
  | Some (Parsed d) =>
      let '(h, v) := parse d (objects st) in
      (Returns v, {| objects := h; files := files st |})
  | Some Unparsable => (Throws SyntaxError, st)
  | None => (Throws IOError, st)
  end.

Definition writeJson (filePath : string) (data : val) : IO unit := fun st =>
  match stringify (S (size (objects st))) (objects st) data with
  | Some content =>
      (Returns tt, {| objects := objects st;
                      files := <[filePath := Parsed content]> (files st) |})
  | None => (Throws TypeError, st)
  end.

Definition readLibraryMetadata (core : BareLibraryCore) : IO val :=
  readJson (metadataPath core).

Definition writeLibraryMetadata (core : BareLibraryCore) (metadata : val) : IO unit :=
  writeJson (metadataPath core) metadata.

(** [structuredClone(current)] and [update(...)] as steps on the state *)
Definition do_clone (current : val) : IO val := fun st =>
  match structuredClone current (objects st) with
  | Some (h, v) => (Returns v, {| objects := h; files := files st |})
  | None => (Unmodelled, st)
  end.

Definition call (update : UpdateMetadataFn) (arg : val) : IO val := fun st =>
  match update arg (objects st) with
  | Some (h, v) => (Returns v, {| objects := h; files := files st |})
  | None => (Throws Exception, st)
  end.

Definition updateLibraryMetadata (core : BareLibraryCore) (update : UpdateMetadataFn)
  : IO val :=
  current ← readLibraryMetadata core;
  copy ← do_clone current;
  next ← call update copy;
  _ ← writeLibraryMetadata core next;
  ret next.

(** *** The functions the callers hand to [updateLibraryMetadata]

    Such a function closes over an object the caller was given (the
    [entries], an [entry], a [folder], a [group]) and stores it in the
    document it is called on.  [None] is a throw: a property of [null]
    or of [undefined], an assignment to a primitive in strict mode, a
    [push] that is no function. *)

(** [meta => { meta.quickAccess = entries; return meta; }], of
    [BareQuickAccess.set].  An array takes the property beside its
    items, where [JSON.stringify] does not look. *)
Definition quickAccess_set (entries : val) : UpdateMetadataFn := fun meta h =>
  match meta with
  | VPrim _ => None
  | VRef l =>
      match h !! l with
      | Some (NObj fields) =>
          Some (<[l := NObj (<["quickAccess" := entries]> fields)]> h, meta)
      | Some (NArr _) => Some (h, meta)
      | None => None
      end
  end.

(** [meta => { meta[field].push(x); return meta; }], for a [field] no
    array has of itself. *)
Definition push_onto (field : string) (x : val) : UpdateMetadataFn := fun meta h =>
  match meta with
  | VPrim _ => None
  | VRef l =>
      match h !! l with
      | Some (NObj fields) =>
          match fields !! field with
          | Some (VRef a) =>
              match h !! a with
              | Some (NArr items) => Some (<[a := NArr (items ++ [x])]> h, meta)
              | _ => None
              end
          | _ => None
          end
      | _ => None
      end
  end.

(** [BareQuickAccess.add], [BareTagGroups.add], and [BareFolders.add]
    without a [parentId] *)
Definition quickAccess_add (entry : val) : UpdateMetadataFn := push_onto "quickAccess" entry.
Definition tagsGroups_add (group : val) : UpdateMetadataFn := push_onto "tagsGroups" group.
Definition folders_add (folder : val) : UpdateMetadataFn := push_onto "folders" folder.

(** *** The other paths of a library, and its items *)

Definition tagsPath (core : BareLibraryCore) : string :=
  Config.path_join [rootPath core; "tags.json"].

Definition mtimePath (core : BareLibraryCore) : string :=
  Config.path_join [rootPath core; "mtime.json"].

Definition imagesPath (core : BareLibraryCore) : string :=
  Config.path_join [rootPath core; "images"].

Definition itemInfoDir (core : BareLibraryCore) (id : string) : string :=
  Config.path_join [imagesPath core; id +:+ ".info"].

Definition itemMetadataPath (core : BareLibraryCore) (id : string) : string :=
  Config.path_join [itemInfoDir core id; "metadata.json"].

Definition readTagsIndex (core : BareLibraryCore) : IO val := readJson (tagsPath core).
Definition writeTagsIndex (core : BareLibraryCore) (index : val) : IO unit :=
  writeJson (tagsPath core) index.
Definition readMtimeIndex (core : BareLibraryCore) : IO val := readJson (mtimePath core).
Definition writeMtimeIndex (core : BareLibraryCore) (index : val) : IO unit :=
  writeJson (mtimePath core) index.

(** An entry of a directory, as [fs.readdir] gives it with
    [withFileTypes]. *)
Record Dirent := { name : string; isDirectory : bool }.

(** [name.replace(/\.info$/, '')]: the pattern matches at the end of the
    name and nowhere else. *)
Definition without_info (name : string) : string :=
  if Js.endsWith name ".info"
  then String.substring 0 (String.length name - 5) name
  else name.

(** [listItemIds], on the entries [fs.readdir] resolved to for the
    [images] directory. *)
Definition listItemIds (entries : list Dirent) : list string :=
  List.map (fun entry => without_info (name entry))
    (List.filter (fun entry => isDirectory entry && Js.endsWith (name entry) ".info")
       entries).

End BareIO.

(** ** bareio/folders.ts and bareio/smart-folders.ts

    [BareFolders] and [BareSmartFolders] keep a forest of folders in the
    library document, and have the same two helpers, [findById] and
    [removeById].  A folder is taken by value: its [id], its [children]
    when it has the property, and [data], its other properties, which
    the helpers copy and never look at. *)
Module BareFolders.

Section Forest.
Variable Data : Type.

Inductive Folder :=
  | mkFolder (id : string) (data : Data) (children : option (list Folder)).

Definition folder_id (folder : Folder) : string :=
  match folder with mkFolder id _ _ => id end.

Definition folder_data (folder : Folder) : Data :=
  match folder with mkFolder _ data _ => data end.

Definition folder_children (folder : Folder) : option (list Folder) :=
  match folder with mkFolder _ _ children => children end.

(** [folder.children ?? []] *)
Definition children_or_empty (folder : Folder) : list Folder :=
  match folder_children folder with
  | Some children => children
  | None => []
  end.

(** One round of the loop of [findById]: the folder itself, then the
    search among its children. *)
Fixpoint find_from (id : string) (folder : Folder) : option Folder :=
  match folder with
  | mkFolder fid _ children =>
      if String.eqb fid id then Some folder
      else
        match children with
        | Some cs =>
            (fix find_first (folders : list Folder) : option Folder :=
               match folders with
               | [] => None
               | f :: rest =>
                   match find_from id f with
                   | Some found => Some found
                   | None => find_first rest
                   end
               end) cs
        | None => None
        end
  end.

(** [for (const folder of folders) ...; return undefined] *)
Fixpoint findById (folders : list Folder) (id : string) : option Folder :=
  match folders with
  | [] => None
  | folder :: rest =>
      match find_from id folder with
      | Some found => Some found
      | None => findById rest id
      end
  end.

(** The object [{ ...folder, children: removeById(folder.children ?? [], id) }] *)
Fixpoint without (id : string) (folder : Folder) : Folder :=
  match folder with
  | mkFolder fid data children =>
      mkFolder fid data
        (Some match children with
              | Some cs =>
                  (fix remove_all (folders : list Folder) : list Folder :=
                     match folders with
                     | [] => []
                     | f :: rest =>
                         if negb (String.eqb (folder_id f) id)
                         then without id f :: remove_all rest
                         else remove_all rest
                     end) cs
              | None => []
              end)
  end.

(** [folders.filter(f => f.id !== id).map(f => ({ ...f, children: ... }))] *)
Definition removeById (folders : list Folder) (id : string) : list Folder :=
  List.map (without id)
    (List.filter (fun folder => negb (String.eqb (folder_id folder) id)) folders).

End Forest.

Arguments mkFolder {Data} id data children.
Arguments folder_id {Data} folder.
Arguments folder_data {Data} folder.
Arguments folder_children {Data} folder.
Arguments children_or_empty {Data} folder.
Arguments find_from {Data} id folder.
Arguments findById {Data} folders id.
Arguments without {Data} id folder.
Arguments removeById {Data} folders id.

End BareFolders.

(** ** bareio/tags.ts

    The tag groups of the library document, and the function each
    operation hands to [updateLibraryMetadata].  That function works on
    the clone of the document, a tree no one else holds, so the change
    it makes in place is given as the document it returns; [data] is
    what a group holds besides its [id] and [tags]. *)
Module BareTagGroups.

Section Groups.
Variable Data : Type.

Record TagGroup := {
  group_id : string;
  group_tags : option (list string);       (* [None] when the group has no [tags] *)
  group_data : Data
}.

(** [group.tags ?? []] *)
Definition tags_or_empty (group : TagGroup) : list string :=
  default [] (group_tags group).

Definition with_tags (tags : list string) (group : TagGroup) : TagGroup :=
  {| group_id := group_id group; group_tags := Some tags; group_data := group_data group |}.

(** [Array.from(new Set(values))]: each value once, where it first
    comes. *)
Definition unique (values : list string) : list string :=
  fold_left (fun seen v => if existsb (String.eqb v) seen then seen else seen ++ [v])
            values [].

(** [groups.find(g => g.id === id)] *)
Definition find_group (groups : list TagGroup) (id : string) : option TagGroup :=
  List.find (fun g => String.eqb (group_id g) id) groups.

(** The groups after the group [find_group] gives has been changed in
    place; [None] when there is no such group. *)
Fixpoint change_found (id : string) (change : TagGroup -> TagGroup)
    (groups : list TagGroup) : option (list TagGroup) :=
  match groups with
  | [] => None
  | g :: rest =>
      if String.eqb (group_id g) id then Some (change g :: rest)
      else cons g <$> change_found id change rest
  end.

(** [list] and [getById], on the [tagsGroups] of the document read *)
Definition list_ (tagsGroups : list TagGroup) : list TagGroup := tagsGroups.
Definition getById (tagsGroups : list TagGroup) (id : string) : option TagGroup :=
  find_group tagsGroups id.

(** The update functions of [add], [remove], [addTag] and [removeTag],
    on the [tagsGroups] of the document. *)
Definition add (group : TagGroup) (tagsGroups : list TagGroup)
  : outcome (list TagGroup) :=
  Returns (tagsGroups ++ [group]).

Definition remove (id : string) (tagsGroups : list TagGroup)
  : outcome (list TagGroup) :=
  Returns (List.filter (fun g => negb (String.eqb (group_id g) id)) tagsGroups).

Definition addTag (id tag : string) (tagsGroups : list TagGroup)
  : outcome (list TagGroup) :=
  match change_found id
          (fun group => with_tags (unique (tags_or_empty group ++ [tag])) group)
          tagsGroups with
  | Some groups => Returns groups
  | None => Throws Exception                (* Tag group not found *)
  end.

Definition removeTag (id tag : string) (tagsGroups : list TagGroup)
  : outcome (list TagGroup) :=
  match change_found id
          (fun group =>
             with_tags (List.filter (fun t => negb (String.eqb t tag))
                                    (tags_or_empty group)) group)
          tagsGroups with
  | Some groups => Returns groups
  | None => Throws Exception                (* Tag group not found *)
  end.

End Groups.

Arguments group_id {Data} _.
Arguments group_tags {Data} _.
Arguments group_data {Data} _.
Arguments tags_or_empty {Data} group.
Arguments with_tags {Data} tags group.
Arguments find_group {Data} groups id.
Arguments change_found {Data} id change groups.
Arguments list_ {Data} tagsGroups.
Arguments getById {Data} tagsGroups id.
Arguments add {Data} group tagsGroups.
Arguments remove {Data} id tagsGroups.
Arguments addTag {Data} id tag tagsGroups.
Arguments removeTag {Data} id tag tagsGroups.

End BareTagGroups.

(* ===================================================================== *)
(** * Properties *)
(* ===================================================================== *)

(** ** The filter evaluator *)
Module FilterProps.
Import Js Filter.

(** The type precondition of a method, on the item's value [v] and the
    rule's value [r], as the evaluator contract words it. *)
Definition precondition_fails (m : FilterMethod) (v r : JsVal) : bool :=
  match m with
  | contains | notContains | startsWith | endsWith | matches =>
      match typeof v with TString => false | _ => true end
  | gt | gte | lt | lte =>
      match typeof v with TNumber => false | _ => true end
  | between =>
      match typeof v with TNumber => negb (isArray r) | _ => true end
  | includesAny | includesAll | excludesAny | excludesAll =>
      negb (isArray v) || negb (isArray r)
  | UnknownMethod _ => true
  | is_ | isNot | isEmpty | isNotEmpty => false
  end.

Definition rule_of (p : FilterProperty) (m : FilterMethod) (r : JsVal) : FilterRule :=
  {| property := p; method := m; value := r |}.

(** An item with one field set, the others [undefined]. *)
Definition item_with (p : FilterProperty) (v : JsVal) : FilterableItem :=
  fun q => match p, q with
           | id, id | name, name | ext, ext | url, url
           | annotation, annotation | tags, tags | folders, folders
           | star, star | width, width | height, height | size, size
           | importedAt, importedAt | modifiedAt, modifiedAt
           | isDeleted, isDeleted => v
           | _, _ => JUndefined
           end.

Lemma filterItems_keeps_all (items : list FilterableItem) (m : MatchMode) :
  filterItems items {| conditions := []; fmatch := m |} = Returns items.
Proof.
  induction items as [| item items IH]; [reflexivity |].
  cbn [filterItems]. change (matchesFilter item {| conditions := []; fmatch := m |})
    with (Returns true : outcome bool).
  cbn. now rewrite IH.
Qed.

Lemma rule_less_condition_matches (item : FilterableItem) (c : FilterCondition) :
  rules c = [] -> matchesCondition item c = Returns true.
Proof. intros Hc. unfold matchesCondition. now rewrite Hc. Qed.

Lemma rule_less_conditions_match (item : FilterableItem) (cs : list FilterCondition) :
  Forall (fun c => rules c = []) cs ->
  traverse (matchesCondition item) cs = Returns (List.map (fun _ => true) cs).
Proof.
  induction 1 as [| c cs Hc _ IH]; [reflexivity |].
  cbn [traverse List.map]. rewrite (rule_less_condition_matches item c Hc), IH.
  reflexivity.
Qed.

Lemma combine_all_true (m : MatchMode) (cs : list FilterCondition) :
  cs <> [] -> combine m (List.map (fun _ => true) cs) = true.
Proof.
  intros Hne. destruct m; cbn.
  - induction cs as [| c cs IH]; [reflexivity |]. cbn. destruct cs; [reflexivity |].
    apply IH. discriminate.
  - destruct cs; [contradiction | reflexivity].
Qed.

Lemma rule_less_filter_matches (item : FilterableItem) (m : MatchMode)
    (cs : list FilterCondition) :
  Forall (fun c => rules c = []) cs ->
  matchesFilter item {| conditions := cs; fmatch := m |} = Returns true.
Proof.
  intros Hcs. unfold matchesFilter. cbn [conditions fmatch].
  destruct cs as [| c cs]; [reflexivity |].
  cbn [length Nat.eqb]. rewrite (rule_less_conditions_match item _ Hcs).
  cbn [mbind outcome_bind]. f_equal. apply combine_all_true. discriminate.
Qed.

(** [C3] A filter with no conditions matches every item, and a condition
    with no rules matches every item, whichever match mode it carries;
    so does a filter all of whose conditions are without rules, and
    [filterItems] with no conditions keeps every item. *)
Theorem empty_matches_everything :
  forall (item : FilterableItem) (m : MatchMode),
    matchesFilter item {| conditions := []; fmatch := m |} = Returns true
    /\ matchesCondition item {| rules := []; cmatch := m |} = Returns true
    /\ (forall cs, Forall (fun c => rules c = []) cs ->
                   matchesFilter item {| conditions := cs; fmatch := m |} = Returns true)
    /\ (forall items, filterItems items {| conditions := []; fmatch := m |}
                      = Returns items).
Proof.
  intros item m. split; [reflexivity |]. split; [reflexivity |]. split.
  - intros cs. apply rule_less_filter_matches.
  - intros items. apply filterItems_keeps_all.
Qed.

(** Without the early return an empty disjunction would be false: the
    guard on the length is what makes [OR] agree with the contract. *)
Lemma empty_or_needs_guard : combine OR [] = false.
Proof. reflexivity. Qed.

(** [C4] When the type precondition of the rule's method fails on the
    item's value, the rule evaluates to [false]: it returns, it does not
    throw, and no operand is coerced.  An unknown method is [false]. *)
Theorem mismatch_is_false :
  forall (item : FilterableItem) (rule : FilterRule),
    precondition_fails (method rule) (item (property rule)) (value rule) = true ->
    matchesRule item rule = Returns false.
Proof.
  intros item [p m r]. unfold matchesRule. cbn [property method value].
  destruct m; cbn [precondition_fails]; intros H; try discriminate H; try reflexivity;
    destruct (item p) eqn:Ev; cbn in H; try discriminate H; try reflexivity;
    destruct r; cbn in H; try discriminate H; reflexivity.
Qed.

Lemma mismatch_is_false_witness :
  matchesRule (item_with star (JStr "5")) (rule_of star gte (JNum 4)) = Returns false
  /\ matchesRule (item_with name (JNum 7)) (rule_of name matches (JStr "(")) = Returns false
  /\ matchesRule (item_with tags (JStr "photo")) (rule_of tags includesAny (JArr 0 [JStr "photo"]))
     = Returns false.
Proof.
  split; [| split]; apply mismatch_is_false; reflexivity.
Defined.

(** [C6] A method and its dual never both hold: when [is], [contains] or
    [isEmpty] returns [true] on an item value and a rule value, [isNot],
    [notContains] or [isNotEmpty] returns [false] on the same pair. *)
Theorem dual_methods_exclusive :
  forall (item : FilterableItem) (p : FilterProperty) (r : JsVal),
    (matchesRule item (rule_of p is_ r) = Returns true ->
     matchesRule item (rule_of p isNot r) = Returns false)
    /\ (matchesRule item (rule_of p contains r) = Returns true ->
        matchesRule item (rule_of p notContains r) = Returns false)
    /\ (matchesRule item (rule_of p isEmpty r) = Returns true ->
        matchesRule item (rule_of p isNotEmpty r) = Returns false).
Proof.
  intros item p r. unfold matchesRule, rule_of. cbn [property method value].
  repeat split.
  - intros H. injection H as ->. reflexivity.
  - destruct (item p); try discriminate.
    intros H. injection H as ->. reflexivity.
  - intros H. injection H as ->. reflexivity.
Qed.

Lemma dual_methods_exclusive_witness :
  matchesRule (item_with ext (JStr "png")) (rule_of ext isNot (JStr "png")) = Returns false
  /\ matchesRule (item_with name (JStr "holiday")) (rule_of name notContains (JStr "lid"))
     = Returns false
  /\ matchesRule (item_with tags (JArr 1 [])) (rule_of tags isNotEmpty JUndefined)
     = Returns false.
Proof.
  split; [| split].
  - apply (proj1 (dual_methods_exclusive _ _ _)). reflexivity.
  - apply (proj1 (proj2 (dual_methods_exclusive _ _ _))). reflexivity.
  - apply (proj2 (proj2 (dual_methods_exclusive _ _ _))). reflexivity.
Defined.

(** *** The [matches] method *)

Lemma upper_idempotent (c : ascii) : Regex.upper (Regex.upper c) = Regex.upper c.
Proof. destruct c as [[] [] [] [] [] [] [] []]; reflexivity. Qed.

Lemma upper_line_terminator (c : ascii) :
  Regex.is_line_terminator (Regex.upper c) = Regex.is_line_terminator c.
Proof. destruct c as [[] [] [] [] [] [] [] []]; reflexivity. Qed.

Lemma upper_is_ascii (c : ascii) : Regex.is_ascii (Regex.upper c) = Regex.is_ascii c.
Proof. destruct c as [[] [] [] [] [] [] [] []]; reflexivity. Qed.

Lemma star_ends_ext (f g : nat -> list nat) :
  (forall i, f i = g i) ->
  forall fuel i, Regex.star_ends f fuel i = Regex.star_ends g fuel i.
Proof.
  intros Hfg fuel. induction fuel as [| fuel IH]; intros i; cbn.
  - reflexivity.
  - rewrite Hfg. f_equal. apply flat_map_ext. exact IH.
Qed.

(** With the [i] flag the matcher only ever looks at the upper-case form
    of the subject. *)
Lemma ends_fold_subject (cs : list ascii) (r : Regex.regex) :
  forall i, Regex.ends true cs r i = Regex.ends true (List.map Regex.upper cs) r i.
Proof.
  induction r as [| c | | | | r1 IH1 r2 IH2 | r1 IH1 r2 IH2 | r IH]; intros i; cbn.
  - reflexivity.
  - rewrite nth_error_map. destruct (nth_error cs i) as [x |]; cbn; [| reflexivity].
    unfold Regex.canon. now rewrite upper_idempotent.
  - rewrite nth_error_map. destruct (nth_error cs i) as [x |]; cbn; [| reflexivity].
    now rewrite upper_line_terminator.
  - reflexivity.
  - now rewrite length_map.
  - rewrite IH1. apply flat_map_ext. exact IH2.
  - now rewrite IH1, IH2.
  - rewrite length_map. apply star_ends_ext. exact IH.
Qed.

Lemma existsb_pointwise {A} (f g : A -> bool) (xs : list A) :
  (forall x, f x = g x) -> existsb f xs = existsb g xs.
Proof.
  intros Hfg. induction xs as [| x xs IH]; cbn; [reflexivity |].
  now rewrite Hfg, IH.
Qed.

Lemma search_fold_subject (cs : list ascii) (r : Regex.regex) :
  Regex.search true cs r = Regex.search true (List.map Regex.upper cs) r.
Proof.
  unfold Regex.search. rewrite length_map.
  apply existsb_pointwise. intros i. now rewrite ends_fold_subject.
Qed.

Lemma forallb_is_ascii_fold (cs : list ascii) :
  forallb Regex.is_ascii (List.map Regex.upper cs) = forallb Regex.is_ascii cs.
Proof.
  induction cs as [| c cs IH]; cbn [List.map forallb]; [reflexivity |].
  now rewrite upper_is_ascii, IH.
Qed.

(** Two strings that differ only by the case of their letters *)
Definition same_up_to_case (s t : string) : Prop :=
  List.map Regex.upper (list_ascii_of_string s)
  = List.map Regex.upper (list_ascii_of_string t).

Lemma test_case_insensitive (re : Regex.RegExp) (s t : string) :
  Regex.ignore_case re = true ->
  same_up_to_case s t ->
  Regex.test re s = Regex.test re t.
Proof.
  intros Hic Hst. unfold Regex.test. rewrite Hic.
  rewrite <- (forallb_is_ascii_fold (list_ascii_of_string s)).
  rewrite <- (forallb_is_ascii_fold (list_ascii_of_string t)).
  rewrite (search_fold_subject (list_ascii_of_string s)).
  rewrite (search_fold_subject (list_ascii_of_string t)).
  unfold same_up_to_case in Hst. now rewrite Hst.
Qed.

Lemma RegExp_new_i_ignores_case (pattern : string) (re : Regex.RegExp) :
  Regex.RegExp_new pattern "i" = Regex.Compiled re ->
  Regex.ignore_case re = true /\ Regex.source re = pattern.
Proof.
  unfold Regex.RegExp_new. cbn.
  destruct (Regex.parse pattern); intros H; try discriminate H.
  injection H as <-. split; reflexivity.
Qed.

(** [new ItemFilterBuilder().where(p).matches(arg).build()] *)
Definition where_matches (p : FilterProperty) (arg : RegExpOrString) : ItemFilter :=
  let (b, rb) := where_ p new_builder in
  build (Rule.matches rb arg b).

Definition wallpaper : FilterableItem := item_with name (JStr "Wallpaper_01.png").

Definition stored_pattern (arg : RegExpOrString) : string :=
  match arg with
  | OfRegExp re => Regex.source re
  | OfString pattern => pattern
  end.

Lemma where_matches_built (p : FilterProperty) (arg : RegExpOrString) :
  where_matches p arg
  = {| conditions :=
         [{| rules := [rule_of p matches (JStr (stored_pattern arg))]; cmatch := AND |}];
       fmatch := AND |}.
Proof. destruct arg; reflexivity. Qed.

(** [C5] [matches] takes a compiled regex or a pattern string and stores
    a pattern string, the regex's [source] in the first case, so the
    flags of a compiled regex are not kept; evaluation compiles the
    stored pattern with the [i] flag, so the outcome on two subjects
    that differ only by letter case is the same.  On the item named
    ["Wallpaper_01.png"]: [wallpaper] and [^wall] match, [^paper] does
    not, also when [wallpaper] arrives as a case-sensitive regex. *)
Theorem matches_stores_source_and_ignores_case :
  (forall (p : FilterProperty) (arg : RegExpOrString),
      where_matches p arg
      = {| conditions :=
             [{| rules := [rule_of p matches (JStr (stored_pattern arg))];
                 cmatch := AND |}];
           fmatch := AND |})
  /\ (forall (p : FilterProperty) (re1 re2 : Regex.RegExp),
         Regex.source re1 = Regex.source re2 ->
         where_matches p (OfRegExp re1) = where_matches p (OfRegExp re2))
  /\ (forall (item1 item2 : FilterableItem) (p : FilterProperty) (r : JsVal)
             (s t : string),
         item1 p = JStr s -> item2 p = JStr t -> same_up_to_case s t ->
         matchesRule item1 (rule_of p matches r) = matchesRule item2 (rule_of p matches r))
  /\ matchesFilter wallpaper (where_matches name (OfString "wallpaper")) = Returns true
  /\ matchesFilter wallpaper (where_matches name (OfString "^wall")) = Returns true
  /\ matchesFilter wallpaper (where_matches name (OfString "^paper")) = Returns false
  /\ matchesFilter wallpaper
       (where_matches name
          (OfRegExp {| Regex.source := "wallpaper"; Regex.ignore_case := false;
                       Regex.program := Regex.Empty |}))
     = Returns true.
Proof.
  split; [| split; [| split]].
  - exact where_matches_built.
  - intros p re1 re2 Hsrc. rewrite !where_matches_built. cbn [stored_pattern].
    now rewrite Hsrc.
  - intros item1 item2 p r s t H1 H2 Hst.
    unfold matchesRule, rule_of. cbn [property method value]. rewrite H1, H2.
    destruct (Regex.RegExp_new (ToString r) "i") as [re | |] eqn:Hre; try reflexivity.
    apply RegExp_new_i_ignores_case in Hre as [Hic _].
    now apply test_case_insensitive.
  - repeat split; vm_compute; reflexivity.
Qed.

(** [C10] [matchesRule] is not total on [matches]: when the item's value
    is a string and the rule's value, as a string, is not a pattern
    [new RegExp] accepts, the call throws a [SyntaxError] where the other
    mismatches return [false]; ["("] is such a value. *)
Theorem matches_throws_on_invalid_pattern :
  (forall (item : FilterableItem) (p : FilterProperty) (s : string) (r : JsVal),
      item p = JStr s ->
      Regex.RegExp_new (ToString r) "i" = Regex.Invalid ->
      matchesRule item (rule_of p matches r) = Throws SyntaxError)
  /\ Regex.RegExp_new (ToString (JStr "(")) "i" = Regex.Invalid
  /\ matchesRule wallpaper (rule_of name matches (JStr "(")) = Throws SyntaxError.
Proof.
  split; [| split].
  - intros item p s r Hv Hre. unfold matchesRule, rule_of.
    cbn [property method value]. now rewrite Hv, Hre.
  - reflexivity.
  - reflexivity.
Qed.

End FilterProps.

(** ** The subscription manager *)
Module SubscribeProps.
Import Subscribe.

(** A step fired no change event: it made no effect, or only logged. *)
Definition is_log (e : Effect) : bool :=
  match e with Logged _ => true | _ => false end.
Definition no_change_event (es : list Effect) : bool := forallb is_log es.

Lemma resetChildWatchers_clears (m : SubscriptionManager) :
  let m' := resetChildWatchers m in
  previous (itemWatchers m') = None
  /\ previous (folderWatchers m') = None
  /\ configPrevious m' = None
  /\ libraryFolderPrevious m' = None.
Proof. repeat split. Qed.

(** A tick that finds no previous value adopts what it observes and
    fires nothing. *)
Lemma item_tick_rebaselines (m : SubscriptionManager) (sel : option (list PlainItem)) (now : Z) :
  previous (itemWatchers m) = None ->
  no_change_event (snd (checkItemChange sel now m)) = true
  /\ forall current, sel = Some current ->
       checkItemChange sel now m
       = (with_itemWatchers {| entries := entries (itemWatchers m);
                               timerId := timerId (itemWatchers m);
                               previous := Some current |} m, []).
Proof.
  intros Hprev. destruct sel as [current |]; cbn.
  - rewrite Hprev. split; [reflexivity |]. intros ? [= <-]. reflexivity.
  - split; [reflexivity | discriminate].
Qed.

Lemma folder_tick_rebaselines (m : SubscriptionManager) (sel : option (list PlainFolder)) (now : Z) :
  previous (folderWatchers m) = None ->
  no_change_event (snd (checkFolderChange sel now m)) = true
  /\ forall current, sel = Some current ->
       checkFolderChange sel now m
       = (with_folderWatchers {| entries := entries (folderWatchers m);
                                 timerId := timerId (folderWatchers m);
                                 previous := Some current |} m, []).
Proof.
  intros Hprev. destruct sel as [current |]; cbn.
  - rewrite Hprev. split; [reflexivity |]. intros ? [= <-]. reflexivity.
  - split; [reflexivity | discriminate].
Qed.

Lemma config_tick_rebaselines (m : SubscriptionManager) (stat : option Z) (now : Z) :
  configPrevious m = None ->
  no_change_event (snd (checkConfigChange stat now m)) = true
  /\ forall t, stat = Some t ->
       checkConfigChange stat now m
       = (with_config (Some {| mtime := t |}) (configEntries m) (configTimerId m) m, []).
Proof.
  intros Hprev. destruct stat as [t |]; cbn.
  - rewrite Hprev. split; [reflexivity |]. intros ? [= <-]. reflexivity.
  - split; [reflexivity | discriminate].
Qed.

Lemma libraryFolder_tick_rebaselines (m : SubscriptionManager) (stat : option Z) (now : Z) :
  libraryFolderPrevious m = None ->
  no_change_event (snd (checkLibraryFolderChange stat now m)) = true
  /\ forall t, stat = Some t ->
       checkLibraryFolderChange stat now m
       = (with_libraryFolder (Some {| mtime := t |}) (libraryFolderEntries m)
                             (libraryFolderTimerId m) m, []).
Proof.
  intros Hprev. destruct stat as [t |]; cbn.
  - rewrite Hprev. split; [reflexivity |]. intros ? [= <-]. reflexivity.
  - split; [reflexivity | discriminate].
Qed.

(** [C1] When the library poller sees the path change, it invokes every
    library callback with the old and the new state, clears the cached
    previous value of the four child pollers and leaves their
    subscribers and timers alone; whatever a child poller observes at its
    next tick, it fires no change event, and what it observed becomes
    its baseline. *)
Theorem library_switch_cascades :
  forall (m : SubscriptionManager) (prev current : LibraryState) (now : Z),
    libraryState m = Some prev ->
    path current <> path prev ->
    let m' := fst (checkLibraryChange current now m) in
    snd (checkLibraryChange current now m)
    = List.map (fun cb => LibraryChanged cb {| ev_previous := prev;
                                               ev_current := current;
                                               timestamp := now |})
               (libraryCallbacks m)
    /\ libraryState m' = Some current
    /\ (previous (itemWatchers m') = None
        /\ previous (folderWatchers m') = None
        /\ configPrevious m' = None
        /\ libraryFolderPrevious m' = None)
    /\ (entries (itemWatchers m') = entries (itemWatchers m)
        /\ timerId (itemWatchers m') = timerId (itemWatchers m)
        /\ entries (folderWatchers m') = entries (folderWatchers m)
        /\ timerId (folderWatchers m') = timerId (folderWatchers m)
        /\ configEntries m' = configEntries m
        /\ configTimerId m' = configTimerId m
        /\ libraryFolderEntries m' = libraryFolderEntries m
        /\ libraryFolderTimerId m' = libraryFolderTimerId m)
    /\ (forall sel t,
           no_change_event (snd (checkItemChange sel t m')) = true
           /\ forall current', sel = Some current' ->
                snd (checkItemChange sel t m') = []
                /\ previous (itemWatchers (fst (checkItemChange sel t m'))) = Some current')
    /\ (forall sel t,
           no_change_event (snd (checkFolderChange sel t m')) = true
           /\ forall current', sel = Some current' ->
                snd (checkFolderChange sel t m') = []
                /\ previous (folderWatchers (fst (checkFolderChange sel t m'))) = Some current')
    /\ (forall stat t,
           no_change_event (snd (checkConfigChange stat t m')) = true
           /\ forall mt, stat = Some mt ->
                snd (checkConfigChange stat t m') = []
                /\ configPrevious (fst (checkConfigChange stat t m')) = Some {| mtime := mt |})
    /\ (forall stat t,
           no_change_event (snd (checkLibraryFolderChange stat t m')) = true
           /\ forall mt, stat = Some mt ->
                snd (checkLibraryFolderChange stat t m') = []
                /\ libraryFolderPrevious (fst (checkLibraryFolderChange stat t m'))
                   = Some {| mtime := mt |}).
Proof.
  intros m prev current now Hstate Hpath m'.
  assert (Hneq : negb (String.eqb (path current) (path prev)) = true).
  { apply negb_true_iff. now apply String.eqb_neq. }
  assert (Hstep : checkLibraryChange current now m
                  = (with_library (Some current) (libraryTimerId m) (libraryCallbacks m)
                       (resetChildWatchers m),
                     List.map (fun cb => LibraryChanged cb {| ev_previous := prev;
                                                              ev_current := current;
                                                              timestamp := now |})
                              (libraryCallbacks m))).
  { unfold checkLibraryChange. rewrite Hstate, Hneq. reflexivity. }
  subst m'. rewrite Hstep. cbn [fst snd].
  split; [reflexivity |]. split; [reflexivity |].
  split; [repeat split |]. split; [repeat split |].
  split; [| split; [| split]].
  - intros sel t.
    destruct (item_tick_rebaselines
                (with_library (Some current) (libraryTimerId m) (libraryCallbacks m)
                   (resetChildWatchers m)) sel t eq_refl) as [Hno Hbase].
    split; [exact Hno |]. intros c Hc. rewrite (Hbase c Hc). split; reflexivity.
  - intros sel t.
    destruct (folder_tick_rebaselines
                (with_library (Some current) (libraryTimerId m) (libraryCallbacks m)
                   (resetChildWatchers m)) sel t eq_refl) as [Hno Hbase].
    split; [exact Hno |]. intros c Hc. rewrite (Hbase c Hc). split; reflexivity.
  - intros stat t.
    destruct (config_tick_rebaselines
                (with_library (Some current) (libraryTimerId m) (libraryCallbacks m)
                   (resetChildWatchers m)) stat t eq_refl) as [Hno Hbase].
    split; [exact Hno |]. intros c Hc. rewrite (Hbase c Hc). split; reflexivity.
  - intros stat t.
    destruct (libraryFolder_tick_rebaselines
                (with_library (Some current) (libraryTimerId m) (libraryCallbacks m)
                   (resetChildWatchers m)) stat t eq_refl) as [Hno Hbase].
    split; [exact Hno |]. intros c Hc. rewrite (Hbase c Hc). split; reflexivity.
Qed.

(** *** A library switch with selection subscribers active *)

Definition libA : LibraryState := {| path := "/libs/A.library"; lib_name := "A" |}.
Definition libB : LibraryState := {| path := "/libs/B.library"; lib_name := "B" |}.

Definition no_options : SubscribeOptions :=
  {| opt_interval := None; opt_maxEqualLookups := None |}.
Definition every (ms : Z) : SubscribeOptions :=
  {| opt_interval := Some ms; opt_maxEqualLookups := None |}.

Definition photo : PlainItem := {| item_id := "I1"; item_name := "photo" |}.
Definition scan : PlainItem := {| item_id := "I9"; item_name := "scan" |}.
Definition album : PlainFolder := {| folder_id := "F1"; folder_name := "album" |}.

(** One library subscriber, one item subscriber and one folder
    subscriber, each selection poller past its first tick in library A. *)
Definition watching : SubscriptionManager :=
  let m := subscribeLibrary 7 libA initial in
  let m := fst (fst (subscribeItems 1 no_options libA m)) in
  let m := fst (checkItemChange (Some [photo]) 10 m) in
  let m := fst (fst (subscribeFolders 2 no_options libA m)) in
  fst (checkFolderChange (Some [album]) 11 m).

Lemma library_switch_cascades_witness :
  libraryState watching = Some libA
  /\ snd (checkLibraryChange libB 1000 watching)
     = [LibraryChanged 7 {| ev_previous := libA; ev_current := libB; timestamp := 1000 |}]
  /\ snd (checkItemChange (Some [scan]) 1200 (fst (checkLibraryChange libB 1000 watching)))
     = []
  /\ previous (itemWatchers
                 (fst (checkItemChange (Some [scan]) 1200
                         (fst (checkLibraryChange libB 1000 watching)))))
     = Some [scan].
Proof.
  assert (Hne : path libB <> path libA) by discriminate.
  pose proof (library_switch_cascades watching libA libB 1000 eq_refl Hne) as H.
  cbv zeta in H.
  destruct H as (Hfired & _ & _ & _ & Hitems & _).
  destruct (Hitems (Some [scan]) 1200) as [_ Hbase].
  destruct (Hbase [scan] eq_refl) as [Hnone Hprev].
  split; [reflexivity |]. split; [exact Hfired |]. split; [exact Hnone | exact Hprev].
Defined.

(** A tick that comes before the reset fires: the selection of library
    B is compared with the one remembered from library A. *)
Lemma tick_without_reset_fires :
  snd (checkItemChange (Some [scan]) 1200 watching)
  = [ItemsChanged 1 {| ev_previous := [photo]; ev_current := [scan]; timestamp := 1200 |}].
Proof. reflexivity. Qed.

(** *** The interval of a shared poller *)

(** The least interval requested by the subscribers, as the subscription
    options are worded. *)
Definition min_requested (es : list WatcherEntry) : option Z :=
  match es with
  | [] => None
  | e :: es' => Some (fold_left Z.min (List.map interval es') (interval e))
  end.

Definition two_item_subscribers : SubscriptionManager :=
  let m := fst (fst (subscribeItems 1 (every 500) libA initial)) in
  fst (fst (subscribeItems 2 (every 100) libA m)).

Definition two_folder_subscribers : SubscriptionManager :=
  let m := fst (fst (subscribeFolders 1 (every 500) libA initial)) in
  fst (fst (subscribeFolders 2 (every 100) libA m)).

(** [C2] The poller does not run at the least interval asked for once
    a subscriber joins it.  A second subscriber asking for 100 ms joins
    the item poller a first one started at 500 ms: [ensureItemWatcher]
    returns at once on a poller whose timer runs, [getMinInterval] is
    not evaluated again, and the timer stays at 500 ms, above the least
    interval asked, 100 ms.  The folder poller does the same. *)
Lemma later_subscriber_does_not_lower_interval :
  timerId (itemWatchers two_item_subscribers) = Some 500
  /\ min_requested (entries (itemWatchers two_item_subscribers)) = Some 100
  /\ timerId (itemWatchers two_item_subscribers)
     <> min_requested (entries (itemWatchers two_item_subscribers))
  /\ timerId (folderWatchers two_folder_subscribers) = Some 500
  /\ min_requested (entries (folderWatchers two_folder_subscribers)) = Some 100
  /\ timerId (folderWatchers two_folder_subscribers)
     <> min_requested (entries (folderWatchers two_folder_subscribers)).
Proof.
  split; [reflexivity |]. split; [reflexivity |]. split; [discriminate |].
  split; [reflexivity |]. split; [reflexivity | discriminate].
Qed.

(** A lone subscriber asking for 1000 ms is polled every 500 ms. *)
Lemma long_interval_is_capped :
  timerId (itemWatchers (fst (fst (subscribeItems 1 (every 1000) libA initial))))
  = Some 500.
Proof. reflexivity. Qed.

Lemma getMinInterval_single (e : WatcherEntry) :
  getMinInterval [e] = Z.min 500 (interval e).
Proof.
  unfold getMinInterval. cbn. destruct (Z.ltb_spec (interval e) 500); lia.
Qed.

#[local] Arguments getMinInterval : simpl never.

(** What a subscription does to the timer.  The first subscription to
    an idle selection poller starts its timer at [getMinInterval] of the
    subscribers, the smaller of 500 ms and the interval it asked for,
    and launches a first tick; a subscription to a running poller adds
    the subscriber and neither restarts the timer nor changes its
    interval, whatever it asks for. *)
Theorem interval_is_fixed_when_the_timer_starts :
  forall (m : SubscriptionManager) (cb : Callback) (options : SubscribeOptions)
         (host : LibraryState),
    let requested := default 500 (opt_interval options) in
    let started := subscribeItems cb options host m in
    let startedF := subscribeFolders cb options host m in
    (timerId (itemWatchers m) = None -> entries (itemWatchers m) = [] ->
       timerId (itemWatchers (fst (fst started))) = Some (Z.min 500 requested)
       /\ snd (fst started) = true)
    /\ (forall t, timerId (itemWatchers m) = Some t ->
          timerId (itemWatchers (fst (fst started))) = Some t
          /\ snd (fst started) = false
          /\ List.map interval (entries (itemWatchers (fst (fst started))))
             = List.map interval (entries (itemWatchers m)) ++ [requested])
    /\ (timerId (folderWatchers m) = None -> entries (folderWatchers m) = [] ->
          timerId (folderWatchers (fst (fst startedF))) = Some (Z.min 500 requested)
          /\ snd (fst startedF) = true)
    /\ (forall t, timerId (folderWatchers m) = Some t ->
          timerId (folderWatchers (fst (fst startedF))) = Some t
          /\ snd (fst startedF) = false
          /\ List.map interval (entries (folderWatchers (fst (fst startedF))))
             = List.map interval (entries (folderWatchers m)) ++ [requested]).
Proof.
  intros m cb options host requested started startedF.
  subst started startedF. unfold subscribeItems, subscribeFolders.
  unfold ensureItemWatcher, ensureFolderWatcher, ensureLibraryWatcher.
  repeat split; intros; cbn;
    destruct (libraryTimerId m); cbn;
    repeat match goal with
           | Heq : timerId _ = _ |- _ => rewrite Heq
           | Heq : entries _ = [] |- _ => rewrite Heq
           end; cbn;
    rewrite ?getMinInterval_single, ?map_app; reflexivity.
Qed.

Lemma interval_is_fixed_when_the_timer_starts_witness :
  timerId (itemWatchers (fst (fst (subscribeItems 1 (every 300) libA initial))))
  = Some (Z.min 500 300)
  /\ timerId (itemWatchers
               (fst (fst (subscribeItems 2 (every 100) libA
                            (fst (fst (subscribeItems 1 (every 500) libA initial)))))))
     = Some 500.
Proof.
  split.
  - apply (proj1 (interval_is_fixed_when_the_timer_starts
                    initial 1%nat (every 300) libA)); reflexivity.
  - apply (proj1 (proj2 (interval_is_fixed_when_the_timer_starts
                           (fst (fst (subscribeItems 1 (every 500) libA initial)))
                           2%nat (every 100) libA))).
    reflexivity.
Defined.

End SubscribeProps.

(** ** The scoped config store *)
Module ConfigProps.
Import Config.

(** *** Paths *)

Lemma list_ascii_of_string_app (a b : string) :
  list_ascii_of_string (a +:+ b) = list_ascii_of_string a ++ list_ascii_of_string b.
Proof. induction a as [| c a IH]; simpl; [reflexivity | now rewrite IH]. Qed.

(** The [n]-th character counted from the end of the string. *)
Definition char_from_end (n : nat) (s : string) : option ascii :=
  nth_error (rev (list_ascii_of_string s)) n.

Lemma char_from_end_app (n : nat) (a b : string) :
  (n < String.length b)%nat ->
  char_from_end n (a +:+ b) = char_from_end n b.
Proof.
  intros Hn. unfold char_from_end.
  rewrite list_ascii_of_string_app, rev_app_distr.
  apply nth_error_app1. rewrite length_rev.
  clear a. revert n Hn. induction b as [| c b IH]; cbn; intros n Hn; [lia |].
  destruct n; [lia |]. specialize (IH n). lia.
Qed.

Lemma uuid_path_is_no_config_file (c : EagleUserConfig) (h : Host) :
  getLibraryUuidFilePath h <> getConfigFilePath c h.
Proof.
  intros Heq.
  assert (Hu : char_from_end 5 (getLibraryUuidFilePath h) = Some "d"%char).
  { unfold getLibraryUuidFilePath, path_join, LIBRARY_UUID_FILENAME.
    cbn [Js.join].
    now rewrite char_from_end_app by (vm_compute; lia). }
  rewrite Heq in Hu. revert Hu. clear Heq.
  unfold getConfigFilePath, path_join.
  destruct (type c), (thisPluginOnly c); cbn [Js.join];
    (rewrite char_from_end_app by (vm_compute; lia)); discriminate.
Qed.

(** *** Running an [async] function *)

Lemma run_bind {A B} (m : Async A) (k : A -> Async B) (w : World) :
  (m ≫= k) w = match m w with
               | (Returns a, w') => k a w'
               | (Throws e, w') => (Throws e, w')
               | (Unmodelled, w') => (Unmodelled, w')
               end.
Proof. reflexivity. Qed.

(** Two worlds in which [getConfigKey] sees the same things. *)
Definition same_identity (h : Host) (w w' : World) : Prop :=
  _currentPluginId w' = _currentPluginId w
  /\ files w' !! getLibraryUuidFilePath h = files w !! getLibraryUuidFilePath h.

#[local] Arguments getLibraryUuidFilePath : simpl never.
#[local] Arguments getConfigFilePath : simpl never.

(** What [getOrCreateLibraryUuid] does, read off the uuid file: keep the
    stored uuid, or create one. *)
Inductive uuid_action :=
  | Keep (u : string)
  | Create
  | NotModelled.

Definition uuid_action_of (content : option Content) : uuid_action :=
  match content with
  | Some (Parsed (JsonObj fields)) =>
      match fields !! "uuid" with
      | Some (JsonStr u) => if String.eqb u "" then Create else Keep u
      | Some j => if truthy j then NotModelled else Create
      | None => Create
      end
  | Some (Parsed (JsonArr _)) | Some (Parsed (JsonStr _)) => NotModelled
  | _ => Create
  end.

Definition create_uuid (h : Host) (w : World) : World :=
  with_files (<[getLibraryUuidFilePath h :=
                  Parsed (JsonObj {[ "uuid" := JsonStr (randomUUID h) ]})]> (files w)) w.

Lemma getOrCreateLibraryUuid_unfold (h : Host) (w : World) :
  getOrCreateLibraryUuid h w
  = match uuid_action_of (files w !! getLibraryUuidFilePath h) with
    | Keep u => (Returns u, w)
    | Create =>
        if library_writable h then (Returns (randomUUID h), create_uuid h w)
        else (Throws IOError, w)
    | NotModelled => (Unmodelled, w)
    end.
Proof.
  assert (Hcreate : (_ ← writeLibraryUuid h (randomUUID h); ret (randomUUID h)) w
                    = if library_writable h then (Returns (randomUUID h), create_uuid h w)
                      else (Throws IOError, w)).
  { rewrite run_bind. unfold writeLibraryUuid. now destruct (library_writable h). }
  unfold getOrCreateLibraryUuid, uuid_action_of. rewrite run_bind.
  unfold readLibraryUuid.
  destruct (files w !! getLibraryUuidFilePath h) as [[doc |] |]; try exact Hcreate.
  destruct doc as [| b | n | s | elems | fields]; try exact Hcreate; try reflexivity.
  destruct (fields !! "uuid") as [j |]; try exact Hcreate.
  destruct j as [| b | n | s | elems | fields']; try exact Hcreate; try reflexivity.
  - destruct b; [reflexivity | exact Hcreate].
  - cbn [truthy]. destruct (n =? 0); [exact Hcreate | reflexivity].
  - cbn [truthy]. destruct (String.eqb s ""); [exact Hcreate | reflexivity].
Qed.

Lemma uuid_action_after_create (h : Host) (w : World) :
  uuid_action_of (files (create_uuid h w) !! getLibraryUuidFilePath h)
  = if String.eqb (randomUUID h) "" then Create else Keep (randomUUID h).
Proof.
  unfold create_uuid, with_files. cbn [files]. rewrite lookup_insert_eq.
  cbn [uuid_action_of]. rewrite lookup_singleton_eq. reflexivity.
Qed.

(** The key is a function of the plugin id and of the uuid file; resolving
    it changes at most the uuid file, and resolving it again gives the
    same key. *)
Lemma getConfigKey_spec (c : EagleUserConfig) (h : Host) (w : World) :
  let r := getConfigKey c h w in
  _currentPluginId (snd r) = _currentPluginId w
  /\ (forall p, p <> getLibraryUuidFilePath h -> files (snd r) !! p = files w !! p)
  /\ (forall k, fst r = Returns k ->
        forall w2, _currentPluginId w2 = _currentPluginId w ->
                   files w2 !! getLibraryUuidFilePath h
                   = files (snd r) !! getLibraryUuidFilePath h ->
                   fst (getConfigKey c h w2) = Returns k).
Proof.
  cbv zeta. unfold getConfigKey.
  destruct (type c).
  - destruct (thisPluginOnly c); rewrite ?run_bind; cbn.
    + repeat split. intros k [= <-] w2 Hid _. rewrite run_bind. cbn. now rewrite Hid.
    + repeat split. intros k [= <-] w2 _ _. reflexivity.
  - rewrite run_bind; cbn.
    repeat split. intros k [= <-] w2 Hid _. rewrite run_bind. cbn. now rewrite Hid.
  - destruct (useLibraryUuid c).
    + rewrite run_bind, getOrCreateLibraryUuid_unfold.
      destruct (uuid_action_of (files w !! getLibraryUuidFilePath h)) as [u | |] eqn:Hact.
      * destruct (thisPluginOnly c); rewrite ?run_bind; cbn.
        -- repeat split. intros k [= <-] w2 Hid Hw2.
           rewrite run_bind, getOrCreateLibraryUuid_unfold, Hw2, Hact.
           rewrite run_bind. cbn. now rewrite Hid.
        -- repeat split. intros k [= <-] w2 Hid Hw2.
           rewrite run_bind, getOrCreateLibraryUuid_unfold, Hw2, Hact. reflexivity.
      * destruct (library_writable h) eqn:Hwritable;
          [| cbn; repeat split; discriminate].
        destruct (thisPluginOnly c); rewrite ?run_bind; cbn.
        -- split; [reflexivity |]. split.
           { intros p Hp. now rewrite lookup_insert_ne by congruence. }
           intros k [= <-] w2 Hid Hw2.
           rewrite run_bind, getOrCreateLibraryUuid_unfold, Hw2.
           change (<[_ := _]> (files w)) with (files (create_uuid h w)).
           rewrite uuid_action_after_create, Hwritable.
           destruct (String.eqb (randomUUID h) ""); rewrite run_bind; cbn; now rewrite Hid.
        -- split; [reflexivity |]. split.
           { intros p Hp. now rewrite lookup_insert_ne by congruence. }
           intros k [= <-] w2 Hid Hw2.
           rewrite run_bind, getOrCreateLibraryUuid_unfold, Hw2.
           change (<[_ := _]> (files w)) with (files (create_uuid h w)).
           rewrite uuid_action_after_create, Hwritable.
           destruct (String.eqb (randomUUID h) ""); reflexivity.
      * cbn. repeat split. discriminate.
    + rewrite run_bind. cbn.
      destruct (thisPluginOnly c); rewrite ?run_bind; cbn.
      * repeat split. intros k [= <-] w2 Hid _. rewrite !run_bind. cbn.
        rewrite run_bind. cbn. now rewrite Hid.
      * repeat split. intros k [= <-] w2 _ _. reflexivity.
Qed.

(** The document [loadFile] reads in world [w]. *)
Definition loaded (c : EagleUserConfig) (h : Host) (w : World) : Json :=
  match files w !! getConfigFilePath c h with
  | Some (Parsed doc) => doc
  | _ => JsonObj ∅
  end.

(** The config file of the scope loads as an object whose sections
    other than [key] are those of [fields], no more and no less. *)
Definition siblings_kept (c : EagleUserConfig) (h : Host) (key : string)
    (fields : gmap string Json) (w' : World) : Prop :=
  exists fields',
    loaded c h w' = JsonObj fields'
    /\ forall k', k' <> key -> fields' !! k' = fields !! k'.

(** The scope resolves to the section [key] in world [w], where its file
    loads as the object [fields]. *)
Definition keyed_scope (c : EagleUserConfig) (h : Host) (key : string)
    (fields : gmap string Json) (w : World) : Prop :=
  fst (getConfigKey c h w) = Returns (Some key)
  /\ loaded c h w = JsonObj fields.

Lemma keyed_scope_after_key (c : EagleUserConfig) (h : Host) (key : string)
    (fields : gmap string Json) (w : World) :
  keyed_scope c h key fields w ->
  exists w1, getConfigKey c h w = (Returns (Some key), w1)
             /\ keyed_scope c h key fields w1.
Proof.
  intros [Hkey Hfile].
  destruct (getConfigKey_spec c h w) as (Hid & Hfiles & Hstable).
  specialize (Hstable _ Hkey).
  destruct (getConfigKey c h w) as [r w1]. cbn [fst snd] in *. subst r.
  exists w1. split; [reflexivity |]. split.
  - now apply Hstable.
  - unfold loaded in *. rewrite Hfiles; [exact Hfile |].
    intros Heq. now apply (uuid_path_is_no_config_file c h).
Qed.

Lemma loadFile_run (c : EagleUserConfig) (h : Host) (w : World) :
  loadFile c h w
  = (Returns (loaded c h w), w).
Proof.
  unfold loadFile, readJsonFile, loaded.
  destruct (files w !! getConfigFilePath c h) as [[doc |] |]; reflexivity.
Qed.

Lemma saveFile_run (c : EagleUserConfig) (h : Host) (data : Json) (w : World) :
  saveFile c h data w
  = (Returns tt, with_files (<[getConfigFilePath c h := Parsed data]> (files w)) w).
Proof. reflexivity. Qed.

Lemma loaded_after_save (c : EagleUserConfig) (h : Host) (data : Json) (w : World) :
  loaded c h (with_files (<[getConfigFilePath c h := Parsed data]> (files w)) w) = data.
Proof. unfold loaded, with_files. simpl. now rewrite lookup_insert_eq. Qed.

Lemma keyed_scope_siblings (c : EagleUserConfig) (h : Host) (key : string)
    (fields : gmap string Json) (w : World) :
  keyed_scope c h key fields w -> siblings_kept c h key fields w.
Proof. intros [_ Hfile]. exists fields. split; [exact Hfile | reflexivity]. Qed.

(** [saveSection] writes the document it has itself just loaded, with
    the scope's section replaced and nothing else changed, whatever
    [sectionData] is and wherever it came from. *)
Lemma saveSection_frame (c : EagleUserConfig) (h : Host) (sectionData : Json)
    (key : string) (fields : gmap string Json) (w : World) :
  keyed_scope c h key fields w ->
  siblings_kept c h key fields (snd (saveSection c h sectionData w))
  /\ (fst (saveSection c h sectionData w) = Returns tt ->
      loaded c h (snd (saveSection c h sectionData w))
      = JsonObj (<[key := sectionData]> fields)).
Proof.
  intros Hscope.
  destruct (keyed_scope_after_key c h key fields w Hscope) as (w1 & Hrun & _ & Hfile).
  unfold saveSection. rewrite run_bind, Hrun, run_bind, loadFile_run, Hfile, run_bind.
  unfold lift, set_property.
  destruct (inherited key).
  - cbn [fst snd]. split; [| discriminate].
    exists fields. split; [exact Hfile | reflexivity].
  - rewrite saveFile_run. cbn [fst snd]. split.
    + exists (<[key := sectionData]> fields). split; [apply loaded_after_save |].
      intros k' Hk'. now rewrite lookup_insert_ne by congruence.
    + intros _. apply loaded_after_save.
Qed.

(** [getSection] leaves the scope as it found it. *)
Lemma getSection_keeps_scope (c : EagleUserConfig) (h : Host) (key : string)
    (fields : gmap string Json) (w : World) :
  keyed_scope c h key fields w ->
  keyed_scope c h key fields (snd (getSection c h w)).
Proof.
  intros Hscope.
  destruct (keyed_scope_after_key c h key fields w Hscope) as (w1 & Hrun & Hafter).
  unfold getSection. rewrite run_bind, loadFile_run, run_bind, Hrun, run_bind.
  unfold lift.
  match goal with |- context [get_property ?d ?k] => destruct (get_property d k) end;
    exact Hafter.
Qed.

(** On a scope with a section key, whose config file loads as an
    object (a missing file loads as the empty one): [saveSection] loads
    the file again and replaces only the scope's own section in what it
    loaded; so after [set], [setMany], [remove] or [clear], whether it
    returned or threw, every other section key of the file holds the
    value it held before, and no other key has appeared. *)
Lemma siblings_kept_in_every_outcome :
  forall (c : EagleUserConfig) (h : Host) (key : string)
         (fields : gmap string Json) (w : World),
    keyed_scope c h key fields w ->
    (forall sectionData,
        fst (saveSection c h sectionData w) = Returns tt ->
        loaded c h (snd (saveSection c h sectionData w))
        = JsonObj (<[key := sectionData]> fields))
    /\ (forall k v, siblings_kept c h key fields (snd (set c h k v w)))
    /\ (forall values, siblings_kept c h key fields (snd (setMany c h values w)))
    /\ (forall k, siblings_kept c h key fields (snd (remove c h k w)))
    /\ siblings_kept c h key fields (snd (clear c h w)).
Proof.
  intros c h key fields w Hscope.
  pose proof (getSection_keeps_scope c h key fields w Hscope) as Hafter.
  split; [| split; [| split; [| split]]].
  - intros sectionData. now apply saveSection_frame.
  - intros k v. unfold set. rewrite run_bind.
    destruct (getSection c h w) as [[data | e |] w1]; cbn [snd] in Hafter |- *;
      try (now apply keyed_scope_siblings).
    rewrite run_bind. unfold lift.
    destruct (set_property data k v) as [data' | e |]; cbn [snd];
      try (now apply keyed_scope_siblings).
    now apply saveSection_frame.
  - intros values. unfold setMany. rewrite run_bind.
    destruct (getSection c h w) as [[data | e |] w1]; cbn [snd] in Hafter |- *;
      try (now apply keyed_scope_siblings).
    rewrite run_bind. unfold lift.
    destruct (object_assign data values) as [data' | e |]; cbn [snd];
      try (now apply keyed_scope_siblings).
    now apply saveSection_frame.
  - intros k. unfold remove. rewrite run_bind.
    destruct (getSection c h w) as [[data | e |] w1]; cbn [snd] in Hafter |- *;
      try (now apply keyed_scope_siblings).
    rewrite run_bind. unfold lift.
    destruct (has_property data k) as [[|] | e |]; cbn [snd];
      try (now apply keyed_scope_siblings).
    rewrite run_bind.
    destruct (delete_property data k) as [data' | e |]; cbn [snd];
      try (now apply keyed_scope_siblings).
    rewrite run_bind.
    destruct (saveSection_frame c h data' key fields w1 Hafter) as [Hkept _].
    destruct (saveSection c h data' w1) as [[[] | e |] w2]; exact Hkept.
  - unfold clear. now apply saveSection_frame.
Qed.

(** *** Section keys *)

Definition lower_hex (c : ascii) : bool :=
  existsb (Ascii.eqb c) (list_ascii_of_string "0123456789abcdef").

Lemma be_bytes_length (n : nat) (x : Z) : length (Sha256.be_bytes n x) = n.
Proof. induction n as [| n IH]; simpl; [reflexivity | now rewrite IH]. Qed.

Lemma digest_length (msg : list Z) : length (Sha256.digest msg) = 32%nat.
Proof.
  unfold Sha256.digest. cbn [flat_map].
  rewrite !length_app, !be_bytes_length. reflexivity.
Qed.

Lemma hex_digit_lower (d : Z) : lower_hex (Sha256.hex_digit d) = true.
Proof.
  unfold Sha256.hex_digit. generalize (Z.to_nat d) as n. intros n.
  do 16 (destruct n as [| n]; [reflexivity |]).
  destruct n; reflexivity.
Qed.

Lemma hex_length (bytes : list Z) :
  String.length (Sha256.hex bytes) = (2 * length bytes)%nat.
Proof.
  unfold Sha256.hex. induction bytes as [| b bytes IH]; simpl; [reflexivity |].
  rewrite IH. lia.
Qed.

Lemma hex_lower (bytes : list Z) :
  forallb lower_hex (list_ascii_of_string (Sha256.hex bytes)) = true.
Proof.
  unfold Sha256.hex. rewrite list_ascii_of_string_of_list_ascii.
  induction bytes as [| b bytes IH]; [reflexivity |].
  cbn [flat_map app forallb]. now rewrite !hex_digit_lower, IH.
Qed.

Lemma substring_prefix_length (n : nat) (s : string) :
  (n <= String.length s)%nat -> String.length (String.substring 0 n s) = n.
Proof.
  revert s. induction n as [| n IH]; intros s Hn.
  - destruct s; reflexivity.
  - destruct s as [| c s]; simpl in *; [lia |]. rewrite IH; [reflexivity | lia].
Qed.

Lemma substring_prefix_forallb (P : ascii -> bool) (n : nat) (s : string) :
  forallb P (list_ascii_of_string s) = true ->
  forallb P (list_ascii_of_string (String.substring 0 n s)) = true.
Proof.
  revert s. induction n as [| n IH]; intros s Hs.
  - destruct s; reflexivity.
  - destruct s as [| c s]; simpl in *; [reflexivity |].
    apply andb_true_iff in Hs as [Hc Hs]. rewrite Hc. now apply IH.
Qed.

(** A section key is 16 characters long, each a lower-case hex digit. *)
Lemma sha256_format (input : string) :
  String.length (sha256 input) = 16%nat
  /\ forallb lower_hex (list_ascii_of_string (sha256 input)) = true.
Proof.
  unfold sha256, Sha256.sha256_hex. split.
  - apply substring_prefix_length. rewrite hex_length, digest_length. lia.
  - apply substring_prefix_forallb, hex_lower.
Qed.

(** Whatever the scope, a section key is such a hash. *)
Lemma section_key_format (c : EagleUserConfig) (h : Host) (w : World) (key : string) :
  fst (getConfigKey c h w) = Returns (Some key) ->
  exists identifier, key = sha256 identifier.
Proof.
  unfold getConfigKey.
  destruct (type c), (thisPluginOnly c); rewrite ?run_bind; cbn [getPluginId ret fst];
    try (intros [= <-]; eauto); try discriminate.
  - destruct (useLibraryUuid c).
    + destruct (getOrCreateLibraryUuid h w) as [[u | e |] w1]; try discriminate.
      rewrite run_bind. cbn. intros [= <-]. eauto.
    + cbn. rewrite run_bind. cbn. intros [= <-]. eauto.
  - destruct (useLibraryUuid c).
    + destruct (getOrCreateLibraryUuid h w) as [[u | e |] w1]; try discriminate.
      cbn. intros [= <-]. eauto.
    + cbn. intros [= <-]. eauto.
Qed.

(** A section key is none of the names an object inherits. *)
Lemma section_key_not_inherited (c : EagleUserConfig) (h : Host) (w : World)
    (key : string) :
  fst (getConfigKey c h w) = Returns (Some key) -> inherited key = false.
Proof.
  intros Hkey. destruct (section_key_format c h w key Hkey) as [identifier ->].
  destruct (sha256_format identifier) as [_ Hhex].
  destruct (inherited (sha256 identifier)) eqn:Hin; [| reflexivity].
  unfold inherited in Hin. apply existsb_exists in Hin as (name & Hname & Heq).
  apply String.eqb_eq in Heq. rewrite Heq in Hhex. clear Heq.
  simpl in Hname.
  repeat (destruct Hname as [<- | Hname]; [vm_compute in Hhex; discriminate |]).
  destruct Hname.
Qed.

(** *** What [set] writes and what [get] reads *)

Lemma get_property_returns (o : Json) (k : string) (v : option Json) :
  get_property o k = Returns v ->
  inherited k = false /\ exists fields, o = JsonObj fields /\ v = fields !! k.
Proof.
  unfold get_property. destruct (inherited k); [discriminate |].
  destruct o; try discriminate. intros [= <-]. eauto.
Qed.

Lemma set_property_returns (o : Json) (k : string) (v o' : Json) :
  set_property o k v = Returns o' ->
  inherited k = false /\ exists fields, o = JsonObj fields /\ o' = JsonObj (<[k := v]> fields).
Proof.
  unfold set_property. destruct (inherited k); [discriminate |].
  destruct o; try discriminate. intros [= <-]. eauto.
Qed.

(** [set] and [get] once the key is resolved. *)
Lemma set_run (c : EagleUserConfig) (h : Host) (key k : string) (v : Json)
    (w w1 : World) :
  getConfigKey c h w = (Returns (Some key), w1) ->
  set c h k v w
  = match get_property (loaded c h w) key with
    | Returns s =>
        match set_property (or_empty s) k v with
        | Returns data' => saveSection c h data' w1
        | Throws e => (Throws e, w1)
        | Unmodelled => (Unmodelled, w1)
        end
    | Throws e => (Throws e, w1)
    | Unmodelled => (Unmodelled, w1)
    end.
Proof.
  intros Hrun. unfold set, getSection.
  rewrite run_bind, run_bind, loadFile_run. cbv beta iota.
  rewrite run_bind, Hrun. cbv beta iota. rewrite run_bind. unfold lift at 1.
  destruct (get_property (loaded c h w) key) as [s | e |]; reflexivity.
Qed.

Lemma get_run (c : EagleUserConfig) (h : Host) (key k : string) (w w1 : World) :
  getConfigKey c h w = (Returns (Some key), w1) ->
  get c h k w
  = match get_property (loaded c h w) key with
    | Returns s => (get_property (or_empty s) k, w1)
    | Throws e => (Throws e, w1)
    | Unmodelled => (Unmodelled, w1)
    end.
Proof.
  intros Hrun. unfold get, getSection.
  rewrite run_bind, run_bind, loadFile_run. cbv beta iota.
  rewrite run_bind, Hrun. cbv beta iota. rewrite run_bind. unfold lift at 1.
  destruct (get_property (loaded c h w) key) as [s | e |]; reflexivity.
Qed.

Lemma saveSection_run (c : EagleUserConfig) (h : Host) (key : string) (data : Json)
    (w w1 : World) :
  getConfigKey c h w = (Returns (Some key), w1) ->
  saveSection c h data w
  = match set_property (loaded c h w1) key data with
    | Returns doc =>
        (Returns tt, with_files (<[getConfigFilePath c h := Parsed doc]> (files w1)) w1)
    | Throws e => (Throws e, w1)
    | Unmodelled => (Unmodelled, w1)
    end.
Proof.
  intros Hrun. unfold saveSection.
  rewrite run_bind, Hrun. cbv beta iota.
  rewrite run_bind, loadFile_run. cbv beta iota. rewrite run_bind. unfold lift.
  destruct (set_property (loaded c h w1) key data); reflexivity.
Qed.

(** When [set] returns, the file was an object, the scope's section was
    an object or missing, and the file now holds that section with the
    key set, beside the sections it held. *)
Lemma set_returns (c : EagleUserConfig) (h : Host) (key k : string) (v : Json)
    (w : World) :
  fst (getConfigKey c h w) = Returns (Some key) ->
  fst (set c h k v w) = Returns tt ->
  exists fields sec,
    loaded c h w = JsonObj fields
    /\ or_empty (fields !! key) = JsonObj sec
    /\ loaded c h (snd (set c h k v w))
       = JsonObj (<[key := JsonObj (<[k := v]> sec)]> fields)
    /\ inherited k = false /\ inherited key = false
    /\ _currentPluginId (snd (set c h k v w)) = _currentPluginId w.
Proof.
  intros Hkey.
  destruct (getConfigKey_spec c h w) as (Hid & Hfiles & Hstable).
  specialize (Hstable _ Hkey).
  destruct (getConfigKey c h w) as [r w1] eqn:Hrun. cbn [fst snd] in *. subst r.
  rewrite (set_run c h key k v w w1 Hrun).
  destruct (get_property (loaded c h w) key) as [sec0 | e |] eqn:Hget;
    try discriminate.
  apply get_property_returns in Hget as (Hkey_ok & fields & Hdoc & ->).
  destruct (set_property (or_empty (fields !! key)) k v) as [data' | e |] eqn:Hset;
    try discriminate.
  apply set_property_returns in Hset as (Hk_ok & sec & Hsec & ->).
  assert (Hscope1 : keyed_scope c h key fields w1).
  { split; [now apply Hstable |].
    unfold loaded in *. rewrite Hfiles; [exact Hdoc |].
    intros Heq. now apply (uuid_path_is_no_config_file c h). }
  destruct (keyed_scope_after_key c h key fields w1 Hscope1)
    as (w2 & Hrun1 & _ & Hdoc2).
  destruct (getConfigKey_spec c h w1) as (Hid1 & _ & _).
  rewrite Hrun1 in Hid1. cbn [snd] in Hid1.
  rewrite (saveSection_run c h key _ w1 w2 Hrun1), Hdoc2.
  unfold set_property. rewrite Hkey_ok. cbn [fst snd]. intros _.
  exists fields, sec. rewrite loaded_after_save.
  repeat split; try assumption. cbn. congruence.
Qed.

(** [get] reads the key in the scope's section of the file. *)
Lemma get_reads_section (c : EagleUserConfig) (h : Host) (key k : string)
    (fields sec : gmap string Json) (w : World) :
  keyed_scope c h key fields w ->
  fields !! key = Some (JsonObj sec) ->
  inherited key = false -> inherited k = false ->
  fst (get c h k w) = Returns (sec !! k).
Proof.
  intros Hscope Hsec Hkey_ok Hk_ok.
  destruct (keyed_scope_after_key c h key fields w Hscope) as (w1 & Hrun & _).
  destruct Hscope as [_ Hdoc].
  rewrite (get_run c h key k w w1 Hrun), Hdoc.
  unfold get_property at 1. rewrite Hkey_ok, Hsec. cbn [or_empty fst].
  unfold get_property. now rewrite Hk_ok.
Qed.

(** *** Library scopes, with and without the plugin *)

Definition library_plugin_scope : EagleUserConfig := createLibraryPluginConfig None.
Definition library_only_scope : EagleUserConfig := createLibraryConfig None.

Definition plugin_of (w : World) : string :=
  default "unknown-plugin" (_currentPluginId w).

Lemma library_scope_keys (h : Host) (w : World) :
  getConfigKey library_plugin_scope h w
  = (Returns (Some (sha256 (library_path h +:+ plugin_of w))), w)
  /\ getConfigKey library_only_scope h w = (Returns (Some (sha256 (library_path h))), w)
  /\ getConfigFilePath library_plugin_scope h
     = path_join [getConfigBasePath h; "library.json"]
  /\ getConfigFilePath library_only_scope h
     = path_join [getConfigBasePath h; "library.json"].
Proof. repeat split. Qed.

(** Two scopes of one file whose section keys differ do not see each
    other's writes. *)
Lemma scopes_isolated (h : Host) (w : World) (k : string) (v1 v2 : Json) :
  sha256 (library_path h +:+ plugin_of w) <> sha256 (library_path h) ->
  fst (set library_plugin_scope h k v1 w) = Returns tt ->
  fst (set library_only_scope h k v2 (snd (set library_plugin_scope h k v1 w)))
  = Returns tt ->
  let w2 := snd (set library_only_scope h k v2 (snd (set library_plugin_scope h k v1 w))) in
  fst (get library_plugin_scope h k w2) = Returns (Some v1)
  /\ fst (get library_only_scope h k w2) = Returns (Some v2).
Proof.
  intros Hne Hset1 Hset2 w2.
  set (kp := sha256 (library_path h +:+ plugin_of w)) in *.
  set (ko := sha256 (library_path h)) in *.
  destruct (set_returns library_plugin_scope h kp k v1 w eq_refl Hset1)
    as (fields & sec & _ & _ & Hdoc1 & Hk & Hkp & Hid1).
  set (w1 := snd (set library_plugin_scope h k v1 w)) in *.
  destruct (set_returns library_only_scope h ko k v2 w1 eq_refl Hset2)
    as (fields1 & sec1 & Hdoc1' & _ & Hdoc2 & _ & Hko & Hid2).
  fold w2 in Hdoc2, Hid2.
  change (loaded library_only_scope h w1) with (loaded library_plugin_scope h w1)
    in Hdoc1'.
  rewrite Hdoc1 in Hdoc1'. injection Hdoc1' as <-.
  assert (Hscope_p : keyed_scope library_plugin_scope h kp
                        (<[ko := JsonObj (<[k := v2]> sec1)]>
                           (<[kp := JsonObj (<[k := v1]> sec)]> fields)) w2).
  { split; [| exact Hdoc2].
    rewrite (proj1 (library_scope_keys h w2)). cbn [fst].
    subst kp. unfold plugin_of. now rewrite Hid2, Hid1. }
  assert (Hscope_o : keyed_scope library_only_scope h ko
                        (<[ko := JsonObj (<[k := v2]> sec1)]>
                           (<[kp := JsonObj (<[k := v1]> sec)]> fields)) w2).
  { split; [reflexivity | exact Hdoc2]. }
  split.
  - rewrite (get_reads_section _ _ _ k _ (<[k := v1]> sec) _ Hscope_p);
      try assumption.
    + now rewrite lookup_insert_eq.
    + rewrite lookup_insert_ne by congruence. now rewrite lookup_insert_eq.
  - rewrite (get_reads_section _ _ _ k _ (<[k := v2]> sec1) _ Hscope_o);
      try assumption.
    + now rewrite lookup_insert_eq.
    + now rewrite lookup_insert_eq.
Qed.

Definition host_L : Host :=
  {| homedir := "/home/u"; library_path := "/L"; library_name := "L";
     randomUUID := "0b6b5c1e-7a0e-4f0e-9c55-3f1d2a4b8e10";
     library_writable := true |}.

Definition world_P : World := {| files := ∅; _currentPluginId := Some "P" |}.

Definition after_both_sets : World :=
  snd (set library_only_scope host_L "k" (JsonNum 2)
         (snd (set library_plugin_scope host_L "k" (JsonNum 1) world_P))).

(** [C7] A section key is the first 16 characters of the hex SHA-256
    digest of an identifier of the scope, lower-case hex digits all.  A
    library scope with the plugin is keyed by the hash of the library path followed by the plugin id,
    one without by the hash of the library path, both in [library.json].
    With plugin ["P"] and library ["/L"] the two keys differ, so a key set
    through each scope is read back through each with its own value. *)
Theorem library_scopes_are_keyed_apart :
  (forall input,
      sha256 input = String.substring 0 16 (Sha256.sha256_hex input)
      /\ String.length (sha256 input) = 16%nat
      /\ forallb lower_hex (list_ascii_of_string (sha256 input)) = true)
  /\ (forall c h w key,
         fst (getConfigKey c h w) = Returns (Some key) ->
         exists identifier, key = sha256 identifier)
  /\ (forall h w,
         getConfigKey library_plugin_scope h w
         = (Returns (Some (sha256 (library_path h +:+ plugin_of w))), w)
         /\ getConfigKey library_only_scope h w
            = (Returns (Some (sha256 (library_path h))), w)
         /\ getConfigFilePath library_plugin_scope h
            = path_join [getConfigBasePath h; "library.json"]
         /\ getConfigFilePath library_only_scope h
            = path_join [getConfigBasePath h; "library.json"])
  /\ (sha256 ("/L" +:+ "P") = "3efad9de18f7f2f1" /\ sha256 "/L" = "d4ae3f18f3028728")
  /\ (forall h w k v1 v2,
         library_path h = "/L" -> _currentPluginId w = Some "P" ->
         fst (set library_plugin_scope h k v1 w) = Returns tt ->
         fst (set library_only_scope h k v2 (snd (set library_plugin_scope h k v1 w)))
         = Returns tt ->
         let w2 := snd (set library_only_scope h k v2
                          (snd (set library_plugin_scope h k v1 w))) in
         fst (get library_plugin_scope h k w2) = Returns (Some v1)
         /\ fst (get library_only_scope h k w2) = Returns (Some v2))
  /\ (files after_both_sets !! "/home/u/.eaglecooler/config/library.json"
      = Some (Parsed (JsonObj {[ "3efad9de18f7f2f1" := JsonObj {[ "k" := JsonNum 1 ]};
                                 "d4ae3f18f3028728" := JsonObj {[ "k" := JsonNum 2 ]} ]}))
      /\ fst (get library_plugin_scope host_L "k" after_both_sets)
         = Returns (Some (JsonNum 1))
      /\ fst (get library_only_scope host_L "k" after_both_sets)
         = Returns (Some (JsonNum 2))).
Proof.
  split; [| split; [| split; [| split; [| split]]]].
  - intros input. split; [reflexivity |]. apply sha256_format.
  - exact section_key_format.
  - intros h w. apply library_scope_keys.
  - split; vm_compute; reflexivity.
  - intros h w k v1 v2 Hpath Hplugin Hset1 Hset2.
    apply scopes_isolated; try assumption.
    unfold plugin_of. rewrite Hpath, Hplugin. vm_compute. discriminate.
  - split; [| split]; vm_compute; reflexivity.
Qed.


(** A [library.json] with the two sections, and the plugin's scope. *)
Definition two_sections : gmap string Json :=
  {[ "3efad9de18f7f2f1" := JsonObj {[ "theme" := JsonStr "dark" ]};
     "d4ae3f18f3028728" := JsonObj {[ "k" := JsonNum 2 ]} ]}.

Definition world_with_sections : World :=
  {| files := {[ "/home/u/.eaglecooler/config/library.json" := Parsed (JsonObj two_sections) ]};
     _currentPluginId := Some "P" |}.

(** The other scope's section after the plugin's scope has been cleared. *)
Lemma sibling_after_clear :
  fst (get library_only_scope host_L "k"
         (snd (clear library_plugin_scope host_L world_with_sections)))
  = Returns (Some (JsonNum 2))
  /\ fst (get library_plugin_scope host_L "theme"
            (snd (clear library_plugin_scope host_L world_with_sections)))
     = Returns None.
Proof. split; vm_compute; reflexivity. Qed.

End ConfigProps.

(** ** Bare library I/O *)
Module BareIOProps.
Import BareIO.

(** *** Regions of the heap *)

Definition val_in (D : gset loc) (v : val) : Prop :=
  match v with VRef l => l ∈ D | VPrim _ => True end.

Definition val_avoids (D : gset loc) (v : val) : Prop :=
  match v with VRef l => l ∉ D | VPrim _ => True end.

(** Every value held by the object satisfies [P]. *)
Definition node_all (P : val -> Prop) (n : node) : Prop :=
  match n with
  | NObj fields => map_Forall (fun _ v => P v) fields
  | NArr items => Forall P items
  end.

(** [v] is held by the object. *)
Definition child (n : node) (v : val) : Prop :=
  match n with
  | NObj fields => exists k, fields !! k = Some v
  | NArr items => v ∈ items
  end.

(** The objects reachable from a value. *)
Inductive reach (h : heap) : val -> loc -> Prop :=
  | reach_here (l : loc) : reach h (VRef l) l
  | reach_step (l : loc) (n : node) (v : val) (l' : loc) :
      h !! l = Some n -> child n v -> reach h v l' -> reach h (VRef l) l'.

(** No object refers to a location that has no object. *)
Definition closed (h : heap) : Prop :=
  forall l n, h !! l = Some n -> node_all (val_in (dom h)) n.

(** [h'] is [h] with new objects, which refer to new objects only. *)
Definition grown (h h' : heap) : Prop :=
  h ⊆ h'
  /\ forall l n, h' !! l = Some n -> l ∉ dom h ->
                 node_all (val_in (dom h' ∖ dom h)) n.

Lemma node_all_impl (P Q : val -> Prop) (n : node) :
  (forall v, P v -> Q v) -> node_all P n -> node_all Q n.
Proof.
  intros HPQ. destruct n as [fields | items]; cbn.
  - intros H k v Hk. apply HPQ. exact (H k v Hk).
  - intros H. eapply Forall_impl; [exact H | exact HPQ].
Qed.

Lemma node_all_child (P : val -> Prop) (n : node) (v : val) :
  node_all P n -> child n v -> P v.
Proof.
  destruct n as [fields | items]; cbn.
  - intros H [k Hk]. exact (H k v Hk).
  - intros H Hv. rewrite Forall_forall in H. now apply H.
Qed.

Lemma val_in_mono (D D' : gset loc) (v : val) : D ⊆ D' -> val_in D v -> val_in D' v.
Proof. destruct v; cbn; [tauto | set_solver]. Qed.

Lemma grown_refl (h : heap) : grown h h.
Proof.
  split; [reflexivity |]. intros l n Hl Hnew.
  exfalso. apply Hnew. apply elem_of_dom. eauto.
Qed.

Lemma grown_dom (h h' : heap) : grown h h' -> dom h ⊆ dom h'.
Proof. intros [Hsub _]. now apply subseteq_dom. Qed.

Lemma grown_trans (h h1 h2 : heap) : grown h h1 -> grown h1 h2 -> grown h h2.
Proof.
  intros H01 H12.
  pose proof (grown_dom _ _ H01) as Hd01. pose proof (grown_dom _ _ H12) as Hd12.
  destruct H01 as [Hsub01 Hnew01], H12 as [Hsub12 Hnew12].
  split; [now transitivity h1 |].
  intros l n Hl Hnew.
  destruct (decide (l ∈ dom h1)) as [Hin | Hout].
  - apply elem_of_dom in Hin as [n1 Hn1].
    assert (n1 = n) as ->.
    { pose proof (lookup_weaken _ _ _ _ Hn1 Hsub12). congruence. }
    eapply node_all_impl; [| exact (Hnew01 l n Hn1 Hnew)].
    intros v. apply val_in_mono. set_solver.
  - eapply node_all_impl; [| exact (Hnew12 l n Hl Hout)].
    intros v. apply val_in_mono. set_solver.
Qed.

Lemma alloc_node_grown (h h1 h2 : heap) (n : node) (v : val) :
  grown h h1 ->
  node_all (val_in (dom h1 ∖ dom h)) n ->
  alloc_node n h1 = (h2, v) ->
  grown h h2 /\ val_in (dom h2 ∖ dom h) v /\ size h2 = S (size h1).
Proof.
  intros Hg Hn Halloc. unfold alloc_node in Halloc. injection Halloc as <- <-.
  pose proof (is_fresh (dom h1)) as Hfresh.
  pose proof (grown_dom _ _ Hg) as Hd.
  assert (Hnone : h1 !! fresh (dom h1) = None) by now apply not_elem_of_dom.
  destruct Hg as [Hsub Hnew1].
  split; [| split].
  - split.
    + transitivity h1; [exact Hsub |]. now apply insert_subseteq.
    + intros l n' Hl Hnew. rewrite dom_insert_L.
      destruct (decide (l = fresh (dom h1))) as [-> | Hne].
      * rewrite lookup_insert_eq in Hl. injection Hl as <-.
        eapply node_all_impl; [| exact Hn].
        intros v. apply val_in_mono. set_solver.
      * rewrite lookup_insert_ne in Hl by congruence.
        eapply node_all_impl; [| exact (Hnew1 l n' Hl Hnew)].
        intros v. apply val_in_mono. set_solver.
  - cbn. rewrite dom_insert_L. set_solver.
  - now apply map_size_insert_None.
Qed.

(** *** [JSON.parse] makes new objects only *)

Fixpoint parse_items (ds : list Doc) (h : heap) : heap * list val :=
  match ds with
  | [] => (h, [])
  | d :: ds' =>
      let '(h1, v) := parse d h in
      let '(h2, vs) := parse_items ds' h1 in
      (h2, v :: vs)
  end.

Fixpoint parse_members (ms : list (string * Doc)) (h : heap) (acc : gmap string val)
  : heap * gmap string val :=
  match ms with
  | [] => (h, acc)
  | (k, d) :: ms' =>
      let '(h1, v) := parse d h in
      parse_members ms' h1 (<[k := v]> acc)
  end.

Lemma parse_array (items : list Doc) (h : heap) :
  parse (DArr items) h
  = let '(h1, vs) := parse_items items h in alloc_node (NArr vs) h1.
Proof. reflexivity. Qed.

Lemma parse_object (members : list (string * Doc)) (h : heap) :
  parse (DObj members) h
  = let '(h1, fields) := parse_members members h ∅ in alloc_node (NObj fields) h1.
Proof. reflexivity. Qed.

Section DocInduction.
Variable P : Doc -> Prop.
Hypothesis Hnull : P DNull.
Hypothesis Hbool : forall b, P (DBool b).
Hypothesis Hnum : forall n, P (DNum n).
Hypothesis Hstr : forall s, P (DStr s).
Hypothesis Harr : forall items, Forall P items -> P (DArr items).
Hypothesis Hobj : forall members, Forall (fun kd => P kd.2) members -> P (DObj members).

Fixpoint Doc_nested_ind (d : Doc) : P d :=
  match d with
  | DNull => Hnull
  | DBool b => Hbool b
  | DNum n => Hnum n
  | DStr s => Hstr s
  | DArr items =>
      Harr items
        ((fix all (ds : list Doc) : Forall P ds :=
            match ds with
            | [] => @List.Forall_nil _ P
            | d :: ds' => @List.Forall_cons _ P d ds' (Doc_nested_ind d) (all ds')
            end) items)
  | DObj members =>
      Hobj members
        ((fix all (ms : list (string * Doc)) : Forall (fun kd => P kd.2) ms :=
            match ms with
            | [] => @List.Forall_nil _ _
            | kd :: ms' => @List.Forall_cons _ _ kd ms' (Doc_nested_ind kd.2) (all ms')
            end) members)
  end.
End DocInduction.

(** What a step of parsing or cloning guarantees. *)
Definition fresh_result (h h' : heap) (v : val) : Prop :=
  grown h h' /\ val_in (dom h' ∖ dom h) v.

Lemma fresh_result_weaken (h h1 h2 : heap) (v : val) :
  grown h h1 -> fresh_result h1 h2 v -> val_in (dom h2 ∖ dom h) v.
Proof.
  intros H01 [H12 Hv]. pose proof (grown_dom _ _ H01).
  eapply val_in_mono; [| exact Hv]. set_solver.
Qed.

Lemma val_in_earlier (h h1 h2 : heap) (v : val) :
  grown h h1 -> val_in (dom h2 ∖ dom h1) v -> val_in (dom h2 ∖ dom h) v.
Proof.
  intros H01. pose proof (grown_dom _ _ H01). apply val_in_mono. set_solver.
Qed.

Lemma val_in_later (h h1 h2 : heap) (v : val) :
  grown h1 h2 -> val_in (dom h1 ∖ dom h) v -> val_in (dom h2 ∖ dom h) v.
Proof.
  intros H12. pose proof (grown_dom _ _ H12). apply val_in_mono. set_solver.
Qed.

Definition parses_fresh (d : Doc) : Prop :=
  forall h h' v, parse d h = (h', v) -> fresh_result h h' v.

Lemma parse_items_fresh (ds : list Doc) :
  Forall parses_fresh ds ->
  forall h h1 vs, parse_items ds h = (h1, vs) ->
                  grown h h1 /\ Forall (val_in (dom h1 ∖ dom h)) vs.
Proof.
  induction 1 as [| d ds Hd _ IHds]; intros h h1 vs Hitems; cbn in Hitems.
  - injection Hitems as <- <-. split; [apply grown_refl | constructor].
  - destruct (parse d h) as [ha va] eqn:Ha.
    destruct (parse_items ds ha) as [hb vb] eqn:Hb.
    injection Hitems as <- <-.
    destruct (Hd _ _ _ Ha) as [Hga Hva].
    destruct (IHds _ _ _ Hb) as [Hgb Hvb].
    split; [now apply (grown_trans h ha) |].
    constructor.
    + now apply (val_in_later h ha hb).
    + eapply Forall_impl; [exact Hvb |].
      intros x. now apply val_in_earlier.
Qed.

Lemma parse_members_fresh (ms : list (string * Doc)) :
  Forall (fun kd => parses_fresh kd.2) ms ->
  forall h hc acc h1 fields,
    grown h hc ->
    map_Forall (fun _ x => val_in (dom hc ∖ dom h) x) acc ->
    parse_members ms hc acc = (h1, fields) ->
    grown h h1 /\ map_Forall (fun _ x => val_in (dom h1 ∖ dom h) x) fields.
Proof.
  induction 1 as [| [k d] ms Hd _ IHms]; intros h hc acc h1 fields Hg Hacc Hmembers;
    cbn in Hmembers.
  - injection Hmembers as <- <-. now split.
  - destruct (parse d hc) as [ha va] eqn:Ha.
    destruct (Hd _ _ _ Ha) as [Hga Hva].
    apply (IHms h ha (<[k := va]> acc) h1 fields); [| | exact Hmembers].
    + now apply (grown_trans h hc).
    + apply map_Forall_insert_2.
      * now apply (val_in_earlier h hc ha).
      * intros k' x Hk'. now apply (val_in_later h hc ha), (Hacc k' x).
Qed.

Lemma parse_fresh (d : Doc) : parses_fresh d.
Proof.
  induction d as [| b | n | s | items IH | members IH] using Doc_nested_ind;
    intros h h' v Hparse.
  1-4: injection Hparse as <- <-; split; [apply grown_refl | exact I].
  - rewrite parse_array in Hparse.
    destruct (parse_items items h) as [h1 vs] eqn:Hitems.
    destruct (parse_items_fresh items IH _ _ _ Hitems) as [Hg Hvs].
    destruct (alloc_node_grown h h1 h' (NArr vs) v Hg Hvs Hparse) as (? & ? & _).
    now split.
  - rewrite parse_object in Hparse.
    destruct (parse_members members h ∅) as [h1 fields] eqn:Hmembers.
    destruct (parse_members_fresh members IH h h ∅ h1 fields) as [Hg Hfs];
      [apply grown_refl | apply map_Forall_empty | exact Hmembers |].
    destruct (alloc_node_grown h h1 h' (NObj fields) v Hg Hfs Hparse) as (? & ? & _).
    now split.
Qed.

(** *** [structuredClone] makes new objects only *)

Definition clones_fresh (clone1 : val -> heap -> option (heap * val)) : Prop :=
  forall v h h' v', clone1 v h = Some (h', v') -> fresh_result h h' v'.

Lemma clone_all_fresh (clone1 : val -> heap -> option (heap * val)) :
  clones_fresh clone1 ->
  forall vs h h' vs',
    clone_all clone1 vs h = Some (h', vs') ->
    grown h h' /\ Forall (val_in (dom h' ∖ dom h)) vs' /\ length vs' = length vs.
Proof.
  intros Hone vs. induction vs as [| v vs IH]; intros h h' vs' Hall; cbn in Hall.
  - injection Hall as <- <-. split; [apply grown_refl |]. split; constructor.
  - destruct (clone1 v h) as [[ha va] |] eqn:Ha; [| discriminate].
    destruct (clone_all clone1 vs ha) as [[hb vb] |] eqn:Hb; [| discriminate].
    injection Hall as <- <-.
    destruct (Hone _ _ _ _ Ha) as [Hga Hva].
    destruct (IH _ _ _ Hb) as (Hgb & Hvb & Hlen).
    split; [now apply (grown_trans h ha) |]. split.
    + constructor.
      * now apply (val_in_later h ha hb).
      * eapply Forall_impl; [exact Hvb |]. intros x. now apply val_in_earlier.
    + cbn. now rewrite Hlen.
Qed.

Lemma map_Forall_of_zip (P : val -> Prop) (ks : list string) (vs : list val) :
  Forall P vs -> map_Forall (fun _ v => P v) (list_to_map (zip ks vs) : gmap string val).
Proof.
  intros Hvs k v Hk.
  apply elem_of_list_to_map_2 in Hk.
  apply elem_of_zip_r in Hk.
  rewrite Forall_forall in Hvs. now apply Hvs.
Qed.

Lemma clone_fresh (fuel : nat) : clones_fresh (clone fuel).
Proof.
  induction fuel as [| fuel IH]; intros v h h' v' Hclone.
  - destruct v as [p | l]; cbn in Hclone; [| discriminate].
    injection Hclone as <- <-. split; [apply grown_refl | exact I].
  - destruct v as [p | l]; cbn in Hclone.
    { injection Hclone as <- <-. split; [apply grown_refl | exact I]. }
    destruct (h !! l) as [[fields | items] |]; [| | discriminate].
    + destruct (clone_all (clone fuel) (map_to_list fields).*2 h)
        as [[h1 vs] |] eqn:Hall; [| discriminate].
      injection Hclone as <- <-.
      destruct (clone_all_fresh _ IH _ _ _ _ Hall) as (Hg & Hvs & _).
      destruct (alloc_node_grown h h1 _ (NObj (list_to_map (zip (map_to_list fields).*1 vs)))
                  _ Hg (map_Forall_of_zip _ (map_to_list fields).*1 vs Hvs) eq_refl)
        as (? & ? & _).
      now split.
    + destruct (clone_all (clone fuel) items h) as [[h1 vs] |] eqn:Hall;
        [| discriminate].
      injection Hclone as <- <-.
      destruct (clone_all_fresh _ IH _ _ _ _ Hall) as (Hg & Hvs & _).
      destruct (alloc_node_grown h h1 _ (NArr vs) _ Hg Hvs eq_refl) as (? & ? & _).
      now split.
Qed.

(** *** [structuredClone] of a parsed document returns *)

(** No path from the value is longer than [n]. *)
Fixpoint shallow (h : heap) (n : nat) (v : val) : Prop :=
  match v with
  | VPrim _ => True
  | VRef l =>
      match n with
      | O => False
      | S n' => exists nd, h !! l = Some nd /\ node_all (shallow h n') nd
      end
  end.

Lemma shallow_prim (h : heap) (n : nat) (p : prim) : shallow h n (VPrim p).
Proof. destruct n; exact I. Qed.

Lemma shallow_mono (h h' : heap) (n : nat) :
  h ⊆ h' -> forall n' v, (n <= n')%nat -> shallow h n v -> shallow h' n' v.
Proof.
  intros Hsub. induction n as [| n IH]; intros n' v Hn Hs.
  - destruct v; [apply shallow_prim | contradiction].
  - destruct v as [p | l]; [apply shallow_prim |].
    destruct n' as [| n']; [lia |].
    destruct Hs as (nd & Hl & Hnd). exists nd. split.
    + now apply (lookup_weaken h h').
    + eapply node_all_impl; [| exact Hnd]. intros v. apply IH. lia.
Qed.

Lemma grown_size (h h' : heap) : grown h h' -> (size h <= size h')%nat.
Proof. intros [Hsub _]. now apply map_subseteq_size. Qed.

Definition parses_shallow (d : Doc) : Prop :=
  forall h h' v, parse d h = (h', v) -> shallow h' (size h' - size h) v.

Lemma parse_items_shallow (ds : list Doc) :
  Forall parses_shallow ds ->
  forall h h1 vs, parse_items ds h = (h1, vs) ->
                  Forall (shallow h1 (size h1 - size h)) vs.
Proof.
  induction 1 as [| d ds Hd _ IHds]; intros h h1 vs Hitems; cbn in Hitems.
  - injection Hitems as <- <-. constructor.
  - destruct (parse d h) as [ha va] eqn:Ha.
    destruct (parse_items ds ha) as [hb vb] eqn:Hb.
    injection Hitems as <- <-.
    destruct (parse_fresh d _ _ _ Ha) as [Hga _].
    assert (Hgb : grown ha hb).
    { apply (parse_items_fresh ds) in Hb as [Hgb _]; [exact Hgb |].
      apply Forall_forall. intros x _. apply parse_fresh. }
    pose proof (grown_size _ _ Hga). pose proof (grown_size _ _ Hgb).
    constructor.
    + apply (shallow_mono ha hb (size ha - size h)); [apply Hgb | lia |].
      now apply Hd.
    + eapply Forall_impl; [exact (IHds _ _ _ Hb) |].
      intros x. apply shallow_mono; [reflexivity | lia].
Qed.

Lemma parse_members_shallow (ms : list (string * Doc)) :
  Forall (fun kd => parses_shallow kd.2) ms ->
  forall h hc acc h1 fields,
    grown h hc ->
    map_Forall (fun _ x => shallow hc (size hc - size h) x) acc ->
    parse_members ms hc acc = (h1, fields) ->
    grown h h1 /\ map_Forall (fun _ x => shallow h1 (size h1 - size h) x) fields.
Proof.
  induction 1 as [| [k d] ms Hd _ IHms]; intros h hc acc h1 fields Hg Hacc Hmembers;
    cbn in Hmembers.
  - injection Hmembers as <- <-. now split.
  - destruct (parse d hc) as [ha va] eqn:Ha.
    destruct (parse_fresh d _ _ _ Ha) as [Hga _].
    pose proof (grown_size _ _ Hg). pose proof (grown_size _ _ Hga).
    apply (IHms h ha (<[k := va]> acc) h1 fields); [| | exact Hmembers].
    + now apply (grown_trans h hc).
    + apply map_Forall_insert_2.
      * apply (shallow_mono ha ha (size ha - size hc)); [reflexivity | lia |].
        now apply Hd.
      * intros k' x Hk'.
        apply (shallow_mono hc ha (size hc - size h)); [apply Hga | lia |].
        exact (Hacc k' x Hk').
Qed.

Lemma shallow_alloc (h h1 : heap) (n : node) :
  grown h h1 ->
  node_all (shallow h1 (size h1 - size h)) n ->
  shallow (alloc_node n h1).1 (size (alloc_node n h1).1 - size h) (alloc_node n h1).2.
Proof.
  intros Hg Hn. unfold alloc_node. cbn [fst snd].
  pose proof (is_fresh (dom h1)) as Hfresh.
  assert (Hnone : h1 !! fresh (dom h1) = None) by now apply not_elem_of_dom.
  rewrite map_size_insert_None by exact Hnone.
  pose proof (grown_size _ _ Hg).
  replace (S (size h1) - size h)%nat with (S (size h1 - size h)) by lia.
  cbn. exists n. split; [now rewrite lookup_insert_eq |].
  eapply node_all_impl; [| exact Hn].
  intros v. apply shallow_mono; [now apply insert_subseteq | lia].
Qed.

Lemma parse_shallow (d : Doc) : parses_shallow d.
Proof.
  induction d as [| b | n | s | items IH | members IH] using Doc_nested_ind;
    intros h h' v Hparse.
  1-4: injection Hparse as <- <-; apply shallow_prim.
  - rewrite parse_array in Hparse.
    destruct (parse_items items h) as [h1 vs] eqn:Hitems.
    assert (Hg : grown h h1).
    { apply (parse_items_fresh items) in Hitems as [Hg _]; [exact Hg |].
      apply Forall_forall. intros x _. apply parse_fresh. }
    pose proof (shallow_alloc h h1 (NArr vs) Hg (parse_items_shallow items IH _ _ _ Hitems))
      as Hs.
    now rewrite Hparse in Hs.
  - rewrite parse_object in Hparse.
    destruct (parse_members members h ∅) as [h1 fields] eqn:Hmembers.
    destruct (parse_members_shallow members IH h h ∅ h1 fields) as [Hg Hfs];
      [apply grown_refl | apply map_Forall_empty | exact Hmembers |].
    pose proof (shallow_alloc h h1 (NObj fields) Hg Hfs) as Hs.
    now rewrite Hparse in Hs.
Qed.

Definition clones_total (h0 : heap) (n : nat) (clone1 : val -> heap -> option (heap * val))
  : Prop :=
  forall v h, shallow h0 n v -> h0 ⊆ h -> is_Some (clone1 v h).

Lemma clone_all_total (h0 : heap) (n : nat)
    (clone1 : val -> heap -> option (heap * val)) :
  clones_fresh clone1 -> clones_total h0 n clone1 ->
  forall vs h, Forall (shallow h0 n) vs -> h0 ⊆ h -> is_Some (clone_all clone1 vs h).
Proof.
  intros Hfresh Htotal vs. induction vs as [| v vs IH]; intros h Hvs Hsub; cbn.
  - eauto.
  - apply Forall_cons in Hvs as [Hv Hvs].
    destruct (Htotal v h Hv Hsub) as [[ha va] Ha]. rewrite Ha.
    destruct (Hfresh _ _ _ _ Ha) as [[Hha _] _].
    destruct (IH ha Hvs) as [[hb vb] Hb]; [now transitivity h |].
    rewrite Hb. eauto.
Qed.

Lemma clone_total (h0 : heap) (fuel : nat) :
  forall n, (n <= fuel)%nat -> clones_total h0 n (clone fuel).
Proof.
  induction fuel as [| fuel IH]; intros n Hn v h Hv Hsub.
  - destruct v as [p | l]; cbn; [eauto |].
    assert (n = O) as -> by lia. contradiction.
  - destruct v as [p | l]; cbn; [eauto |].
    destruct n as [| n]; [contradiction |].
    destruct Hv as (nd & Hl & Hnd).
    rewrite (lookup_weaken _ _ _ _ Hl Hsub).
    assert (Hrec : clones_total h0 n (clone fuel)) by (apply IH; lia).
    destruct nd as [fields | items]; cbn in Hnd.
    + destruct (clone_all_total h0 n _ (clone_fresh fuel) Hrec
                  (map_to_list fields).*2 h) as [[h1 vs] Hall]; [| exact Hsub |].
      * apply Forall_fmap. apply Forall_forall. intros [k x] Hkx.
        apply elem_of_map_to_list in Hkx. exact (Hnd k x Hkx).
      * rewrite Hall. eauto.
    + destruct (clone_all_total h0 n _ (clone_fresh fuel) Hrec items h Hnd Hsub)
        as [[h1 vs] Hall].
      rewrite Hall. eauto.
Qed.

(** The clone of a document just parsed exists. *)
Lemma structuredClone_of_parsed (d : Doc) (h h1 : heap) (current : val) :
  parse d h = (h1, current) -> is_Some (structuredClone current h1).
Proof.
  intros Hparse. unfold structuredClone.
  apply (clone_total h1 (S (size h1)) (size h1 - size h)); [lia | | reflexivity].
  exact (parse_shallow d _ _ _ Hparse).
Qed.

(** *** The function only sees what it is given and what it holds *)

Definition heap_avoids (D : gset loc) (h : heap) : Prop :=
  forall l n, h !! l = Some n -> node_all (val_avoids D) n.

(** The object a value is, if it is one. *)
Definition refs (v : val) : gset loc :=
  match v with VRef l => {[ l ]} | VPrim _ => ∅ end.

(** A function reaches objects through its argument and through the
    objects [held] it closes over, and through nothing else.  So when a
    part [hf] of the heap holds none of the objects it holds, and
    neither its argument nor any object outside [hf] refers into [hf],
    the function leaves [hf] as it is and neither returns nor stores a
    reference into it. *)
Definition local_to (held : gset loc) (update : UpdateMetadataFn) : Prop :=
  forall (h hf : heap) (v : val) (h' : heap) (v' : val),
    h ##ₘ hf ->
    held ## dom hf ->
    heap_avoids (dom hf) h ->
    val_avoids (dom hf) v ->
    update v (h ∪ hf) = Some (h', v') ->
    exists h1, h' = h1 ∪ hf /\ h1 ##ₘ hf
               /\ heap_avoids (dom hf) h1 /\ val_avoids (dom hf) v'.

(** A function that holds less holds no more: what it holds may be
    taken to be every object that was there before the call. *)
Lemma local_to_mono (held held' : gset loc) (update : UpdateMetadataFn) :
  held ⊆ held' -> local_to held update -> local_to held' update.
Proof.
  intros Hsub Hlocal h hf v h' v' Hdisj Hheld.
  apply Hlocal; [exact Hdisj | set_solver].
Qed.

Lemma reach_avoids (h hf : heap) (v : val) (l : loc) :
  h ##ₘ hf -> heap_avoids (dom hf) h -> val_avoids (dom hf) v ->
  reach (h ∪ hf) v l -> l ∉ dom hf.
Proof.
  intros Hdisj Hh Hv Hreach.
  induction Hreach as [l | l n v l' Hl Hchild _ IH]; [exact Hv |].
  apply IH. cbn in Hv.
  assert (Hn : h !! l = Some n).
  { apply lookup_union_Some in Hl as [Hl | Hl]; [exact Hl | | exact Hdisj].
    exfalso. apply Hv. apply elem_of_dom. eauto. }
  exact (node_all_child _ _ _ (Hh l n Hn) Hchild).
Qed.

Lemma val_in_avoids (D C : gset loc) (v : val) : D ## C -> val_in D v -> val_avoids C v.
Proof. destruct v; cbn; [tauto | set_solver]. Qed.

(** After the read and the clone the heap splits in two: the objects
    of the document read, and the rest, which holds no reference to
    them. *)
Lemma split_after_clone (h0 h1 h2 : heap) (copy : val) :
  closed h0 -> grown h0 h1 -> fresh_result h1 h2 copy ->
  exists h hf,
    h2 = h ∪ hf /\ h ##ₘ hf /\ dom hf = dom h1 ∖ dom h0
    /\ heap_avoids (dom hf) h /\ val_avoids (dom hf) copy
    /\ (forall l, l ∈ dom h1 ∖ dom h0 -> hf !! l = h1 !! l).
Proof.
  intros Hclosed H01 [H12 Hcopy].
  pose proof (grown_dom _ _ H01) as Hd01. pose proof (grown_dom _ _ H12) as Hd12.
  set (C := dom h1 ∖ dom h0).
  set (hf := filter (fun kv : loc * node => kv.1 ∈ C) h2).
  set (h := filter (fun kv : loc * node => kv.1 ∉ C) h2).
  assert (Hdom : dom hf = C).
  { apply dom_filter_L. intros l. split.
    - intros Hl. assert (l ∈ dom h2) as [n Hn]%elem_of_dom by set_solver. eauto.
    - intros (n & _ & Hl). exact Hl. }
  exists h, hf. rewrite Hdom. repeat split.
  - subst h hf. rewrite map_union_comm by (symmetry; apply map_disjoint_filter_complement).
    symmetry. apply map_filter_union_complement.
  - subst h hf. symmetry. apply map_disjoint_filter_complement.
  - intros l n Hl. apply map_lookup_filter_Some in Hl as [Hl HlC]. cbn in HlC.
    destruct (decide (l ∈ dom h1)) as [Hin1 | Hout1].
    + assert (Hin0 : l ∈ dom h0) by set_solver.
      apply elem_of_dom in Hin0 as [n0 Hn0].
      assert (n0 = n) as ->.
      { destruct H01 as [Hs01 _], H12 as [Hs12 _].
        pose proof (lookup_weaken _ _ _ _ (lookup_weaken _ _ _ _ Hn0 Hs01) Hs12).
        congruence. }
      eapply node_all_impl; [| exact (Hclosed l n Hn0)].
      intros v. apply val_in_avoids. set_solver.
    + destruct H12 as [_ Hnew12].
      eapply node_all_impl; [| exact (Hnew12 l n Hl Hout1)].
      intros v. apply val_in_avoids. set_solver.
  - eapply val_in_avoids; [| exact Hcopy]. set_solver.
  - intros l Hl. subst hf.
    assert (l ∈ dom h1) as [n Hn]%elem_of_dom by set_solver.
    rewrite Hn. apply map_lookup_filter_Some. split; [| exact Hl].
    destruct H12 as [Hs12 _]. now apply (lookup_weaken h1 h2).
Qed.

Definition written (core : BareLibraryCore) (content : Doc) (h : heap) (st : State) : State :=
  {| objects := h; files := <[metadataPath core := Parsed content]> (files st) |}.

Definition unwritten (h : heap) (st : State) : State :=
  {| objects := h; files := files st |}.

(** [C9] [updateLibraryMetadata(update)] parses the document into new
    objects, clones them into other new objects, and calls [update] on
    the clone.  When [update] returns and its result can be serialised,
    the result is what is written and what is returned.  For every
    function that reaches objects through its argument and through the
    objects it holds, objects that were there before the call, the
    objects of the document read are then as they were when read, and
    none of them is reachable from the clone or from the result,
    whatever the function stored in the clone or returned. *)
Theorem update_works_on_a_clone :
  forall (core : BareLibraryCore) (update : UpdateMetadataFn) (st : State) (doc : Doc)
         (held : gset loc),
    files st !! metadataPath core = Some (Parsed doc) ->
    closed (objects st) ->
    held ⊆ dom (objects st) ->
    local_to held update ->
    let read := parse doc (objects st) in
    let cells := dom read.1 ∖ dom (objects st) in
    exists h2 copy,
      structuredClone read.2 read.1 = Some (h2, copy)
      /\ (forall l, l ∈ cells -> h2 !! l = read.1 !! l)
      /\ (forall l, reach h2 copy l -> l ∉ cells)
      /\ match update copy h2 with
         | None =>
             updateLibraryMetadata core update st = (Throws Exception, unwritten h2 st)
         | Some (h3, next) =>
             (forall l, l ∈ cells -> h3 !! l = read.1 !! l)
             /\ (forall l, reach h3 next l -> l ∉ cells)
             /\ match stringify (S (size h3)) h3 next with
                | Some content =>
                    updateLibraryMetadata core update st
                    = (Returns next, written core content h3 st)
                | None =>
                    updateLibraryMetadata core update st
                    = (Throws TypeError, unwritten h3 st)
                end
         end.
Proof.
  intros core update st doc held Hfile Hclosed Hheld Hlocal read cells.
  destruct (parse doc (objects st)) as [h1 current] eqn:Hparse.
  subst read cells. cbn [fst snd].
  destruct (parse_fresh doc _ _ _ Hparse) as [H01 _].
  destruct (structuredClone_of_parsed doc _ _ _ Hparse) as [[h2 copy] Hclone].
  pose proof (clone_fresh _ _ _ _ _ Hclone) as Hfresh.
  destruct (split_after_clone _ _ _ _ Hclosed H01 Hfresh)
    as (h & hf & -> & Hdisj & Hdom & Hh & Hcopy & Hcells).
  assert (Hout : held ## dom hf) by (rewrite Hdom; set_solver).
  rewrite <- Hdom.
  assert (Hkept : forall h', h' ##ₘ hf -> forall l, l ∈ dom hf -> (h' ∪ hf) !! l = h1 !! l).
  { intros h' Hd l Hl. rewrite <- Hcells by now rewrite <- Hdom.
    apply elem_of_dom in Hl as [n Hn]. rewrite Hn.
    apply lookup_union_Some_raw. right. split; [| exact Hn].
    now apply (map_disjoint_Some_r h' hf l n). }
  assert (Hrun : updateLibraryMetadata core update st
                 = match update copy (h ∪ hf) with
                   | Some (h3, next) =>
                       match stringify (S (size h3)) h3 next with
                       | Some content => (Returns next, written core content h3 st)
                       | None => (Throws TypeError, unwritten h3 st)
                       end
                   | None => (Throws Exception, unwritten (h ∪ hf) st)
                   end).
  { unfold updateLibraryMetadata, readLibraryMetadata, readJson, mbind, io_bind.
    rewrite Hfile, Hparse. unfold do_clone. cbn [objects files]. rewrite Hclone.
    unfold call. cbn [objects files].
    destruct (update copy (h ∪ hf)) as [[h3 next] |]; [| reflexivity].
    unfold writeLibraryMetadata, writeJson. cbn [objects files].
    destruct (stringify (S (size h3)) h3 next); reflexivity. }
  exists (h ∪ hf), copy. split; [exact Hclone |]. split; [now apply Hkept |].
  split; [intros l; now apply reach_avoids |].
  rewrite Hrun.
  destruct (update copy (h ∪ hf)) as [[h3 next] |] eqn:Hupdate; [| reflexivity].
  destruct (Hlocal h hf copy h3 next Hdisj Hout Hh Hcopy Hupdate)
    as (h' & -> & Hdisj' & Hh' & Hnext).
  split; [now apply Hkept |].
  split; [intros l; now apply reach_avoids |].
  destruct (stringify _ _ next); reflexivity.
Qed.

(** *** The callers' functions see only what they are given and hold *)

(** An object outside the part is found where the part is not. *)
Lemma lookup_outside (h hf : heap) (l : loc) :
  h ##ₘ hf -> l ∉ dom hf -> (h ∪ hf) !! l = h !! l.
Proof.
  intros Hdisj Hl. apply lookup_union_l. now apply not_elem_of_dom.
Qed.

(** Replacing an object outside the part by one that does not refer
    into it. *)
Lemma replace_outside (h hf : heap) (l : loc) (n : node) :
  h ##ₘ hf -> l ∉ dom hf -> heap_avoids (dom hf) h ->
  node_all (val_avoids (dom hf)) n ->
  <[l := n]> (h ∪ hf) = <[l := n]> h ∪ hf
  /\ <[l := n]> h ##ₘ hf
  /\ heap_avoids (dom hf) (<[l := n]> h).
Proof.
  intros Hdisj Hl Hh Hn.
  assert (Hnone : hf !! l = None) by now apply not_elem_of_dom.
  split; [now rewrite insert_union_l |].
  split; [now apply map_disjoint_insert_l_2 |].
  intros l' n' Hl'. destruct (decide (l' = l)) as [-> | Hne].
  - rewrite lookup_insert_eq in Hl'. now injection Hl' as <-.
  - rewrite lookup_insert_ne in Hl' by congruence. exact (Hh l' n' Hl').
Qed.

Lemma refs_avoid (D : gset loc) (v : val) : refs v ## D -> val_avoids D v.
Proof. destruct v as [p | l]; cbn; [tauto | set_solver]. Qed.

(** [meta.quickAccess = entries] stores the array the caller holds. *)
Lemma quickAccess_set_local (entries : val) :
  local_to (refs entries) (quickAccess_set entries).
Proof.
  intros h hf v h' v' Hdisj Hheld Hh Hv Hupd. unfold quickAccess_set in Hupd.
  destruct v as [p | l]; [discriminate |]. cbn in Hv.
  rewrite (lookup_outside h hf l Hdisj Hv) in Hupd.
  destruct (h !! l) as [[fields | items] |] eqn:Hl; try discriminate;
    injection Hupd as <- <-.
  - destruct (replace_outside h hf l (NObj (<["quickAccess" := entries]> fields))
                Hdisj Hv Hh) as (Heq & Hdisj' & Hh').
    { cbn. apply map_Forall_insert_2; [now apply refs_avoid | exact (Hh l _ Hl)]. }
    eauto 6.
  - exists h. eauto.
Qed.

(** [meta[field].push(x)] stores the object the caller holds. *)
Lemma push_onto_local (field : string) (x : val) :
  local_to (refs x) (push_onto field x).
Proof.
  intros h hf v h' v' Hdisj Hheld Hh Hv Hupd. unfold push_onto in Hupd.
  destruct v as [p | l]; [discriminate |]. cbn in Hv.
  rewrite (lookup_outside h hf l Hdisj Hv) in Hupd.
  destruct (h !! l) as [[fields | items] |] eqn:Hl; try discriminate.
  destruct (fields !! field) as [[p | a] |] eqn:Hfield; try discriminate.
  assert (Ha : a ∉ dom hf) by exact (Hh l _ Hl field (VRef a) Hfield).
  rewrite (lookup_outside h hf a Hdisj Ha) in Hupd.
  destruct (h !! a) as [[fields' | items] |] eqn:Harr; try discriminate.
  injection Hupd as <- <-.
  destruct (replace_outside h hf a (NArr (items ++ [x])) Hdisj Ha Hh)
    as (Heq & Hdisj' & Hh').
  { cbn. apply Forall_app. split; [exact (Hh a _ Harr) |].
    constructor; [now apply refs_avoid | constructor]. }
  eauto 6.
Qed.

(** *** A mutation in place: stamping the modification time *)

(** [meta => { meta.modificationTime = t; return meta; }] *)
Definition touch (t : Z) : UpdateMetadataFn := fun v h =>
  match v with
  | VRef l =>
      match h !! l with
      | Some (NObj fields) =>
          Some (<[l := NObj (<["modificationTime" := VPrim (PNum t)]> fields)]> h, v)
      | _ => None
      end
  | VPrim _ => None
  end.

Lemma touch_local (t : Z) (held : gset loc) : local_to held (touch t).
Proof.
  intros h hf v h' v' Hdisj _ Hh Hv Hupd. unfold touch in Hupd.
  destruct v as [p | l]; [discriminate |]. cbn in Hv.
  rewrite (lookup_outside h hf l Hdisj Hv) in Hupd.
  destruct (h !! l) as [[fields | items] |] eqn:Hl; try discriminate.
  injection Hupd as <- <-.
  destruct (replace_outside h hf l (NObj (<["modificationTime" := VPrim (PNum t)]> fields))
              Hdisj Hv Hh) as (Heq & Hdisj' & Hh').
  { cbn. apply map_Forall_insert_2; [exact I | exact (Hh l _ Hl)]. }
  eauto 6.
Qed.

Lemma closed_empty : closed ∅.
Proof. intros l n Hl. now rewrite lookup_empty in Hl. Qed.

Definition library : BareLibraryCore := {| rootPath := "/libs/A.library" |}.

Definition metadata_json : Doc :=
  DObj [("folders", DArr [DObj [("id", DStr "F1"); ("children", DArr [])]]);
        ("modificationTime", DNum 5)].

Definition on_disk : State :=
  {| objects := ∅;
     files := {[ "/libs/A.library/metadata.json" := Parsed metadata_json ]} |}.

(** The caller of [BareQuickAccess.set] holds the array of entries, at
    [0], and its one entry, at [1]. *)
Definition entries_held : heap :=
  {[ 0%nat := NArr [VRef 1];
     1%nat := NObj {[ "type" := VPrim (PStr "folder"); "id" := VPrim (PStr "F1") ]} ]}.

Definition with_entries : State :=
  {| objects := entries_held; files := files on_disk |}.

Lemma entries_held_closed : closed entries_held.
Proof.
  intros l n Hl. unfold entries_held in Hl.
  apply lookup_insert_Some in Hl as [[<- <-] | [_ Hl]].
  - cbn. constructor; [| constructor]. cbn. apply elem_of_dom.
    now exists (NObj {[ "type" := VPrim (PStr "folder"); "id" := VPrim (PStr "F1") ]}).
  - apply lookup_singleton_Some in Hl as [<- <-]. cbn.
    apply map_Forall_insert_2; [exact I |].
    apply map_Forall_insert_2; [exact I | apply map_Forall_empty].
Qed.

Lemma update_works_on_a_clone_witness :
  files with_entries !! metadataPath library = Some (Parsed metadata_json)
  /\ closed (objects with_entries)
  /\ refs (VRef 0) ⊆ dom (objects with_entries)
  /\ local_to (refs (VRef 0)) (quickAccess_set (VRef 0))
  /\ exists h2 copy,
       structuredClone (parse metadata_json (objects with_entries)).2
                       (parse metadata_json (objects with_entries)).1 = Some (h2, copy)
       /\ forall l, reach h2 copy l ->
                    l ∉ dom (parse metadata_json (objects with_entries)).1
                        ∖ dom (objects with_entries).
Proof.
  assert (Hfile : files with_entries !! metadataPath library = Some (Parsed metadata_json))
    by (vm_compute; reflexivity).
  assert (Hheld : refs (VRef 0) ⊆ dom (objects with_entries)).
  { cbn. unfold entries_held. set_solver. }
  split; [exact Hfile |]. split; [exact entries_held_closed |]. split; [exact Hheld |].
  split; [exact (quickAccess_set_local (VRef 0)) |].
  destruct (update_works_on_a_clone library (quickAccess_set (VRef 0)) with_entries
              metadata_json (refs (VRef 0)) Hfile entries_held_closed Hheld
              (quickAccess_set_local (VRef 0)))
    as (h2 & copy & Hclone & _ & Hreach & _).
  exists h2, copy. split; [exact Hclone | exact Hreach].
Defined.

(** The run on that library: the clone is stamped and written, and the
    object read from the file still carries the old time. *)
Lemma touch_run :
  let r := updateLibraryMetadata library (touch 9) on_disk in
  fst r = Returns (VRef 7)
  /\ objects (snd r) !! 3%nat
     = Some (NObj {[ "folders" := VRef 2; "modificationTime" := VPrim (PNum 5) ]})
  /\ objects (snd r) !! 7%nat
     = Some (NObj {[ "folders" := VRef 6; "modificationTime" := VPrim (PNum 9) ]}).
Proof. cbv zeta. split; [| split]; vm_compute; reflexivity. Qed.

(** The run of [BareQuickAccess.set]: the clone, at [9], now holds the
    caller's array, which is as it was; the object read from the file,
    at [5], holds no [quickAccess]. *)
Lemma quickAccess_set_run :
  let r := updateLibraryMetadata library (quickAccess_set (VRef 0)) with_entries in
  fst r = Returns (VRef 9)
  /\ objects (snd r) !! 9%nat
     = Some (NObj {[ "folders" := VRef 8; "modificationTime" := VPrim (PNum 5);
                     "quickAccess" := VRef 0 ]})
  /\ objects (snd r) !! 5%nat
     = Some (NObj {[ "folders" := VRef 4; "modificationTime" := VPrim (PNum 5) ]})
  /\ objects (snd r) !! 0%nat = Some (NArr [VRef 1]).
Proof. cbv zeta. split; [| split; [| split]]; vm_compute; reflexivity. Qed.

End BareIOProps.

(* ===================================================================== *)
(** * Further properties *)
(* ===================================================================== *)

(** ** More on the filter engine: [filterItems], the convenience
       functions and the builder *)
Module FilterLaws.
Import Js Filter FilterProps.

(** An evaluation that returned [true]. *)
Definition holds (o : outcome bool) : bool :=
  match o with Returns true => true | _ => false end.

(** The filter [new ItemFilterBuilder().where(p).m(v).build()] is *)
Definition one_rule (rule : FilterRule) : ItemFilter :=
  {| conditions := [{| rules := [rule]; cmatch := AND |}]; fmatch := AND |}.

Lemma traverse_returns {A B} (f : A -> outcome B) (xs : list A) (ys : list B) :
  traverse f xs = Returns ys -> Forall2 (fun x y => f x = Returns y) xs ys.
Proof.
  revert ys. induction xs as [| x xs IH]; intros ys; cbn.
  - intros [= <-]. constructor.
  - destruct (f x) as [y | e |] eqn:Hx; cbn; try discriminate.
    destruct (traverse f xs) as [ys' | e |]; cbn; try discriminate.
    intros [= <-]. constructor; [exact Hx | now apply IH].
Qed.

Lemma traverse_app {A B} (f : A -> outcome B) (xs ys : list A) :
  traverse f (xs ++ ys)
  = (xs' ← traverse f xs; ys' ← traverse f ys; Returns (xs' ++ ys')).
Proof.
  induction xs as [| x xs IH]; cbn.
  - destruct (traverse f ys); reflexivity.
  - destruct (f x) as [y | e |]; cbn; try reflexivity.
    rewrite IH. destruct (traverse f xs) as [xs' | e |]; cbn; try reflexivity.
    destruct (traverse f ys); reflexivity.
Qed.

(** *** [filterItems] *)

Lemma filterItems_cons (item : FilterableItem) (items : list FilterableItem)
    (f : ItemFilter) :
  filterItems (item :: items) f
  = (keep ← matchesFilter item f;
     kept ← filterItems items f;
     Returns (if (keep : bool) then item :: kept else kept)).
Proof. reflexivity. Qed.

Lemma filterItems_spec (items : list FilterableItem) (f : ItemFilter)
    (kept : list FilterableItem) :
  filterItems items f = Returns kept
  <-> Forall (fun item => exists b, matchesFilter item f = Returns b) items
      /\ kept = List.filter (fun item => holds (matchesFilter item f)) items.
Proof.
  revert kept. induction items as [| item items IH]; intros kept.
  - cbn. split.
    + intros [= <-]. split; [constructor | reflexivity].
    + intros [_ ->]. reflexivity.
  - rewrite filterItems_cons. cbn [List.filter]. split.
    + destruct (matchesFilter item f) as [b | e |] eqn:Hitem; cbn; try discriminate.
      destruct (filterItems items f) as [kept' | e |]; cbn; try discriminate.
      intros [= <-]. destruct (proj1 (IH kept') eq_refl) as [Hall ->].
      split; [constructor; eauto |]. destruct b; reflexivity.
    + intros [Hall ->]. apply Forall_cons in Hall as [[b Hb] Hall].
      rewrite Hb. cbn.
      rewrite (proj2 (IH _) (conj Hall eq_refl)). cbn. destruct b; reflexivity.
Qed.

(** [X1] [filterItems] returns exactly when the filter evaluates on every
    item, and then it returns the items on which the filter holds, in
    the order they came in: it drops items and does nothing else. *)
Theorem filterItems_keeps_the_matching_items :
  forall (items kept : list FilterableItem) (f : ItemFilter),
    filterItems items f = Returns kept
    <-> Forall (fun item => exists b, matchesFilter item f = Returns b) items
        /\ kept = List.filter (fun item => holds (matchesFilter item f)) items.
Proof. intros items kept f. apply filterItems_spec. Qed.

Lemma matchesCondition_returns (item : FilterableItem) (c : FilterCondition) (b : bool) :
  matchesCondition item c = Returns b ->
  forall rule, In rule (rules c) -> exists r, matchesRule item rule = Returns r.
Proof.
  unfold matchesCondition. destruct (rules c) as [| r0 rs] eqn:Hrules.
  - intros _ rule [].
  - cbn [length Nat.eqb].
    destruct (traverse (matchesRule item) (r0 :: rs)) as [results | e |] eqn:Htr;
      cbn; try discriminate.
    intros _ rule Hin. apply traverse_returns in Htr.
    apply Forall2_Forall_l with (Q := fun x => exists r, matchesRule item x = Returns r)
      in Htr.
    + rewrite Forall_forall in Htr. apply Htr. now apply list_elem_of_In.
    + apply Forall_forall. intros y _ x Hx. eauto.
Qed.

Lemma matchesFilter_returns (item : FilterableItem) (f : ItemFilter) (b : bool) :
  matchesFilter item f = Returns b ->
  forall c, In c (conditions f) -> exists r, matchesCondition item c = Returns r.
Proof.
  unfold matchesFilter. destruct (conditions f) as [| c0 cs] eqn:Hcs.
  - intros _ c [].
  - cbn [length Nat.eqb].
    destruct (traverse (matchesCondition item) (c0 :: cs)) as [results | e |] eqn:Htr;
      cbn; try discriminate.
    intros _ c Hin. apply traverse_returns in Htr.
    apply Forall2_Forall_l with (Q := fun x => exists r, matchesCondition item x = Returns r)
      in Htr.
    + rewrite Forall_forall in Htr. apply Htr. now apply list_elem_of_In.
    + apply Forall_forall. intros y _ x Hx. eauto.
Qed.

(** [X2] No evaluation is skipped: the rules of a condition and the
    conditions of a filter are all evaluated before they are combined,
    under [AND] and under [OR] alike.  So when one rule throws on one of
    the items, [filterItems] does not return, whatever the other rules
    say. *)
Theorem a_throwing_rule_is_never_skipped :
  forall (items : list FilterableItem) (f : ItemFilter) (item : FilterableItem)
         (c : FilterCondition) (rule : FilterRule) (e : JsError),
    In item items -> In c (conditions f) -> In rule (rules c) ->
    matchesRule item rule = Throws e ->
    forall kept, filterItems items f <> Returns kept.
Proof.
  intros items f item c rule e Hitem Hc Hrule Hthrows kept Hret.
  apply filterItems_spec in Hret as [Hall _].
  rewrite List.Forall_forall in Hall. destruct (Hall item Hitem) as [b Hb].
  destruct (matchesFilter_returns item f b Hb c Hc) as [r Hr].
  destruct (matchesCondition_returns item c r Hr rule Hrule) as [r' Hr'].
  congruence.
Qed.

(** A name that contains ["wall"] or matches the broken pattern ["("]. *)
Definition wall_or_broken : ItemFilter :=
  {| conditions := [{| rules := [rule_of name contains (JStr "Wall")]; cmatch := AND |};
                    {| rules := [rule_of name matches (JStr "(")]; cmatch := AND |}];
     fmatch := OR |}.

Lemma a_throwing_rule_is_never_skipped_witness :
  matchesRule wallpaper (rule_of name contains (JStr "Wall")) = Returns true
  /\ forall kept, filterItems [wallpaper] wall_or_broken <> Returns kept.
Proof.
  split; [reflexivity |].
  apply (a_throwing_rule_is_never_skipped [wallpaper] wall_or_broken wallpaper
           {| rules := [rule_of name matches (JStr "(")]; cmatch := AND |}
           (rule_of name matches (JStr "(")) SyntaxError).
  - left. reflexivity.
  - right. left. reflexivity.
  - left. reflexivity.
  - reflexivity.
Defined.

(** *** Filters put together *)

(** Under [AND] the early return on an empty sequence is what the
    conjunction gives anyway. *)
Lemma matchesFilter_AND (item : FilterableItem) (f : ItemFilter) :
  fmatch f = AND ->
  matchesFilter item f
  = (results ← traverse (matchesCondition item) (conditions f);
     Returns (forallb (fun b => b) results)).
Proof.
  intros Hm. unfold matchesFilter. rewrite Hm.
  destruct (conditions f); reflexivity.
Qed.

Lemma matchesFilter_OR (item : FilterableItem) (f : ItemFilter) :
  fmatch f = OR -> conditions f <> [] ->
  matchesFilter item f
  = (results ← traverse (matchesCondition item) (conditions f);
     Returns (existsb (fun b => b) results)).
Proof.
  intros Hm Hne. unfold matchesFilter. rewrite Hm.
  destruct (conditions f); [contradiction | reflexivity].
Qed.

Lemma bind_returns {A B} (m : outcome A) (k : A -> outcome B) (b : B) :
  (m ≫= k) = Returns b -> exists a, m = Returns a /\ k a = Returns b.
Proof. destruct m as [a | e |]; cbn; try discriminate. eauto. Qed.

Lemma conditions_of_all (item : FilterableItem) (fs : list ItemFilter) (bs : list bool) :
  Forall (fun f => fmatch f = AND) fs ->
  Forall2 (fun f b => matchesFilter item f = Returns b) fs bs ->
  exists results,
    traverse (matchesCondition item) (flat_map conditions fs) = Returns results
    /\ forallb (fun b => b) results = forallb (fun b => b) bs.
Proof.
  intros Hmode Hall. induction Hall as [| f b fs bs Hf _ IH].
  - exists []. split; reflexivity.
  - apply Forall_cons in Hmode as [Hm Hmode]. destruct (IH Hmode) as (rs & Hrs & Heq).
    rewrite (matchesFilter_AND item f Hm) in Hf.
    apply bind_returns in Hf as (rf & Hrf & [= <-]).
    exists (rf ++ rs). cbn [flat_map]. rewrite traverse_app, Hrf, Hrs. cbn.
    split; [reflexivity |]. rewrite forallb_app. cbn [forallb]. now rewrite Heq.
Qed.

(** [X3] [combineFilters] is the conjunction of filters that are
    themselves conjunctions: when every filter is in [AND] mode and
    evaluates on the item, the combined filter evaluates to the
    conjunction of their results (a filter without conditions counting
    as true, and no filter at all as true). *)
Theorem combineFilters_is_the_conjunction :
  forall (item : FilterableItem) (fs : list ItemFilter) (bs : list bool),
    Forall (fun f => fmatch f = AND) fs ->
    Forall2 (fun f b => matchesFilter item f = Returns b) fs bs ->
    matchesFilter item (combineFilters fs) = Returns (forallb (fun b => b) bs).
Proof.
  intros item fs bs Hmode Hall.
  destruct (conditions_of_all item fs bs Hmode Hall) as (rs & Hrs & Heq).
  rewrite matchesFilter_AND by reflexivity.
  unfold combineFilters. cbn [conditions]. rewrite Hrs. cbn. now rewrite Heq.
Qed.

Definition png_only : ItemFilter := one_rule (rule_of ext is_ (JStr "png")).
Definition rated_4 : ItemFilter := one_rule (rule_of star gte (JNum 4)).

Definition png_photo : FilterableItem :=
  fun p => match p with
           | ext => JStr "png"
           | star => JNum 3
           | name => JStr "photo"
           | _ => JUndefined
           end.

Lemma combineFilters_is_the_conjunction_witness :
  matchesFilter png_photo (combineFilters [png_only; rated_4]) = Returns false
  /\ matchesFilter png_photo (combineFilters [png_only]) = Returns true.
Proof.
  split.
  - apply (combineFilters_is_the_conjunction png_photo [png_only; rated_4] [true; false]).
    + repeat constructor.
    + repeat constructor.
  - apply (combineFilters_is_the_conjunction png_photo [png_only] [true]).
    + repeat constructor.
    + repeat constructor.
Defined.

Lemma conditions_of_any (item : FilterableItem) (fs : list ItemFilter) (bs : list bool) :
  Forall (fun f => fmatch f = OR /\ conditions f <> []) fs ->
  Forall2 (fun f b => matchesFilter item f = Returns b) fs bs ->
  exists results,
    traverse (matchesCondition item) (flat_map conditions fs) = Returns results
    /\ existsb (fun b => b) results = existsb (fun b => b) bs.
Proof.
  intros Hmode Hall. induction Hall as [| f b fs bs Hf _ IH].
  - exists []. split; reflexivity.
  - apply Forall_cons in Hmode as [[Hm Hne] Hmode].
    destruct (IH Hmode) as (rs & Hrs & Heq).
    rewrite (matchesFilter_OR item f Hm Hne) in Hf.
    apply bind_returns in Hf as (rf & Hrf & [= <-]).
    exists (rf ++ rs). cbn [flat_map]. rewrite traverse_app, Hrf, Hrs. cbn.
    split; [reflexivity |]. rewrite existsb_app. cbn [existsb]. now rewrite Heq.
Qed.

(** [X4] [anyOfFilters] is the disjunction of filters that are themselves
    disjunctions and have a condition each: the combined filter
    evaluates to the disjunction of their results.  A filter without
    conditions, which alone matches every item, adds nothing to the
    combination: beside a filter [f] in [OR] mode it leaves [f]. *)
Theorem anyOfFilters_is_the_disjunction :
  forall (item : FilterableItem) (fs : list ItemFilter) (bs : list bool),
    fs <> [] ->
    Forall (fun f => fmatch f = OR /\ conditions f <> []) fs ->
    Forall2 (fun f b => matchesFilter item f = Returns b) fs bs ->
    matchesFilter item (anyOfFilters fs) = Returns (existsb (fun b => b) bs)
    /\ forall (empty : ItemFilter),
         conditions empty = [] ->
         matchesFilter item empty = Returns true
         /\ matchesFilter item (anyOfFilters (empty :: fs))
            = Returns (existsb (fun b => b) bs).
Proof.
  intros item fs bs Hfs Hmode Hall.
  destruct (conditions_of_any item fs bs Hmode Hall) as (rs & Hrs & Heq).
  assert (Hne : flat_map conditions fs <> []).
  { destruct fs as [| f fs]; [contradiction |].
    apply Forall_cons in Hmode as [[_ Hne] _]. cbn [flat_map].
    destruct (conditions f); [contradiction | discriminate]. }
  assert (Hany : matchesFilter item (anyOfFilters fs)
                 = Returns (existsb (fun b => b) bs)).
  { rewrite matchesFilter_OR; [| reflexivity | exact Hne].
    unfold anyOfFilters. cbn [conditions]. rewrite Hrs. cbn. now rewrite Heq. }
  split; [exact Hany |].
  intros empty Hempty. split.
  - unfold matchesFilter. now rewrite Hempty.
  - unfold anyOfFilters in *. cbn [flat_map]. rewrite Hempty. exact Hany.
Qed.

Definition named_photo : ItemFilter :=
  {| conditions := [{| rules := [rule_of name is_ (JStr "photo")]; cmatch := AND |}];
     fmatch := OR |}.
Definition jpg_only : ItemFilter :=
  {| conditions := [{| rules := [rule_of ext is_ (JStr "jpg")]; cmatch := AND |}];
     fmatch := OR |}.

Lemma anyOfFilters_is_the_disjunction_witness :
  matchesFilter png_photo (anyOfFilters [jpg_only; named_photo]) = Returns true
  /\ matchesFilter png_photo (anyOfFilters [{| conditions := []; fmatch := OR |}; jpg_only])
     = Returns false.
Proof.
  assert (Hmode : forall f, In f [jpg_only; named_photo] ->
                            fmatch f = OR /\ conditions f <> []).
  { intros f [<- | [<- | []]]; split; (reflexivity || discriminate). }
  split.
  - refine (proj1 (anyOfFilters_is_the_disjunction png_photo [jpg_only; named_photo]
                     [false; true] _ _ _)).
    + discriminate.
    + apply List.Forall_forall. exact Hmode.
    + repeat constructor.
  - refine (proj2 (proj2 (anyOfFilters_is_the_disjunction png_photo [jpg_only] [false] _ _ _)
                     {| conditions := []; fmatch := OR |} eq_refl)).
    + discriminate.
    + repeat constructor. discriminate.
    + repeat constructor.
Defined.

(** *** The convenience functions *)

Lemma one_rule_matches (item : FilterableItem) (rule : FilterRule) :
  matchesFilter item (one_rule rule) = matchesRule item rule.
Proof.
  unfold matchesFilter, one_rule, matchesCondition. cbn.
  destruct (matchesRule item rule) as [[|] | e |]; reflexivity.
Qed.

Lemma filterItems_one_rule (items : list FilterableItem) (rule : FilterRule)
    (keep : FilterableItem -> bool) :
  (forall item, matchesRule item rule = Returns (keep item)) ->
  filterItems items (one_rule rule) = Returns (List.filter keep items).
Proof.
  intros Hrule. apply filterItems_spec. split.
  - apply List.Forall_forall. intros item _. exists (keep item).
    now rewrite one_rule_matches.
  - apply List.filter_ext. intros item. rewrite one_rule_matches, Hrule.
    destruct (keep item); reflexivity.
Qed.

Lemma filter_nothing {A} (keep : A -> bool) (xs : list A) :
  (forall x, keep x = false) -> List.filter keep xs = [].
Proof.
  intros Hkeep. induction xs as [| x xs IH]; cbn; [reflexivity |].
  now rewrite Hkeep.
Qed.

(** The item's value is an array that has one of the wanted values. *)
Definition shares_a_member (v wanted : JsVal) : bool :=
  match v, wanted with
  | JArr _ have, JArr _ want => existsb (fun w => array_includes have w) want
  | _, _ => false
  end.

Lemma includesAny_rule (p : FilterProperty) (wanted : JsVal) (item : FilterableItem) :
  matchesRule item (rule_of p includesAny wanted)
  = Returns (shares_a_member (item p) wanted).
Proof.
  unfold matchesRule, rule_of, shares_a_member. cbn [property method value].
  destruct (item p); try reflexivity; destruct wanted; reflexivity.
Qed.

(** [X5] [filterByTags] and [filterByFolders] never throw.  They keep, in
    order, the items whose [tags] (whose [folders]) is an array that has
    at least one of the wanted values; so with an empty array of wanted
    values they keep no item at all. *)
Theorem filterByTags_keeps_items_sharing_a_value :
  forall (items : list FilterableItem),
    (forall wanted,
        filterByTags items wanted
        = Returns (List.filter (fun item => shares_a_member (item tags) wanted) items)
        /\ filterByFolders items wanted
           = Returns (List.filter (fun item => shares_a_member (item folders) wanted) items))
    /\ (forall ref,
           filterByTags items (JArr ref []) = Returns []
           /\ filterByFolders items (JArr ref []) = Returns []).
Proof.
  intros items.
  assert (Hboth : forall wanted,
             filterByTags items wanted
             = Returns (List.filter (fun item => shares_a_member (item tags) wanted) items)
             /\ filterByFolders items wanted
                = Returns (List.filter (fun item => shares_a_member (item folders) wanted)
                             items)).
  { intros wanted. split.
    - change (filterByTags items wanted)
        with (filterItems items (one_rule (rule_of tags includesAny wanted))).
      apply filterItems_one_rule. intros item. apply includesAny_rule.
    - change (filterByFolders items wanted)
        with (filterItems items (one_rule (rule_of folders includesAny wanted))).
      apply filterItems_one_rule. intros item. apply includesAny_rule. }
  split; [exact Hboth |].
  intros ref. destruct (Hboth (JArr ref [])) as [-> ->].
  split; f_equal; apply filter_nothing; intros item; unfold shares_a_member;
    match goal with |- context [item ?p] => destruct (item p) end; reflexivity.
Qed.

Lemma substring_all (s : string) : String.substring 0 (String.length s) s = s.
Proof. induction s as [| c s IH]; cbn; [reflexivity | now rewrite IH]. Qed.

Lemma slice1_after_dot (e : string) : slice1 (String "." e) = e.
Proof.
  unfold slice1. cbn [String.length]. rewrite Nat.sub_succ, Nat.sub_0_r.
  cbn [String.substring]. apply substring_all.
Qed.

Lemma starts_with_its_dot (e : string) : Js.startsWith (String "." e) "." = true.
Proof. unfold Js.startsWith. cbn. destruct e; reflexivity. Qed.

Lemma is_rule (p : FilterProperty) (r : JsVal) (item : FilterableItem) :
  matchesRule item (rule_of p is_ r) = Returns (strict_equals (item p) r).
Proof. reflexivity. Qed.

(** [X6] [filterByExtension] never throws.  It keeps the items whose
    [ext] is exactly the extension asked for, letter case included, and
    one leading dot of the extension asked for is not counted: [".png"]
    and ["png"] select the same items. *)
Theorem filterByExtension_ignores_one_leading_dot :
  forall (items : list FilterableItem) (e : string),
    Js.startsWith e "." = false ->
    filterByExtension items e
    = Returns (List.filter (fun item => strict_equals (item ext) (JStr e)) items)
    /\ filterByExtension items (String "." e) = filterByExtension items e.
Proof.
  intros items e Hdot.
  assert (Hplain : filterByExtension items e
                   = Returns (List.filter
                                (fun item => strict_equals (item ext) (JStr e)) items)).
  { unfold filterByExtension. rewrite Hdot.
    change (filterItems items (one_rule (rule_of ext is_ (JStr e)))
            = Returns (List.filter
                         (fun item => strict_equals (item ext) (JStr e)) items)).
    apply filterItems_one_rule. intros item. apply is_rule. }
  split; [exact Hplain |].
  rewrite Hplain. unfold filterByExtension.
  rewrite starts_with_its_dot.
  rewrite slice1_after_dot.
  change (filterItems items (one_rule (rule_of ext is_ (JStr e)))
          = Returns (List.filter
                       (fun item => strict_equals (item ext) (JStr e)) items)).
  apply filterItems_one_rule. intros item. apply is_rule.
Qed.

Definition upper_case_png : FilterableItem := item_with ext (JStr "PNG").

Lemma filterByExtension_ignores_one_leading_dot_witness :
  filterByExtension [png_photo; upper_case_png] "png" = Returns [png_photo]
  /\ filterByExtension [png_photo; upper_case_png] ".png"
     = filterByExtension [png_photo; upper_case_png] "png".
Proof.
  destruct (filterByExtension_ignores_one_leading_dot [png_photo; upper_case_png] "png"
              eq_refl) as [Hkeep Hdot].
  split; [| exact Hdot]. rewrite Hkeep. reflexivity.
Defined.

Lemma matches_rule_on_invalid (pattern : string) (item : FilterableItem) :
  Regex.RegExp_new pattern "i" = Regex.Invalid ->
  matchesRule item (rule_of name matches (JStr pattern))
  = match typeof (item name) with
    | TString => Throws SyntaxError
    | _ => Returns false
    end.
Proof.
  intros Hbad. unfold matchesRule, rule_of. cbn [property method value ToString].
  rewrite Hbad. destruct (item name) as [| | [] | | | |]; reflexivity.
Qed.

(** [X7] [filterByName] compiles its pattern once for each item whose
    [name] is a string, and not before: with a pattern that is no valid
    regular expression it throws a [SyntaxError] as soon as one of the
    items has a string for a name, and returns the empty list when none
    has, the empty list of items included. *)
Theorem filterByName_compiles_the_pattern_per_item :
  forall (items : list FilterableItem) (pattern : RegExpOrString),
    Regex.RegExp_new (stored_pattern pattern) "i" = Regex.Invalid ->
    (List.Forall (fun item => typeof (item name) <> TString) items ->
     filterByName items pattern = Returns [])
    /\ (List.Exists (fun item => typeof (item name) = TString) items ->
        filterByName items pattern = Throws SyntaxError).
Proof.
  intros items pattern Hbad.
  assert (Hbuilt : forall xs,
             filterByName xs pattern
             = filterItems xs (one_rule (rule_of name matches (JStr (stored_pattern pattern))))).
  { intros xs. destruct pattern; reflexivity. }
  rewrite !Hbuilt. split.
  - intros Hnone. induction Hnone as [| item rest Hitem _ IH]; [reflexivity |].
    rewrite filterItems_cons, one_rule_matches, (matches_rule_on_invalid _ _ Hbad), IH.
    destruct (typeof (item name)); try reflexivity. contradiction.
  - intros Hsome. induction items as [| item rest IH].
    + inversion Hsome.
    + rewrite filterItems_cons, one_rule_matches, (matches_rule_on_invalid _ _ Hbad).
      destruct (typeof (item name)) eqn:Htype; try reflexivity;
        (rewrite IH; [reflexivity |]);
        inversion Hsome as [? ? Hhead | ? ? Htail]; subst; try assumption; congruence.
Qed.

Lemma filterByName_compiles_the_pattern_per_item_witness :
  filterByName [item_with name (JNum 7)] (OfString "(") = Returns []
  /\ filterByName [item_with name (JNum 7); wallpaper] (OfString "(") = Throws SyntaxError.
Proof.
  split.
  - apply (filterByName_compiles_the_pattern_per_item
             [item_with name (JNum 7)] (OfString "(") eq_refl).
    repeat constructor; discriminate.
  - apply (filterByName_compiles_the_pattern_per_item
             [item_with name (JNum 7); wallpaper] (OfString "(") eq_refl).
    apply List.Exists_cons_tl. apply List.Exists_cons_hd. reflexivity.
Defined.

(** The item's value is a number between the two bounds, both
    included. *)
Definition within (v : JsVal) (lo hi : Z) : bool :=
  match v with
  | JNum t => (lo <=? t) && (t <=? hi)
  | _ => false
  end.

Definition at_least (v : JsVal) (lo : Z) : bool :=
  match v with
  | JNum t => lo <=? t
  | _ => false
  end.

Lemma gte_rule (p : FilterProperty) (lo : Z) (item : FilterableItem) :
  matchesRule item (rule_of p gte (JNum lo)) = Returns (at_least (item p) lo).
Proof.
  unfold matchesRule, rule_of, at_least. cbn [property method value].
  destruct (item p) as [| | b | t | s | r elems | r]; try reflexivity.
  cbn. f_equal. unfold Z.geb, Z.leb. rewrite (Z.compare_antisym lo t).
  destruct (lo ?= t); reflexivity.
Qed.

Lemma between_rule (p : FilterProperty) (ref : nat) (lo hi : Z) (item : FilterableItem) :
  matchesRule item (rule_of p between (JArr ref [JNum lo; JNum hi]))
  = Returns (within (item p) lo hi).
Proof.
  unfold matchesRule, rule_of, within. cbn [property method value].
  destruct (item p) as [| | b | t | s | r elems | r]; try reflexivity.
  cbn. replace (t >=? lo) with (lo <=? t).
  - destruct (lo <=? t); reflexivity.
  - unfold Z.geb, Z.leb. rewrite (Z.compare_antisym lo t).
    destruct (lo ?= t); reflexivity.
Qed.

(** [X8] [filterByRating] never throws.  It keeps the items whose [star]
    is a number not below the minimum; an item without a rating, whose
    [star] is [undefined], is dropped whatever the minimum, zero and
    negative ones included. *)
Theorem filterByRating_drops_the_unrated :
  forall (items : list FilterableItem) (minStars : Z),
    filterByRating items minStars
    = Returns (List.filter (fun item => at_least (item star) minStars) items)
    /\ forall item,
         item star = JUndefined ->
         filterByRating (item :: items) minStars = filterByRating items minStars.
Proof.
  intros items minStars.
  assert (Hspec : forall xs, filterByRating xs minStars
                  = Returns (List.filter (fun item => at_least (item star) minStars) xs)).
  { intros xs.
    change (filterByRating xs minStars)
      with (filterItems xs (one_rule (rule_of star gte (JNum minStars)))).
    apply filterItems_one_rule. intros item. apply gte_rule. }
  split; [apply Hspec |].
  intros item Hstar. rewrite !Hspec. cbn [List.filter]. now rewrite Hstar.
Qed.

(** [X9] [filterByImportDate] never throws.  It keeps the items whose
    [importedAt] is a number from [from] to [to], both ends included,
    a [Date] standing for its time value; when [to] is before [from] it
    keeps no item. *)
Theorem filterByImportDate_is_an_inclusive_range :
  forall (items : list FilterableItem) (from to : DateOrNumber) (ref : nat),
    filterByImportDate items from to ref
    = Returns (List.filter
                 (fun item => within (item importedAt) (timestamp_of from) (timestamp_of to))
                 items)
    /\ (timestamp_of to < timestamp_of from ->
        filterByImportDate items from to ref = Returns []).
Proof.
  intros items from to ref.
  assert (Hspec : filterByImportDate items from to ref
                  = Returns (List.filter
                               (fun item => within (item importedAt) (timestamp_of from)
                                              (timestamp_of to)) items)).
  { change (filterByImportDate items from to ref)
      with (filterItems items
              (one_rule (rule_of importedAt between
                           (JArr ref [JNum (timestamp_of from); JNum (timestamp_of to)])))).
    apply filterItems_one_rule. intros item. apply between_rule. }
  split; [exact Hspec |].
  intros Hlt. rewrite Hspec. f_equal. apply filter_nothing. intros item.
  unfold within. destruct (item importedAt); try reflexivity.
  apply andb_false_iff. rewrite !Z.leb_gt. lia.
Qed.

Lemma isEmpty_rule (p : FilterProperty) (item : FilterableItem) :
  matchesRule item (rule_of p isEmpty JUndefined) = Returns (isEmptyValue (item p)).
Proof. reflexivity. Qed.

Lemma filter_filter_nothing {A} (keep keep' : A -> bool) (xs : list A) :
  (forall x, keep x = true -> keep' x = false) ->
  List.filter keep' (List.filter keep xs) = [].
Proof.
  intros Hex. induction xs as [| x xs IH]; cbn; [reflexivity |].
  destruct (keep x) eqn:Hx; [| exact IH]. cbn. now rewrite (Hex x Hx).
Qed.

(** [X10] [filterUntagged] and [filterUnfiled] never throw.  They keep the
    items whose [tags] (whose [folders]) is an empty array, an empty
    string, [null] or [undefined]; none of the items [filterUntagged]
    keeps is kept by [filterByTags], whatever tags are asked for. *)
Theorem filterUntagged_keeps_what_filterByTags_drops :
  forall (items : list FilterableItem),
    filterUntagged items
    = Returns (List.filter (fun item => isEmptyValue (item tags)) items)
    /\ filterUnfiled items
       = Returns (List.filter (fun item => isEmptyValue (item folders)) items)
    /\ forall untagged wanted,
         filterUntagged items = Returns untagged ->
         filterByTags untagged wanted = Returns [].
Proof.
  intros items.
  assert (Huntagged : filterUntagged items
                      = Returns (List.filter (fun item => isEmptyValue (item tags)) items)).
  { change (filterUntagged items)
      with (filterItems items (one_rule (rule_of tags isEmpty JUndefined))).
    apply filterItems_one_rule. intros item. apply isEmpty_rule. }
  split; [exact Huntagged |]. split.
  - change (filterUnfiled items)
      with (filterItems items (one_rule (rule_of folders isEmpty JUndefined))).
    apply filterItems_one_rule. intros item. apply isEmpty_rule.
  - intros untagged wanted. rewrite Huntagged. intros [= <-].
    change (filterByTags ?xs wanted)
      with (filterItems xs (one_rule (rule_of tags includesAny wanted))).
    rewrite (filterItems_one_rule _ _ (fun item => shares_a_member (item tags) wanted))
      by (intros item; apply includesAny_rule).
    f_equal. apply filter_filter_nothing. intros item.
    unfold isEmptyValue, shares_a_member.
    destruct (item tags) as [| | b | t | s | r elems | r]; try reflexivity; try discriminate.
    destruct wanted; try reflexivity.
    destruct elems; [| discriminate]. intros _.
    match goal with |- existsb _ ?l = false => induction l as [| w l IH] end;
      [reflexivity | exact IH].
Qed.

(** *** The builder *)

(** [new ItemFilterBuilder().where(a).ma(va).and(b).mb(vb).or(c).mc(vc).and(d).md(vd).build()],
    each rule given by its property, method and value. *)
Definition where_and_or_and (ra rb rc rd : FilterRule) : ItemFilter :=
  let (b1, w1) := where_ (property ra) new_builder in
  let b2 := addRule w1 (method ra) (value ra) b1 in
  let (b3, w2) := and_ (property rb) b2 in
  let b4 := addRule w2 (method rb) (value rb) b3 in
  let (b5, w3) := or_ (property rc) b4 in
  let b6 := addRule w3 (method rc) (value rc) b5 in
  let (b7, w4) := and_ (property rd) b6 in
  build (addRule w4 (method rd) (value rd) b7).

(** [new ItemFilterBuilder().where(a).ma(va).where(b).mb(vb)], and the
    same followed by [.or(c).mc(vc)], built. *)
Definition where_where (ra rb : FilterRule) : ItemFilterBuilder :=
  let (b1, w1) := where_ (property ra) new_builder in
  let b2 := addRule w1 (method ra) (value ra) b1 in
  let (b3, w2) := where_ (property rb) b2 in
  addRule w2 (method rb) (value rb) b3.

Definition where_where_or (ra rb rc : FilterRule) : ItemFilter :=
  let (b5, w3) := or_ (property rc) (where_where ra rb) in
  build (addRule w3 (method rc) (value rc) b5).

Lemma where_and_or_and_built (ra rb rc rd : FilterRule) :
  where_and_or_and ra rb rc rd
  = {| conditions := [{| rules := [ra; rb]; cmatch := AND |};
                      {| rules := [rc; rd]; cmatch := AND |}];
       fmatch := OR |}.
Proof. destruct ra, rb, rc, rd. reflexivity. Qed.

Lemma where_where_built (ra rb rc : FilterRule) :
  build (where_where ra rb)
  = {| conditions := [{| rules := [ra]; cmatch := AND |};
                      {| rules := [rb]; cmatch := AND |}];
       fmatch := AND |}
  /\ where_where_or ra rb rc
     = {| conditions := [{| rules := [ra]; cmatch := AND |};
                         {| rules := [rb]; cmatch := AND |};
                         {| rules := [rc]; cmatch := AND |}];
          fmatch := OR |}.
Proof. destruct ra, rb, rc. split; reflexivity. Qed.

(** [X11] What a chain of the builder means.  [and] adds its rule to the
    condition in hand and [or] opens a new condition, so
    [where(a).and(b).or(c).and(d)] holds when [a] and [b] hold or [c]
    and [d] do.  [or] also switches the whole filter to [OR]: two
    conditions opened by [where] are a conjunction, and become a
    disjunction, with the new one, once [or] is called. *)
Theorem builder_chain_is_a_disjunction_of_conjunctions :
  forall (item : FilterableItem) (ra rb rc rd : FilterRule) (a b c d : bool),
    matchesRule item ra = Returns a -> matchesRule item rb = Returns b ->
    matchesRule item rc = Returns c -> matchesRule item rd = Returns d ->
    matchesFilter item (where_and_or_and ra rb rc rd) = Returns ((a && b) || (c && d))
    /\ matchesFilter item (build (where_where ra rb)) = Returns (a && b)
    /\ matchesFilter item (where_where_or ra rb rc) = Returns (a || b || c).
Proof.
  intros item ra rb rc rd a b c d Ha Hb Hc Hd.
  rewrite where_and_or_and_built.
  destruct (where_where_built ra rb rc) as [-> ->].
  unfold matchesFilter, matchesCondition. cbn. rewrite Ha, Hb, Hc, Hd. cbn.
  destruct a, b, c, d; repeat split; reflexivity.
Qed.

Lemma builder_chain_is_a_disjunction_of_conjunctions_witness :
  matchesFilter png_photo
    (where_and_or_and (rule_of ext is_ (JStr "jpg")) (rule_of star gte (JNum 1))
                      (rule_of name startsWith (JStr "ph")) (rule_of star lt (JNum 5)))
  = Returns true
  /\ matchesFilter png_photo
       (build (where_where (rule_of ext is_ (JStr "jpg")) (rule_of star gte (JNum 1))))
     = Returns false
  /\ matchesFilter png_photo
       (where_where_or (rule_of ext is_ (JStr "jpg")) (rule_of star gte (JNum 1))
                       (rule_of name startsWith (JStr "ph")))
     = Returns true.
Proof.
  exact (builder_chain_is_a_disjunction_of_conjunctions png_photo
           (rule_of ext is_ (JStr "jpg")) (rule_of star gte (JNum 1))
           (rule_of name startsWith (JStr "ph")) (rule_of star lt (JNum 5))
           false true true true eq_refl eq_refl eq_refl eq_refl).
Defined.

(** *** Relations between the methods *)

Lemma forallb_negb_existsb {A} (f : A -> bool) (xs : list A) :
  forallb (fun x => negb (f x)) xs = negb (existsb f xs).
Proof.
  induction xs as [| x xs IH]; cbn; [reflexivity |].
  rewrite IH. now destruct (f x).
Qed.

Lemma existsb_negb_forallb {A} (f : A -> bool) (xs : list A) :
  existsb (fun x => negb (f x)) xs = negb (forallb f xs).
Proof.
  induction xs as [| x xs IH]; cbn; [reflexivity |].
  rewrite IH. now destruct (f x).
Qed.

(** [X12] On two arrays the array methods are complements in pairs:
    [excludesAll] holds exactly when [includesAny] does not, and
    [excludesAny] exactly when [includesAll] does not.  When one side
    is not an array all four are false, so the pairs are complements on
    arrays only. *)
Theorem array_methods_are_complements_on_arrays :
  forall (item : FilterableItem) (p : FilterProperty) (r : JsVal),
    (isArray (item p) && isArray r = true ->
     (forall b, matchesRule item (rule_of p includesAny r) = Returns b ->
                matchesRule item (rule_of p excludesAll r) = Returns (negb b))
     /\ (forall b, matchesRule item (rule_of p includesAll r) = Returns b ->
                   matchesRule item (rule_of p excludesAny r) = Returns (negb b)))
    /\ (isArray (item p) && isArray r = false ->
        Forall (fun m => matchesRule item (rule_of p m r) = Returns false)
               [includesAny; includesAll; excludesAny; excludesAll]).
Proof.
  intros item p r. unfold matchesRule, rule_of. cbn [property method value]. split.
  - destruct (item p) as [| | b0 | t | s | ref have | ref]; try discriminate.
    destruct r as [| | b0 | t | s | ref' want | ref']; try discriminate.
    intros _. unfold some, every. split; intros b [= <-]; f_equal.
    + apply forallb_negb_existsb.
    + apply existsb_negb_forallb.
  - intros Hmismatch.
    destruct (item p) as [| | b0 | t | s | ref have | ref];
      try (repeat constructor);
      destruct r as [| | b0 | t | s | ref' want | ref'];
      try (repeat constructor); discriminate Hmismatch.
Qed.

Lemma prefix_of_substring (t s : string) :
  String.substring 0 (String.length t) s = t -> String.prefix t s = true.
Proof.
  revert s. induction t as [| c t IH]; intros s.
  - destruct s; reflexivity.
  - destruct s as [| c' s]; cbn; [discriminate |].
    intros [= <- Hrest]. destruct (ascii_dec c' c'); [now apply IH | contradiction].
Qed.

Lemma includes_of_substring (t s : string) (k : nat) :
  String.substring k (String.length t) s = t -> includes s t = true.
Proof.
  revert s. induction k as [| k IH]; intros s Hsub.
  - apply prefix_of_substring in Hsub.
    destruct s; cbn [includes]; rewrite Hsub; reflexivity.
  - destruct s as [| c s]; cbn [includes String.substring] in Hsub |- *.
    + rewrite <- Hsub. reflexivity.
    + rewrite (IH s Hsub). apply orb_true_r.
Qed.

Lemma includes_of_prefix (t s : string) :
  String.prefix t s = true -> includes s t = true.
Proof. intros H. destruct s; cbn [includes]; rewrite H; reflexivity. Qed.

(** [X13] A string that starts with, or ends with, the rule's value
    contains it: whenever [startsWith] or [endsWith] holds on an item,
    [contains] holds on it with the same value, and [notContains] does
    not. *)
Theorem startsWith_and_endsWith_imply_contains :
  forall (item : FilterableItem) (p : FilterProperty) (r : JsVal),
    matchesRule item (rule_of p startsWith r) = Returns true
    \/ matchesRule item (rule_of p endsWith r) = Returns true ->
    matchesRule item (rule_of p contains r) = Returns true
    /\ matchesRule item (rule_of p notContains r) = Returns false.
Proof.
  intros item p r. unfold matchesRule, rule_of. cbn [property method value].
  destruct (item p) as [| | b0 | t | s | ref have | ref];
    try (intros [H | H]; discriminate H).
  assert (Hincl : Js.startsWith s (ToString r) = true
                  \/ Js.endsWith s (ToString r) = true ->
                  includes s (ToString r) = true).
  { intros [H | H].
    - now apply includes_of_prefix.
    - unfold Js.endsWith in H. apply andb_true_iff in H as [_ H].
      apply String.eqb_eq in H. now apply includes_of_substring in H. }
  intros H. rewrite Hincl; [split; reflexivity |].
  destruct H as [[= ->] | [= ->]]; [left | right]; reflexivity.
Qed.

Lemma startsWith_and_endsWith_imply_contains_witness :
  matchesRule wallpaper (rule_of name contains (JStr ".png")) = Returns true
  /\ matchesRule wallpaper (rule_of name notContains (JStr "Wall")) = Returns false.
Proof.
  split.
  - apply (startsWith_and_endsWith_imply_contains wallpaper name (JStr ".png")).
    right. reflexivity.
  - apply (startsWith_and_endsWith_imply_contains wallpaper name (JStr "Wall")).
    left. reflexivity.
Defined.

End FilterLaws.

(** ** More on the subscription manager: change detection, timers and
       the life of a subscription *)
Module SubscribeLaws.
Import Subscribe.

(** *** [hasSelectionChanged] *)

Lemma differs_within_take (limit : nat) (prev curr : list string) :
  length prev = length curr ->
  differs_within limit prev curr = false <-> take limit prev = take limit curr.
Proof.
  revert prev curr. induction limit as [| k IH]; intros prev curr Hlen.
  - destruct prev, curr; cbn; split; reflexivity.
  - destruct prev as [| p prev], curr as [| c curr]; cbn in Hlen |- *;
      try discriminate; [split; reflexivity |].
    injection Hlen as Hlen. rewrite orb_false_iff, negb_false_iff, String.eqb_eq.
    rewrite (IH prev curr Hlen). split.
    + intros [-> ->]. reflexivity.
    + intros [= -> ->]. split; reflexivity.
Qed.

Lemma take_min_length {A} (k : nat) (xs : list A) :
  take (Nat.min k (length xs)) xs = take k xs.
Proof.
  destruct (Nat.le_gt_cases k (length xs)) as [Hle | Hgt].
  - now rewrite Nat.min_l.
  - rewrite Nat.min_r by lia. rewrite firstn_all. symmetry. apply take_ge. lia.
Qed.

(** [X14] What counts as a change of selection.  With [maxEqualLookups]
    at [-1] the ids are compared in full, in order: nothing is reported
    exactly when the two sequences of ids are equal.  With any other
    bound [k], nothing is reported exactly when the sequences have the
    same length and agree on their first [k] ids (on none when [k] is
    negative): a change further on, at equal length, goes unnoticed. *)
Theorem hasSelectionChanged_compares_a_prefix :
  forall (prev curr : list string),
    (hasSelectionChanged prev curr (-1) = false <-> prev = curr)
    /\ forall k, k <> -1 ->
         (hasSelectionChanged prev curr k = false
          <-> length prev = length curr
              /\ take (Z.to_nat k) prev = take (Z.to_nat k) curr).
Proof.
  intros prev curr. unfold hasSelectionChanged. split.
  - destruct (length prev =? length curr)%nat eqn:Hlen; cbn [negb].
    + apply Nat.eqb_eq in Hlen. cbn. rewrite Nat2Z.id.
      rewrite (differs_within_take _ _ _ Hlen), firstn_all, Hlen, firstn_all.
      reflexivity.
    + apply Nat.eqb_neq in Hlen. split; [discriminate |].
      intros ->. contradiction.
  - intros k Hk. destruct (length prev =? length curr)%nat eqn:Hlen; cbn [negb].
    + apply Nat.eqb_eq in Hlen.
      destruct (k =? -1) eqn:Hk'; [apply Z.eqb_eq in Hk'; contradiction |].
      rewrite (differs_within_take _ _ _ Hlen).
      replace (Z.to_nat (Z.min k (Z.of_nat (length prev))))
        with (Nat.min (Z.to_nat k) (length prev)) by lia.
      rewrite take_min_length, Hlen, take_min_length. tauto.
    + apply Nat.eqb_neq in Hlen. split; [discriminate | tauto].
Qed.

(** *** [getMinInterval] *)

Lemma getMinInterval_from (es : list WatcherEntry) (start : Z) :
  let m := fold_left (fun min e => if interval e <? min then interval e else min) es start in
  m <= start
  /\ (forall e, In e es -> m <= interval e)
  /\ (m = start \/ exists e, In e es /\ m = interval e).
Proof.
  revert start. induction es as [| e es IH]; intros start; cbn.
  - split; [lia |]. split; [intros e [] | now left].
  - destruct (IH (if interval e <? start then interval e else start))
      as (Hle & Hall & Hex).
    destruct (Z.ltb_spec (interval e) start) as [Hlt | Hge].
    + split; [lia |]. split.
      * intros e' [<- | Hin]; [exact Hle | now apply Hall].
      * right. destruct Hex as [-> | (e' & Hin & ->)]; eauto.
    + split; [lia |]. split.
      * intros e' [<- | Hin]; [lia | now apply Hall].
      * destruct Hex as [-> | (e' & Hin & ->)]; eauto.
Qed.

(** [X15] The period a poller is started with is the smallest of 500 and
    the intervals its subscribers asked for: it is at most 500 and at
    most each subscriber's interval, and it is 500 or the interval of
    one of them.  A subscriber cannot slow a poller down below two ticks
    a second. *)
Theorem getMinInterval_is_the_least_and_at_most_500 :
  forall (es : list WatcherEntry),
    getMinInterval es <= 500
    /\ (forall e, In e es -> getMinInterval es <= interval e)
    /\ (getMinInterval es = 500
        \/ exists e, In e es /\ getMinInterval es = interval e).
Proof. intros es. apply (getMinInterval_from es 500). Qed.

(** *** The manager over its lifetime

    The manager is driven through its public entry points and by its
    timers: a subscription, the [Unsubscribe] closure a subscription
    returned, and the ticks.  The library poller's tick is synchronous
    and runs only while its timer does; the ticks of the other pollers
    wait for the host, so one of them may finish after its poller was
    stopped. *)
Inductive step : SubscriptionManager -> SubscriptionManager -> Prop :=
  | step_subscribeLibrary cb host m :
      step m (subscribeLibrary cb host m)
  | step_unsubscribeLibrary cb m :
      step m (unsubscribeLibrary cb m)
  | step_checkLibraryChange current now m :
      libraryTimerId m <> None ->
      step m (fst (checkLibraryChange current now m))
  | step_subscribeItems cb options host m :
      step m (fst (fst (subscribeItems cb options host m)))
  | step_unsubscribeItems eid m :
      step m (unsubscribeItems eid m)
  | step_checkItemChange selected now m :
      step m (fst (checkItemChange selected now m))
  | step_subscribeFolders cb options host m :
      step m (fst (fst (subscribeFolders cb options host m)))
  | step_unsubscribeFolders eid m :
      step m (unsubscribeFolders eid m)
  | step_checkFolderChange selected now m :
      step m (fst (checkFolderChange selected now m))
  | step_subscribeConfig cb options host m :
      step m (fst (fst (subscribeConfig cb options host m)))
  | step_unsubscribeConfig eid m :
      step m (unsubscribeConfig eid m)
  | step_checkConfigChange stat now m :
      step m (fst (checkConfigChange stat now m))
  | step_subscribeLibraryFolders cb options host m :
      step m (fst (fst (subscribeLibraryFolders cb options host m)))
  | step_unsubscribeLibraryFolders eid m :
      step m (unsubscribeLibraryFolders eid m)
  | step_checkLibraryFolderChange stat now m :
      step m (fst (checkLibraryFolderChange stat now m)).

Inductive reachable : SubscriptionManager -> Prop :=
  | reachable_initial : reachable initial
  | reachable_step m m' : reachable m -> step m m' -> reachable m'.

(** A timer is running; a set has a member. *)
Definition on (timer : option Z) : bool :=
  match timer with Some _ => true | None => false end.
Definition any {A} (xs : list A) : bool := negb (length xs =? 0)%nat.
Definition known {A} (state : option A) : bool :=
  match state with Some _ => true | None => false end.

Record coherent (m : SubscriptionManager) : Prop := {
  item_timer : on (timerId (itemWatchers m)) = any (entries (itemWatchers m));
  folder_timer : on (timerId (folderWatchers m)) = any (entries (folderWatchers m));
  config_timer : on (configTimerId m) = any (configEntries m);
  libraryFolder_timer : on (libraryFolderTimerId m) = any (libraryFolderEntries m);
  library_timer :
    on (libraryTimerId m)
    = any (libraryCallbacks m) || any (entries (itemWatchers m))
      || any (entries (folderWatchers m)) || any (configEntries m)
      || any (libraryFolderEntries m);
  library_state : on (libraryTimerId m) = known (libraryState m);
  library_period : forall p, libraryTimerId m = Some p -> p = 1000;
  child_periods :
    forall p, In (Some p) [timerId (itemWatchers m); timerId (folderWatchers m);
                           configTimerId m; libraryFolderTimerId m] ->
              p <= 500;
  entry_ids :
    forall e, In e (entries (itemWatchers m) ++ entries (folderWatchers m)
                    ++ configEntries m ++ libraryFolderEntries m) ->
              (entry_id e < next_entry m)%nat
}.

Lemma any_app {A} (xs ys : list A) : any (xs ++ ys) = any xs || any ys.
Proof. destruct xs, ys; reflexivity. Qed.

Lemma any_set_add (cb : Callback) (cbs : list Callback) : any (set_add cb cbs) = true.
Proof.
  unfold set_add. destruct (existsb (Nat.eqb cb) cbs) eqn:Hin.
  - destruct cbs; [discriminate | reflexivity].
  - rewrite any_app. apply orb_true_r.
Qed.

Lemma any_false {A} (xs : list A) : any xs = false -> xs = [].
Proof. destruct xs; [reflexivity | discriminate]. Qed.

Lemma in_delete_entry (eid : nat) (es : list WatcherEntry) (e : WatcherEntry) :
  In e (delete_entry eid es) -> In e es.
Proof. unfold delete_entry. intros H. now apply List.filter_In in H as [H _]. Qed.

Lemma getMinInterval_le (es : list WatcherEntry) : getMinInterval es <= 500.
Proof. apply (getMinInterval_from es 500). Qed.

#[local] Arguments getMinInterval : simpl never.
#[local] Arguments delete_entry : simpl never.
#[local] Arguments set_add : simpl never.
#[local] Arguments set_delete : simpl never.
#[local] Arguments hasSelectionChanged : simpl never.

Ltac open_manager m :=
  destruct m as [ls lt lcbs [ies it ip] [fes ft fp] cp ces ct lfp lfes lft next].

Lemma coherent_initial : coherent initial.
Proof.
  constructor; try reflexivity; cbn.
  - discriminate.
  - intros p H. repeat destruct H as [H | H]; try discriminate. destruct H.
  - intros e [].
Qed.

Lemma any_nil_length {A} (xs : list A) : (length xs =? 0)%nat = negb (any xs).
Proof. unfold any. now rewrite negb_involutive. Qed.

Ltac split_sets :=
  repeat match goal with
         | H : _ = _ :> bool |- _ => revert H
         end;
  repeat match goal with
         | |- context [any ?l] => destruct (any l)
         end.

Ltac periods Hlp Hcp :=
  let p := fresh "p" in
  let H := fresh "H" in
  intros p H; cbn in H;
  repeat (destruct H as [H | H]);
  try contradiction; try discriminate H;
  try (injection H as <-; apply getMinInterval_le);
  try (apply Hlp; assumption);
  try (apply Hcp; cbn; tauto).

Ltac ids Hids :=
  let e := fresh "e" in
  let H := fresh "H" in
  intros e H; rewrite ?in_app_iff in H; cbn in H;
  repeat (destruct H as [H | H]);
  try contradiction; subst; cbn; try lia;
  try (apply in_delete_entry in H);
  try (assert (entry_id e < _)%nat by (apply Hids; rewrite ?in_app_iff; tauto); lia).

Lemma any_filter {A} (keep : A -> bool) (xs : list A) :
  any (List.filter keep xs) && negb (any xs) = false.
Proof. destruct xs; [reflexivity |]. cbn. apply andb_false_r. Qed.

Ltac stop_cases :=
  repeat match goal with
         | |- context [(length ?l =? 0)%nat] => rewrite (any_nil_length l)
         end;
  repeat match goal with
         | |- context [any (delete_entry ?eid ?es)] =>
             lazymatch goal with
             | _ : any (delete_entry eid es) && negb (any es) = false |- _ => fail
             | _ => pose proof (any_filter (fun e => negb (Nat.eqb eid (entry_id e))) es
                                  : any (delete_entry eid es) && negb (any es) = false)
             end
         | |- context [any (set_delete ?cb ?cbs)] =>
             lazymatch goal with
             | _ : any (set_delete cb cbs) && negb (any cbs) = false |- _ => fail
             | _ => pose proof (any_filter (fun c => negb (Nat.eqb cb c)) cbs
                                  : any (set_delete cb cbs) && negb (any cbs) = false)
             end
         end.

Ltac finish Hlp Hcp Hids :=
  first
    [ discriminate
    | congruence
    | constructor; cbn;
      [ .. | periods Hlp Hcp | periods Hlp Hcp | ids Hids ];
      rewrite ?any_app, ?any_set_add; cbn; split_sets; cbn; intros; congruence ].

Ltac case_sets :=
  repeat match goal with
         | |- context [any ?l] => destruct (any l) eqn:?; cbn
         end.

(** The last step of every [Unsubscribe]: the library poller is stopped
    when nothing is subscribed any more. *)
Lemma maybeStopLibraryWatcher_coherent (m : SubscriptionManager) :
  on (timerId (itemWatchers m)) = any (entries (itemWatchers m)) ->
  on (timerId (folderWatchers m)) = any (entries (folderWatchers m)) ->
  on (configTimerId m) = any (configEntries m) ->
  on (libraryFolderTimerId m) = any (libraryFolderEntries m) ->
  (any (libraryCallbacks m) || any (entries (itemWatchers m))
   || any (entries (folderWatchers m)) || any (configEntries m)
   || any (libraryFolderEntries m) = true -> on (libraryTimerId m) = true) ->
  on (libraryTimerId m) = known (libraryState m) ->
  (forall p, libraryTimerId m = Some p -> p = 1000) ->
  (forall p, In (Some p) [timerId (itemWatchers m); timerId (folderWatchers m);
                          configTimerId m; libraryFolderTimerId m] -> p <= 500) ->
  (forall e, In e (entries (itemWatchers m) ++ entries (folderWatchers m)
                   ++ configEntries m ++ libraryFolderEntries m) ->
             (entry_id e < next_entry m)%nat) ->
  coherent (maybeStopLibraryWatcher m).
Proof.
  intros Hi Hf Hc Hlf Hl Hs Hlp Hcp Hids.
  unfold maybeStopLibraryWatcher. rewrite !any_nil_length, <- !negb_orb.
  destruct (any (libraryCallbacks m) || any (entries (itemWatchers m))
            || any (entries (folderWatchers m)) || any (configEntries m)
            || any (libraryFolderEntries m)) eqn:Hany; cbn [negb].
  - constructor; try assumption. rewrite Hany. now apply Hl.
  - open_manager m. cbn in *. constructor; cbn; try assumption.
    + now rewrite Hany.
    + reflexivity.
    + discriminate.
Qed.

Ltac unsubscribed Hl Hlp Hcp Hids :=
  cbn; stop_cases; case_sets;
  (apply maybeStopLibraryWatcher_coherent; cbn;
   [ .. | periods Hlp Hcp | periods Hlp Hcp | ids Hids ];
   try congruence;
   try (stop_cases; rewrite ?Hl; split_sets; cbn; intros; congruence)).

Lemma step_coherent (m m' : SubscriptionManager) :
  coherent m -> step m m' -> coherent m'.
Proof.
  intros [Hi Hf Hc Hlf Hl Hs Hlp Hcp Hids] Hstep.
  destruct Hstep; open_manager m; cbn in *.
  - unfold subscribeLibrary, ensureLibraryWatcher. cbn.
    destruct lt; cbn in *; finish Hlp Hcp Hids.
  - unfold unsubscribeLibrary. unsubscribed Hl Hlp Hcp Hids.
  - unfold checkLibraryChange. cbn. destruct lt as [lp |]; [| contradiction].
    destruct ls as [prev |]; cbn in *.
    + destruct (negb (String.eqb (path current) (path prev))); cbn;
        finish Hlp Hcp Hids.
    + finish Hlp Hcp Hids.
  - unfold subscribeItems, ensureLibraryWatcher, ensureItemWatcher. cbn.
    destruct lt as [lp |], it as [ip' |]; cbn in *; finish Hlp Hcp Hids.
  - unfold unsubscribeItems, maybeStopItemWatcher.
    cbn. destruct it as [ip' |]; unsubscribed Hl Hlp Hcp Hids.
  - unfold checkItemChange. destruct selected; cbn; finish Hlp Hcp Hids.
  - unfold subscribeFolders, ensureLibraryWatcher, ensureFolderWatcher. cbn.
    destruct lt as [lp |], ft as [fp' |]; cbn in *; finish Hlp Hcp Hids.
  - unfold unsubscribeFolders, maybeStopFolderWatcher.
    cbn. destruct ft as [fp' |]; unsubscribed Hl Hlp Hcp Hids.
  - unfold checkFolderChange. destruct selected; cbn; finish Hlp Hcp Hids.
  - unfold subscribeConfig, ensureLibraryWatcher, ensureConfigWatcher. cbn.
    destruct lt as [lp |], ct as [cp' |]; cbn in *; finish Hlp Hcp Hids.
  - unfold unsubscribeConfig, maybeStopConfigWatcher.
    cbn. destruct ct as [cp' |]; unsubscribed Hl Hlp Hcp Hids.
  - unfold checkConfigChange. destruct stat; cbn; finish Hlp Hcp Hids.
  - unfold subscribeLibraryFolders, ensureLibraryWatcher, ensureLibraryFolderWatcher.
    cbn. destruct lt as [lp |], lft as [lfp' |]; cbn in *; finish Hlp Hcp Hids.
  - unfold unsubscribeLibraryFolders, maybeStopLibraryFolderWatcher.
    cbn. destruct lft as [lfp' |]; unsubscribed Hl Hlp Hcp Hids.
  - unfold checkLibraryFolderChange. destruct stat; cbn; finish Hlp Hcp Hids.
Qed.

Lemma reachable_coherent (m : SubscriptionManager) : reachable m -> coherent m.
Proof.
  intros Hreach. induction Hreach as [| m m' _ IH Hstep].
  - exact coherent_initial.
  - exact (step_coherent m m' IH Hstep).
Qed.

(** [X16] Over the whole life of the manager, from its creation and
    through any sequence of subscriptions, unsubscriptions and ticks:
    the timer of each poller runs exactly while the poller has a
    subscriber, and the library poller's runs exactly while anything at
    all is subscribed, with the library state cached exactly then; the
    library poller ticks every 1000 ms, the others every 500 ms at most;
    and no two subscriptions share an entry. *)
Theorem timers_run_exactly_while_subscribed :
  forall (m : SubscriptionManager), reachable m -> coherent m.
Proof. exact reachable_coherent. Qed.

Definition one_subscriber : SubscriptionManager :=
  fst (fst (subscribeItems 7 {| opt_interval := Some 200; opt_maxEqualLookups := None |}
              {| path := "/lib"; lib_name := "lib" |} initial)).

Lemma timers_run_exactly_while_subscribed_witness :
  reachable one_subscriber
  /\ timerId (itemWatchers one_subscriber) = Some 200
  /\ libraryTimerId one_subscriber = Some 1000
  /\ coherent one_subscriber.
Proof.
  assert (Hreach : reachable one_subscriber).
  { apply (reachable_step initial); [exact reachable_initial |].
    apply step_subscribeItems. }
  split; [exact Hreach |]. split; [reflexivity |]. split; [reflexivity |].
  exact (timers_run_exactly_while_subscribed one_subscriber Hreach).
Defined.

(** *** A subscription and its [Unsubscribe] *)

Lemma delete_entry_new (es : list WatcherEntry) (e : WatcherEntry) :
  (forall e', In e' es -> (entry_id e' < entry_id e)%nat) ->
  delete_entry (entry_id e) (es ++ [e]) = es.
Proof.
  intros Hbelow. unfold delete_entry. rewrite List.filter_app. cbn.
  rewrite Nat.eqb_refl. cbn. rewrite app_nil_r.
  induction es as [| e' es IH]; cbn; [reflexivity |].
  destruct (Nat.eqb_spec (entry_id e) (entry_id e')) as [Heq | Hne]; cbn.
  - specialize (Hbelow e' (or_introl eq_refl)). lia.
  - f_equal. apply IH. intros e'' Hin. apply Hbelow. now right.
Qed.

Lemma delete_entry_twice (eid : nat) (es : list WatcherEntry) :
  delete_entry eid (delete_entry eid es) = delete_entry eid es.
Proof.
  unfold delete_entry. induction es as [| e es IH]; cbn; [reflexivity |].
  destruct (negb (Nat.eqb eid (entry_id e))) eqn:Hkeep; cbn; [| exact IH].
  rewrite Hkeep. now f_equal.
Qed.

Lemma maybeStopLibraryWatcher_twice (m : SubscriptionManager) :
  maybeStopLibraryWatcher (maybeStopLibraryWatcher m) = maybeStopLibraryWatcher m.
Proof.
  unfold maybeStopLibraryWatcher.
  destruct ((length (libraryCallbacks m) =? 0)%nat
            && (length (entries (itemWatchers m)) =? 0)%nat
            && (length (entries (folderWatchers m)) =? 0)%nat
            && (length (configEntries m) =? 0)%nat
            && (length (libraryFolderEntries m) =? 0)%nat) eqn:Hnone.
  - cbn. rewrite Hnone. reflexivity.
  - now rewrite Hnone.
Qed.

Lemma unsubscribeItems_twice (eid : nat) (m : SubscriptionManager) :
  unsubscribeItems eid (unsubscribeItems eid m) = unsubscribeItems eid m.
Proof.
  open_manager m. unfold unsubscribeItems, maybeStopItemWatcher. cbn.
  destruct (length (delete_entry eid ies) =? 0)%nat eqn:Hnone;
    destruct it as [p |]; cbn; unfold maybeStopLibraryWatcher at 2; cbn;
    rewrite ?Hnone; cbn;
    destruct (length lcbs =? 0)%nat eqn:H1, (length fes =? 0)%nat eqn:H2,
      (length ces =? 0)%nat eqn:H3, (length lfes =? 0)%nat eqn:H4; cbn;
    rewrite ?delete_entry_twice, ?Hnone; cbn;
    unfold maybeStopLibraryWatcher; cbn;
    repeat (progress (cbn; rewrite ?delete_entry_twice, ?Hnone, ?H1, ?H2, ?H3, ?H4));
    reflexivity.
Qed.

(** [X17] The [Unsubscribe] of an item subscription undoes the
    subscription: from any state the manager can be in, subscribing and
    then calling the closure leaves the subscribers of the poller, its
    timer, the library poller's timer and the cached library state as
    they were before; and calling the closure a second time changes
    nothing. *)
Theorem unsubscribe_undoes_its_subscription :
  forall (m : SubscriptionManager) (cb : Callback) (options : SubscribeOptions)
         (host : LibraryState),
    reachable m ->
    let subscribed := subscribeItems cb options host m in
    let m' := unsubscribeItems (snd subscribed) (fst (fst subscribed)) in
    entries (itemWatchers m') = entries (itemWatchers m)
    /\ timerId (itemWatchers m') = timerId (itemWatchers m)
    /\ libraryTimerId m' = libraryTimerId m
    /\ libraryState m' = libraryState m
    /\ libraryCallbacks m' = libraryCallbacks m
    /\ folderWatchers m' = folderWatchers m
    /\ unsubscribeItems (snd subscribed) m' = m'.
Proof.
  intros m cb options host Hreach subscribed m'.
  split; [| split; [| split; [| split; [| split; [| split]]]]];
    [ .. | apply unsubscribeItems_twice ].
  all: pose proof (reachable_coherent m Hreach) as Hco.
  all: destruct Hco as [Hi Hf Hc Hlf Hl Hs Hlp Hcp Hids].
  all: subst m' subscribed; open_manager m; cbn in *.
  all: unfold subscribeItems, ensureLibraryWatcher, ensureItemWatcher; cbn.
  all: assert (Hdel : delete_entry next
                        (ies ++ [{| entry_id := next; callback := cb;
                                    interval := default 500 (opt_interval options);
                                    maxEqualLookups :=
                                      default (-1) (opt_maxEqualLookups options) |}])
                      = ies)
    by (apply (delete_entry_new ies {| entry_id := next; callback := cb;
                                       interval := default 500 (opt_interval options);
                                       maxEqualLookups :=
                                         default (-1) (opt_maxEqualLookups options) |});
        intros e' Hin; apply Hids; rewrite in_app_iff; now left).
  all: destruct lt as [lp |], it as [ip' |]; cbn in *;
    unfold unsubscribeItems, maybeStopItemWatcher; cbn; rewrite Hdel;
    rewrite ?any_nil_length; destruct (any ies) eqn:Hies; try discriminate; cbn;
    unfold maybeStopLibraryWatcher; cbn; rewrite ?any_nil_length, ?Hies; cbn.
  all: try (destruct (any lcbs), (any fes), (any ces), (any lfes); cbn in *;
            try discriminate; try reflexivity).
  all: try (apply any_false in Hies; subst ies; reflexivity).
  all: try (destruct ls; [discriminate | reflexivity]).
  all: try (destruct ls; [reflexivity | discriminate]).
Qed.

Lemma unsubscribe_undoes_its_subscription_witness :
  let subscribed := subscribeItems 9 {| opt_interval := None; opt_maxEqualLookups := Some 3 |}
                      {| path := "/lib"; lib_name := "lib" |} one_subscriber in
  reachable one_subscriber
  /\ length (entries (itemWatchers (fst (fst subscribed)))) = 2%nat
  /\ entries (itemWatchers (unsubscribeItems (snd subscribed) (fst (fst subscribed))))
     = entries (itemWatchers one_subscriber).
Proof.
  assert (Hreach : reachable one_subscriber).
  { apply (reachable_step initial); [exact reachable_initial |].
    apply step_subscribeItems. }
  split; [exact Hreach |]. split; [reflexivity |].
  exact (proj1 (unsubscribe_undoes_its_subscription one_subscriber 9
                  {| opt_interval := None; opt_maxEqualLookups := Some 3 |}
                  {| path := "/lib"; lib_name := "lib" |} Hreach)).
Defined.

(** *** Callbacks by identity, subscriptions by call *)

Lemma in_set_add (cb : Callback) (cbs : list Callback) : In cb (set_add cb cbs).
Proof.
  unfold set_add. destruct (existsb (Nat.eqb cb) cbs) eqn:Hin.
  - apply existsb_exists in Hin as (c & Hc & Heq). apply Nat.eqb_eq in Heq. now subst.
  - apply in_or_app. right. now left.
Qed.

Lemma set_add_twice (cb : Callback) (cbs : list Callback) :
  set_add cb (set_add cb cbs) = set_add cb cbs.
Proof.
  unfold set_add at 1.
  replace (existsb (Nat.eqb cb) (set_add cb cbs)) with true; [reflexivity |].
  symmetry. apply existsb_exists. exists cb. split; [apply in_set_add |].
  apply Nat.eqb_refl.
Qed.

Lemma not_in_set_delete (cb : Callback) (cbs : list Callback) :
  ~ In cb (set_delete cb cbs).
Proof.
  unfold set_delete. intros Hin. apply List.filter_In in Hin as [_ Hkeep].
  now rewrite Nat.eqb_refl in Hkeep.
Qed.

Lemma libraryCallbacks_ensure (host : LibraryState) (m : SubscriptionManager) :
  libraryCallbacks (ensureLibraryWatcher host m) = libraryCallbacks m.
Proof. unfold ensureLibraryWatcher. destruct (libraryTimerId m); reflexivity. Qed.

Lemma libraryCallbacks_maybeStop (m : SubscriptionManager) :
  libraryCallbacks (maybeStopLibraryWatcher m) = libraryCallbacks m.
Proof.
  unfold maybeStopLibraryWatcher.
  match goal with |- context [if ?c then _ else _] => destruct c end; reflexivity.
Qed.

Lemma libraryCallbacks_subscribe (cb : Callback) (host : LibraryState)
    (m : SubscriptionManager) :
  libraryCallbacks (subscribeLibrary cb host m) = set_add cb (libraryCallbacks m).
Proof. unfold subscribeLibrary. now rewrite libraryCallbacks_ensure. Qed.

Lemma libraryCallbacks_unsubscribe (cb : Callback) (m : SubscriptionManager) :
  libraryCallbacks (unsubscribeLibrary cb m) = set_delete cb (libraryCallbacks m).
Proof. unfold unsubscribeLibrary. now rewrite libraryCallbacks_maybeStop. Qed.

(** The entries of the item poller that call [cb]. *)
Definition entries_calling (cb : Callback) (m : SubscriptionManager) : list WatcherEntry :=
  List.filter (fun e => Nat.eqb (callback e) cb) (entries (itemWatchers m)).

(** [X18] Library callbacks are kept by identity, selection subscriptions
    by call.  A callback passed twice to [subscribeLibrary] is
    registered once, and the [Unsubscribe] of either subscription
    removes it, so the other subscription is cut off as well.  A
    callback passed twice to [subscribeItems] has one entry for each
    call, and the [Unsubscribe] of the first leaves the second in
    place. *)
Theorem library_callbacks_are_a_set_of_functions :
  forall (m : SubscriptionManager) (cb : Callback) (host : LibraryState)
         (options : SubscribeOptions),
    (let twice := subscribeLibrary cb host (subscribeLibrary cb host m) in
     libraryCallbacks twice = libraryCallbacks (subscribeLibrary cb host m)
     /\ ~ In cb (libraryCallbacks (unsubscribeLibrary cb twice)))
    /\ (let first := subscribeItems cb options host m in
        let second := subscribeItems cb options host (fst (fst first)) in
        length (entries_calling cb (fst (fst second)))
        = S (S (length (entries_calling cb m)))
        /\ (Forall (fun e => (entry_id e < next_entry m)%nat) (entries (itemWatchers m)) ->
            length (entries_calling cb (unsubscribeItems (snd first) (fst (fst second))))
            = S (length (entries_calling cb m)))).
Proof.
  intros m cb host options. split.
  - cbv zeta. rewrite libraryCallbacks_unsubscribe, !libraryCallbacks_subscribe.
    split; [apply set_add_twice | apply not_in_set_delete].
  - cbv zeta. open_manager m. unfold entries_calling.
    unfold subscribeItems, ensureLibraryWatcher, ensureItemWatcher. cbn.
    split.
    + destruct lt, it; cbn; rewrite !List.filter_app, !length_app; cbn;
        rewrite Nat.eqb_refl; cbn; lia.
    + intros Hids.
      assert (Hdel : forall e2,
                 entry_id e2 = S next ->
                 delete_entry next
                   ((ies ++ [{| entry_id := next; callback := cb;
                                interval := default 500 (opt_interval options);
                                maxEqualLookups :=
                                  default (-1) (opt_maxEqualLookups options) |}]) ++ [e2])
                 = ies ++ [e2]).
      { intros e2 He2.
        assert (Hone : delete_entry next
                         (ies ++ [{| entry_id := next; callback := cb;
                                     interval := default 500 (opt_interval options);
                                     maxEqualLookups :=
                                       default (-1) (opt_maxEqualLookups options) |}])
                       = ies).
        { apply (delete_entry_new ies {| entry_id := next; callback := cb;
                                         interval := default 500 (opt_interval options);
                                         maxEqualLookups :=
                                           default (-1) (opt_maxEqualLookups options) |}).
          cbn. rewrite List.Forall_forall in Hids. exact Hids. }
        unfold delete_entry in *. rewrite List.filter_app, Hone. cbn. rewrite He2.
        destruct (Nat.eqb_spec next (S next)) as [Heq | _]; [lia | reflexivity]. }
      destruct lt, it; cbn; unfold unsubscribeItems, maybeStopItemWatcher; cbn;
        rewrite Hdel by reflexivity;
        cbn; rewrite ?length_app; cbn; rewrite ?Nat.add_1_r; cbn;
        unfold maybeStopLibraryWatcher; cbn; rewrite ?length_app; cbn;
        rewrite ?Nat.add_1_r, ?andb_false_r; cbn;
        rewrite !List.filter_app, !length_app; cbn; rewrite Nat.eqb_refl; cbn; lia.
Qed.

(** *** Ticks *)

Lemma hasSelectionChanged_same (ids : list string) (k : Z) :
  hasSelectionChanged ids ids k = false.
Proof.
  unfold hasSelectionChanged. rewrite Nat.eqb_refl. cbn [negb].
  now apply differs_within_take.
Qed.

Lemma flat_map_nothing {A B} (f : A -> list B) (xs : list A) :
  (forall x, f x = []) -> flat_map f xs = [].
Proof.
  intros Hf. induction xs as [| x xs IH]; cbn; [reflexivity |].
  now rewrite Hf, IH.
Qed.

(** [X19] A poller is quiet while nothing changes: when a tick observes
    what the tick before it observed (the same selection, the same
    modification time), no callback is invoked, whatever bound each
    subscriber put on the comparison. *)
Theorem a_tick_without_change_is_silent :
  forall (m : SubscriptionManager) (now later : Z),
    (forall items,
        snd (checkItemChange (Some items) later
               (fst (checkItemChange (Some items) now m))) = [])
    /\ (forall folders,
           snd (checkFolderChange (Some folders) later
                  (fst (checkFolderChange (Some folders) now m))) = [])
    /\ (forall stat,
           snd (checkConfigChange (Some stat) later
                  (fst (checkConfigChange (Some stat) now m))) = [])
    /\ (forall stat,
           snd (checkLibraryFolderChange (Some stat) later
                  (fst (checkLibraryFolderChange (Some stat) now m))) = []).
Proof.
  intros m now later. open_manager m.
  split; [| split; [| split]].
  - intros items. cbn. apply flat_map_nothing. intros entry.
    now rewrite hasSelectionChanged_same.
  - intros folders. cbn. apply flat_map_nothing. intros entry.
    now rewrite hasSelectionChanged_same.
  - intros stat. cbn. now rewrite Z.eqb_refl.
  - intros stat. cbn. now rewrite Z.eqb_refl.
Qed.

End SubscribeLaws.

(** ** More on the config store: what is written is what is read *)
Module ConfigLaws.
Import Config ConfigProps.

#[local] Arguments getLibraryUuidFilePath : simpl never.
#[local] Arguments getConfigFilePath : simpl never.
#[local] Arguments inherited : simpl never.

(** The scope resolves to the key [key] ([None] for the root of the
    document) in world [w], where its file loads as [doc]. *)
Definition scope_at (c : EagleUserConfig) (h : Host) (key : option string)
    (doc : Json) (w : World) : Prop :=
  fst (getConfigKey c h w) = Returns key /\ loaded c h w = doc.

(** The section of the scope in the document, as [getSection] takes it
    out, and the document with the section put in, as [saveSection]
    writes it. *)
Definition section_of (key : option string) (doc : Json) : outcome Json :=
  match key with
  | None => Returns doc
  | Some k => s ← get_property doc k; Returns (or_empty s)
  end.

Definition with_section (key : option string) (doc sectionData : Json) : outcome Json :=
  match key with
  | None => Returns sectionData
  | Some k => set_property doc k sectionData
  end.

Lemma scope_after_key (c : EagleUserConfig) (h : Host) (key : option string)
    (doc : Json) (w : World) :
  scope_at c h key doc w ->
  exists w1, getConfigKey c h w = (Returns key, w1)
             /\ scope_at c h key doc w1
             /\ _currentPluginId w1 = _currentPluginId w
             /\ forall p, p <> getLibraryUuidFilePath h -> files w1 !! p = files w !! p.
Proof.
  intros [Hkey Hfile].
  destruct (getConfigKey_spec c h w) as (Hid & Hfiles & Hstable).
  specialize (Hstable _ Hkey).
  destruct (getConfigKey c h w) as [r w1]. cbn [fst snd] in *. subst r.
  exists w1. split; [reflexivity |]. split; [| split; assumption]. split.
  - now apply Hstable.
  - unfold loaded in *. rewrite Hfiles; [exact Hfile |].
    intros Heq. now apply (uuid_path_is_no_config_file c h).
Qed.

Lemma getSection_at (c : EagleUserConfig) (h : Host) (key : option string)
    (doc : Json) (w : World) :
  scope_at c h key doc w ->
  exists w1, getSection c h w = (section_of key doc, w1)
             /\ scope_at c h key doc w1
             /\ _currentPluginId w1 = _currentPluginId w
             /\ forall p, p <> getLibraryUuidFilePath h -> files w1 !! p = files w !! p.
Proof.
  intros Hscope.
  destruct (scope_after_key c h key doc w Hscope) as (w1 & Hrun & Hafter & Hid & Hfiles).
  exists w1. split; [| split; [exact Hafter | split; assumption]].
  destruct Hscope as [_ Hdoc].
  unfold getSection. rewrite run_bind, loadFile_run, Hdoc. cbv beta iota.
  rewrite run_bind, Hrun. cbv beta iota. destruct key as [k |]; cbn [section_of].
  - rewrite run_bind. unfold lift. destruct (get_property doc k); reflexivity.
  - reflexivity.
Qed.

Lemma saveSection_at (c : EagleUserConfig) (h : Host) (key : option string)
    (doc sectionData : Json) (w : World) :
  scope_at c h key doc w ->
  exists w1,
    saveSection c h sectionData w
    = (_ ← with_section key doc sectionData; Returns tt, w1)
    /\ scope_at c h key
         (match with_section key doc sectionData with
          | Returns doc' => doc'
          | _ => doc
          end) w1
    /\ _currentPluginId w1 = _currentPluginId w
    /\ forall p, p <> getLibraryUuidFilePath h -> p <> getConfigFilePath c h ->
                 files w1 !! p = files w !! p.
Proof.
  intros Hscope.
  destruct (scope_after_key c h key doc w Hscope)
    as (w1 & Hrun & [Hkey1 Hdoc1] & Hid & Hfiles).
  destruct (getConfigKey_spec c h w) as (_ & _ & Hstable).
  rewrite Hrun in Hstable. cbn [fst snd] in Hstable. specialize (Hstable _ eq_refl).
  assert (Hsaved : forall data,
             scope_at c h key data
               (with_files (<[getConfigFilePath c h := Parsed data]> (files w1)) w1)).
  { intros data. split; [| apply loaded_after_save].
    apply Hstable; [exact Hid |]. cbn.
    rewrite lookup_insert_ne; [reflexivity |].
    intros Heq. now apply (uuid_path_is_no_config_file c h). }
  unfold saveSection. rewrite run_bind, Hrun. cbv beta iota.
  destruct key as [k |]; cbn [with_section].
  - rewrite run_bind, loadFile_run, Hdoc1. cbv beta iota. rewrite run_bind. unfold lift.
    destruct (set_property doc k sectionData) as [doc' | e |]; cbn.
    + eexists. split; [reflexivity |]. split; [apply Hsaved |]. split; [exact Hid |].
      intros p Hp Hp'. cbn. rewrite lookup_insert_ne by congruence. now apply Hfiles.
    + exists w1. split; [reflexivity |]. split; [now split |]. split; [exact Hid |].
      intros p Hp _. now apply Hfiles.
    + exists w1. split; [reflexivity |]. split; [now split |]. split; [exact Hid |].
      intros p Hp _. now apply Hfiles.
  - rewrite saveFile_run. cbn.
    eexists. split; [reflexivity |]. split; [apply Hsaved |]. split; [exact Hid |].
    intros p Hp Hp'. cbn. rewrite lookup_insert_ne by congruence. now apply Hfiles.
Qed.

(** What is stored as the section is what is taken out as the section. *)
Lemma section_of_with_section (key : option string) (doc doc' : Json)
    (fields : gmap string Json) :
  with_section key doc (JsonObj fields) = Returns doc' ->
  section_of key doc' = Returns (JsonObj fields).
Proof.
  destruct key as [k |]; cbn.
  - intros Hset. apply set_property_returns in Hset as (Hk & fs & -> & ->).
    unfold get_property. rewrite Hk. cbn. now rewrite lookup_insert_eq.
  - now intros [= <-].
Qed.

(** An operation that got as far as its section has resolved its key. *)
Lemma getSection_needs_key {A} (c : EagleUserConfig) (h : Host)
    (k : Json -> Async A) (a : A) (w : World) :
  fst ((getSection c h ≫= k) w) = Returns a ->
  exists key, scope_at c h key (loaded c h w) w.
Proof.
  unfold getSection. rewrite !run_bind, loadFile_run. cbv beta iota.
  rewrite run_bind.
  destruct (getConfigKey c h w) as [[key | e |] w1] eqn:Hrun; cbn; try discriminate.
  intros _. exists key. split; [now rewrite Hrun | reflexivity].
Qed.

Lemma bind_at {B} (c : EagleUserConfig) (h : Host) (key : option string) (doc : Json)
    (k : Json -> Async B) (w : World) :
  scope_at c h key doc w ->
  exists w1,
    (getSection c h ≫= k) w
    = match section_of key doc with
      | Returns s => k s w1
      | Throws e => (Throws e, w1)
      | Unmodelled => (Unmodelled, w1)
      end
    /\ scope_at c h key doc w1
    /\ _currentPluginId w1 = _currentPluginId w
    /\ forall p, p <> getLibraryUuidFilePath h -> files w1 !! p = files w !! p.
Proof.
  intros Hscope.
  destruct (getSection_at c h key doc w Hscope) as (w1 & Hrun & Hafter & Hid & Hfiles).
  exists w1. split; [| split; [exact Hafter | split; assumption]].
  rewrite run_bind, Hrun. reflexivity.
Qed.

(** What [get] and [has] return, read off the document. *)
Lemma get_at (c : EagleUserConfig) (h : Host) (key : option string) (doc : Json)
    (k : string) (w : World) :
  scope_at c h key doc w ->
  fst (get c h k w) = (s ← section_of key doc; get_property s k).
Proof.
  intros Hscope. unfold get.
  destruct (bind_at c h key doc (fun data => lift (get_property data k)) w Hscope)
    as (w1 & -> & _).
  destruct (section_of key doc); reflexivity.
Qed.

Lemma has_at (c : EagleUserConfig) (h : Host) (key : option string) (doc : Json)
    (k : string) (w : World) :
  scope_at c h key doc w ->
  fst (has c h k w) = (s ← section_of key doc; has_property s k).
Proof.
  intros Hscope. unfold has.
  destruct (bind_at c h key doc (fun data => lift (has_property data k)) w Hscope)
    as (w1 & -> & _).
  destruct (section_of key doc); reflexivity.
Qed.

Lemma getOrDefault_at (c : EagleUserConfig) (h : Host) (key : option string) (doc : Json)
    (k : string) (d : Json) (w : World) :
  scope_at c h key doc w ->
  fst (getOrDefault c h k d w)
  = (s ← section_of key doc; v ← get_property s k; Returns (default d v)).
Proof.
  intros Hscope. unfold getOrDefault. rewrite run_bind.
  pose proof (get_at c h key doc k w Hscope) as Hget.
  destruct (get c h k w) as [[v | e |] w1]; cbn [fst] in Hget; cbn;
    destruct (section_of key doc) as [s | e' |]; cbn in Hget |- *;
    try discriminate; try (now rewrite <- Hget); try congruence.
Qed.

(** [set] on the document *)
Definition set_in (key : option string) (doc : Json) (k : string) (v : Json)
  : outcome Json :=
  s ← section_of key doc; s' ← set_property s k v; with_section key doc s'.

Definition after (result : outcome Json) (doc : Json) : Json :=
  match result with Returns doc' => doc' | _ => doc end.

Lemma set_at (c : EagleUserConfig) (h : Host) (key : option string) (doc : Json)
    (k : string) (v : Json) (w : World) :
  scope_at c h key doc w ->
  fst (set c h k v w) = (_ ← set_in key doc k v; Returns tt)
  /\ scope_at c h key (after (set_in key doc k v) doc) (snd (set c h k v w)).
Proof.
  intros Hscope. unfold set, set_in.
  destruct (bind_at c h key doc
              (fun data => data' ← lift (set_property data k v); saveSection c h data')
              w Hscope) as (w1 & -> & Hafter & _).
  destruct (section_of key doc) as [s | e |]; cbn; try (now split).
  rewrite run_bind. unfold lift.
  destruct (set_property s k v) as [s' | e |]; cbn; try (now split).
  destruct (saveSection_at c h key doc s' w1 Hafter) as (w2 & -> & Hsaved & _).
  cbn. split; [| exact Hsaved].
  destruct (with_section key doc s'); reflexivity.
Qed.

Lemma set_in_returns (key : option string) (doc doc' : Json) (k : string) (v : Json) :
  set_in key doc k v = Returns doc' ->
  exists sec, section_of key doc = Returns (JsonObj sec)
              /\ section_of key doc' = Returns (JsonObj (<[k := v]> sec))
              /\ inherited k = false.
Proof.
  unfold set_in.
  destruct (section_of key doc) as [s | e |] eqn:Hsec; cbn; try discriminate.
  destruct (set_property s k v) as [s' | e |] eqn:Hset; cbn; try discriminate.
  apply set_property_returns in Hset as (Hk & sec & -> & ->).
  intros Hstore. exists sec. split; [reflexivity |]. split; [| exact Hk].
  now apply (section_of_with_section key doc).
Qed.

(** *** The mutating operations on a scope with a section key *)

(** What the config file of the scope holds. *)
Definition config_file (c : EagleUserConfig) (h : Host) (w : World) : option Content :=
  files w !! getConfigFilePath c h.

(** An operation that takes the section out, changes it with [f] and
    saves it: [set] and [setMany]. *)
Lemma update_at (c : EagleUserConfig) (h : Host) (key : option string) (doc : Json)
    (f : Json -> outcome Json) (w : World) :
  scope_at c h key doc w ->
  let r := (data ← getSection c h; data' ← lift (f data); saveSection c h data') w in
  let doc' := s ← section_of key doc; s' ← f s; with_section key doc s' in
  fst r = (_ ← doc'; Returns tt) /\ scope_at c h key (after doc' doc) (snd r).
Proof.
  intros Hscope. cbv zeta.
  destruct (bind_at c h key doc
              (fun data => data' ← lift (f data); saveSection c h data')
              w Hscope) as (w1 & -> & Hafter & _).
  destruct (section_of key doc) as [s | e |]; cbn; try (now split).
  rewrite run_bind. unfold lift.
  destruct (f s) as [s' | e |]; cbn; try (now split).
  destruct (saveSection_at c h key doc s' w1 Hafter) as (w2 & -> & Hsaved & _).
  cbn. split; [| exact Hsaved].
  destruct (with_section key doc s'); reflexivity.
Qed.

(** [remove] once it has the section *)
Lemma remove_run (c : EagleUserConfig) (h : Host) (k : string) (s : Json) (w1 : World) :
  (present ← lift (has_property s k);
   if (present : bool)
   then data' ← lift (delete_property s k); _ ← saveSection c h data'; ret true
   else ret false) w1
  = match has_property s k with
    | Returns true =>
        match delete_property s k with
        | Returns s' =>
            match saveSection c h s' w1 with
            | (Returns _, w2) => (Returns true, w2)
            | (Throws e, w2) => (Throws e, w2)
            | (Unmodelled, w2) => (Unmodelled, w2)
            end
        | Throws e => (Throws e, w1)
        | Unmodelled => (Unmodelled, w1)
        end
    | Returns false => (Returns false, w1)
    | Throws e => (Throws e, w1)
    | Unmodelled => (Unmodelled, w1)
    end.
Proof.
  rewrite run_bind. unfold lift.
  destruct (has_property s k) as [[|] | e |]; reflexivity.
Qed.

Lemma section_of_keyed (key : string) (fields : gmap string Json) :
  inherited key = false ->
  section_of (Some key) (JsonObj fields) = Returns (or_empty (fields !! key)).
Proof. intros Hkey. cbn. unfold get_property. now rewrite Hkey. Qed.

Lemma with_section_keyed (key : string) (fields : gmap string Json) (s : Json) :
  inherited key = false ->
  with_section (Some key) (JsonObj fields) s = Returns (JsonObj (<[key := s]> fields)).
Proof. intros Hkey. cbn. unfold set_property. now rewrite Hkey. Qed.

(** A file that loads as an object with a member is there and holds
    that object. *)
Lemma loaded_with_member (c : EagleUserConfig) (h : Host) (key : string) (s : Json)
    (fields : gmap string Json) (w : World) :
  loaded c h w = JsonObj (<[key := s]> fields) ->
  config_file c h w = Some (Parsed (JsonObj (<[key := s]> fields))).
Proof.
  unfold loaded, config_file.
  destruct (files w !! getConfigFilePath c h) as [[doc |] |]; [now intros -> | |];
    intros [= Hempty]; exfalso; symmetry in Hempty;
    now apply (insert_non_empty fields key s).
Qed.

(** [C8] On a scope with a section key [key], whose config file loads
    as the object [fields] (a missing file loads as the empty one),
    each mutating operation takes the scope's section out of the file,
    changes it, loads the file again and writes it back with the
    section replaced and every other member as it was in [fields]:
    - [set(k, v)] and [setMany(values)] return and write the section
      with [k] set, with the values assigned;
    - [remove(k)] returns true and writes the section without [k] when
      the section has [k], and returns false and leaves the file as it
      is when it has not;
    - [clear()] returns and writes the empty section;
    - [saveSection] writes whatever section it is given into the file
      as it loads when it is called.
    In every outcome, a throw included, every other section key of the
    file holds the value it held before and no other key has
    appeared. *)
Theorem mutations_rewrite_their_section_only :
  forall (c : EagleUserConfig) (h : Host) (key : string)
         (fields : gmap string Json) (w : World),
    keyed_scope c h key fields w ->
    let section := or_empty (fields !! key) in
    let written section' := Some (Parsed (JsonObj (<[key := section']> fields))) in
    (forall k v section',
        set_property section k v = Returns section' ->
        fst (set c h k v w) = Returns tt
        /\ config_file c h (snd (set c h k v w)) = written section')
    /\ (forall values section',
          object_assign section values = Returns section' ->
          fst (setMany c h values w) = Returns tt
          /\ config_file c h (snd (setMany c h values w)) = written section')
    /\ (forall k section',
          has_property section k = Returns true ->
          delete_property section k = Returns section' ->
          fst (remove c h k w) = Returns true
          /\ config_file c h (snd (remove c h k w)) = written section')
    /\ (forall k,
          has_property section k = Returns false ->
          fst (remove c h k w) = Returns false
          /\ config_file c h (snd (remove c h k w)) = config_file c h w)
    /\ (fst (clear c h w) = Returns tt
        /\ config_file c h (snd (clear c h w)) = written (JsonObj ∅))
    /\ (forall sectionData,
          fst (saveSection c h sectionData w) = Returns tt
          /\ config_file c h (snd (saveSection c h sectionData w)) = written sectionData)
    /\ (forall k v, siblings_kept c h key fields (snd (set c h k v w)))
    /\ (forall values, siblings_kept c h key fields (snd (setMany c h values w)))
    /\ (forall k, siblings_kept c h key fields (snd (remove c h k w)))
    /\ siblings_kept c h key fields (snd (clear c h w)).
Proof.
  intros c h key fields w Hscope section written.
  pose proof (section_key_not_inherited c h w key (proj1 Hscope)) as Hkey.
  pose proof (section_of_keyed key fields Hkey) as Hsection. fold section in Hsection.
  assert (Hsave : forall sectionData w0,
             scope_at c h (Some key) (JsonObj fields) w0 ->
             fst (saveSection c h sectionData w0) = Returns tt
             /\ config_file c h (snd (saveSection c h sectionData w0)) = written sectionData).
  { intros sectionData w0 Hscope0.
    destruct (saveSection_at c h (Some key) (JsonObj fields) sectionData w0 Hscope0)
      as (w1 & -> & [_ Hdoc] & _).
    rewrite (with_section_keyed key fields sectionData Hkey) in Hdoc |- *.
    split; [reflexivity |]. now apply loaded_with_member. }
  assert (Hupdate : forall (f : Json -> outcome Json) section',
             f section = Returns section' ->
             let r := (data ← getSection c h; data' ← lift (f data);
                       saveSection c h data') w in
             fst r = Returns tt /\ config_file c h (snd r) = written section').
  { intros f section' Hf.
    destruct (update_at c h (Some key) (JsonObj fields) f w Hscope) as [Hrun [_ Hdoc]].
    cbv zeta. rewrite Hrun. rewrite Hsection in Hdoc |- *. cbn in Hdoc |- *.
    rewrite Hf in Hdoc |- *. cbn in Hdoc |- *.
    change (set_property (JsonObj fields) key section')
      with (with_section (Some key) (JsonObj fields) section') in Hdoc |- *.
    rewrite (with_section_keyed key fields section' Hkey) in Hdoc |- *.
    split; [reflexivity |]. now apply loaded_with_member. }
  destruct (siblings_kept_in_every_outcome c h key fields w Hscope)
    as (_ & Hset & Hmany & Hremove & Hclear).
  split; [| split; [| split; [| split; [| split; [| split; [| split; [| split;
    [| split]]]]]]]]; try assumption.
  - intros k v section' Hf. exact (Hupdate (fun s => set_property s k v) section' Hf).
  - intros values section' Hf.
    exact (Hupdate (fun s => object_assign s values) section' Hf).
  - intros k section' Hhas Hdelete. unfold remove.
    destruct (bind_at c h (Some key) (JsonObj fields)
                (fun data =>
                   present ← lift (has_property data k);
                   if (present : bool)
                   then data' ← lift (delete_property data k);
                        _ ← saveSection c h data'; ret true
                   else ret false) w Hscope) as (w1 & -> & Hafter & _).
    rewrite Hsection. cbv beta iota. rewrite remove_run, Hhas, Hdelete.
    destruct (Hsave section' w1 Hafter) as [Hreturns Hfile].
    destruct (saveSection c h section' w1) as [[[] | e |] w2];
      cbn [fst snd] in Hreturns, Hfile |- *; try discriminate.
    split; [reflexivity | exact Hfile].
  - intros k Hhas. unfold remove.
    destruct (bind_at c h (Some key) (JsonObj fields)
                (fun data =>
                   present ← lift (has_property data k);
                   if (present : bool)
                   then data' ← lift (delete_property data k);
                        _ ← saveSection c h data'; ret true
                   else ret false) w Hscope) as (w1 & -> & _ & _ & Hfiles).
    rewrite Hsection. cbv beta iota. rewrite remove_run, Hhas.
    cbn [fst snd]. split; [reflexivity |].
    unfold config_file. apply Hfiles.
    intros Heq. now apply (uuid_path_is_no_config_file c h).
  - exact (Hsave (JsonObj ∅) w Hscope).
  - intros sectionData. exact (Hsave sectionData w Hscope).
Qed.

(** On the [library.json] with the two sections, through the plugin's
    scope: [set] rewrites the plugin's section and [remove] of a key
    the section has not got writes nothing. *)
Lemma mutations_rewrite_their_section_only_witness :
  keyed_scope library_plugin_scope host_L "3efad9de18f7f2f1" two_sections
              world_with_sections
  /\ (fst (set library_plugin_scope host_L "theme" (JsonStr "light") world_with_sections)
      = Returns tt
      /\ config_file library_plugin_scope host_L
           (snd (set library_plugin_scope host_L "theme" (JsonStr "light")
                   world_with_sections))
         = Some (Parsed (JsonObj (<["3efad9de18f7f2f1" :=
                                      JsonObj (<["theme" := JsonStr "light"]>
                                                 {[ "theme" := JsonStr "dark" ]})]>
                                    two_sections))))
  /\ siblings_kept library_plugin_scope host_L "3efad9de18f7f2f1" two_sections
       (snd (clear library_plugin_scope host_L world_with_sections)).
Proof.
  assert (Hscope : keyed_scope library_plugin_scope host_L "3efad9de18f7f2f1"
                     two_sections world_with_sections).
  { split; vm_compute; reflexivity. }
  split; [exact Hscope |].
  pose proof (mutations_rewrite_their_section_only _ _ _ _ _ Hscope) as Hops.
  cbv zeta in Hops.
  destruct Hops as (Hset & _ & _ & _ & _ & _ & _ & _ & _ & Hclear).
  split; [| exact Hclear].
  apply Hset. vm_compute. reflexivity.
Defined.

(** [X20] What [set] stores, [get] returns, for a value that JSON writes
    as it is (null, a boolean, an integer, a string, an array or an
    object of such values) and a key that is none of the names an object
    inherits from [Object.prototype].  In every scope, when [set(k, v)]
    returns, then in the world it leaves [get(k)] returns [v], [has(k)]
    returns true and [getOrDefault(k, d)] returns [v] and not the
    default, a stored [null] included; and every other key of the scope
    reads as it did before. *)
Theorem set_is_read_back :
  forall (c : EagleUserConfig) (h : Host) (k : string) (v : Json) (w : World),
    inherited k = false ->
    fst (set c h k v w) = Returns tt ->
    let w' := snd (set c h k v w) in
    fst (get c h k w') = Returns (Some v)
    /\ fst (has c h k w') = Returns true
    /\ (forall d, fst (getOrDefault c h k d w') = Returns v)
    /\ (forall k', k' <> k ->
          fst (get c h k' w') = fst (get c h k' w)
          /\ fst (has c h k' w') = fst (has c h k' w)).
Proof.
  intros c h k v w Hk Hret w'.
  destruct (getSection_needs_key c h _ tt w Hret) as [key Hscope].
  destruct (set_at c h key (loaded c h w) k v w Hscope) as [Hrun Hafter].
  fold w' in Hafter. rewrite Hret in Hrun.
  destruct (set_in key (loaded c h w) k v) as [doc' | e |] eqn:Hin; try discriminate.
  cbn [after] in Hafter.
  apply set_in_returns in Hin as (sec & Hbefore & Hnow & _).
  rewrite (get_at c h key doc' k w' Hafter), (has_at c h key doc' k w' Hafter).
  rewrite Hnow. cbn. unfold get_property, has_property. rewrite Hk.
  rewrite lookup_insert_eq.
  split; [reflexivity |]. split.
  { first [reflexivity
          | f_equal; rewrite orb_false_r; apply bool_decide_eq_true_2; eauto]. }
  split.
  { intros d. rewrite (getOrDefault_at c h key doc' k d w' Hafter), Hnow. cbn.
    unfold get_property. rewrite Hk. cbn. now rewrite lookup_insert_eq. }
  intros k' Hk'.
  rewrite (get_at c h key doc' k' w' Hafter), (has_at c h key doc' k' w' Hafter).
  rewrite (get_at c h key _ k' w Hscope), (has_at c h key _ k' w Hscope).
  rewrite Hnow, Hbefore. cbn. unfold get_property, has_property.
  rewrite lookup_insert_ne by congruence.
  destruct (inherited k'); split; reflexivity.
Qed.

Lemma set_is_read_back_witness :
  let w' := snd (set createGlobalConfig host_L "theme" JsonNull world_P) in
  files w' !! "/home/u/.eaglecooler/config/global.json"
  = Some (Parsed (JsonObj {[ "theme" := JsonNull ]}))
  /\ fst (getOrDefault createGlobalConfig host_L "theme" (JsonStr "light") w')
     = Returns JsonNull.
Proof.
  split; [vm_compute; reflexivity |].
  exact (proj1 (proj2 (proj2 (set_is_read_back createGlobalConfig host_L "theme" JsonNull
                                world_P eq_refl eq_refl))) (JsonStr "light")).
Defined.

Lemma has_property_returns (o : Json) (k : string) (b : bool) :
  has_property o k = Returns b ->
  exists fields, o = JsonObj fields
                 /\ b = bool_decide (is_Some (fields !! k)) || inherited k.
Proof.
  unfold has_property. destruct o; try discriminate. intros [= <-]. eauto.
Qed.

Lemma own_after_delete (k : string) (sec : gmap string Json) :
  bool_decide (is_Some (delete k sec !! k)) = false.
Proof.
  apply bool_decide_eq_false_2. rewrite lookup_delete_eq. now intros [x Hx].
Qed.

(** [X21] [remove] forgets the key and nothing else.  When [remove(k)]
    returns, what it returns is what [has(k)] returned before.  For a
    key that is none of the names an object inherits from
    [Object.prototype], the scope has not got the key afterwards:
    [has(k)] is false and [get(k)] undefined.  For an inherited name
    (["toString"], ["constructor"], ...) [remove] returns true and
    [has(k)] is true afterwards as it was before.  Every other key of
    the scope reads as before, and when [remove] returned false the
    config file is as it was. *)
Theorem remove_forgets_the_key :
  forall (c : EagleUserConfig) (h : Host) (k : string) (w : World) (removed : bool),
    fst (remove c h k w) = Returns removed ->
    let w' := snd (remove c h k w) in
    fst (has c h k w) = Returns removed
    /\ fst (has c h k w') = Returns (inherited k)
    /\ (inherited k = false -> fst (get c h k w') = Returns None)
    /\ (inherited k = true -> removed = true)
    /\ (forall k', k' <> k ->
          fst (get c h k' w') = fst (get c h k' w)
          /\ fst (has c h k' w') = fst (has c h k' w))
    /\ (removed = false ->
        files w' !! getConfigFilePath c h = files w !! getConfigFilePath c h).
Proof.
  intros c h k w removed Hret w'.
  destruct (getSection_needs_key c h _ removed w Hret) as [key Hscope].
  set (doc := loaded c h w) in *.
  rewrite (has_at c h key doc k w Hscope).
  assert (Hbefore : forall k', fst (get c h k' w) = (s ← section_of key doc; get_property s k')
                               /\ fst (has c h k' w)
                                  = (s ← section_of key doc; has_property s k')).
  { intros k'. split; [now apply get_at | now apply has_at]. }
  subst w'. revert Hret. unfold remove.
  destruct (bind_at c h key doc
              (fun data =>
                 present ← lift (has_property data k);
                 if (present : bool)
                 then data' ← lift (delete_property data k);
                      _ ← saveSection c h data'; ret true
                 else ret false) w Hscope) as (w1 & -> & Hafter & _ & Hfiles).
  destruct (section_of key doc) as [s | e |] eqn:Hsec; cbn; try discriminate.
  rewrite run_bind. unfold lift at 1.
  destruct (has_property s k) as [present | e |] eqn:Hhas; cbn; try discriminate.
  apply has_property_returns in Hhas as (sec & -> & Hpresent).
  destruct present.
  - rewrite run_bind. cbn.
    rewrite run_bind.
    destruct (saveSection_at c h key doc (JsonObj (delete k sec)) w1 Hafter)
      as (w2 & -> & Hsaved & _).
    destruct (with_section key doc (JsonObj (delete k sec))) as [doc' | e |] eqn:Hstore;
      cbn; try discriminate.
    intros [= <-].
    apply section_of_with_section in Hstore.
    rewrite (has_at c h key doc' k w2 Hsaved), (get_at c h key doc' k w2 Hsaved), Hstore.
    cbn. unfold has_property, get_property. rewrite own_after_delete, lookup_delete_eq.
    split; [reflexivity |]. split; [reflexivity |].
    split; [now intros -> |]. split; [reflexivity |].
    split; [| discriminate].
    intros k' Hk'. destruct (Hbefore k') as [-> ->].
    rewrite (has_at c h key doc' k' w2 Hsaved), (get_at c h key doc' k' w2 Hsaved).
    rewrite Hstore, ?Hsec. cbn. unfold has_property, get_property.
    rewrite lookup_delete_ne by congruence.
    destruct (inherited k'); split; reflexivity.
  - cbn. intros [= <-].
    symmetry in Hpresent. apply orb_false_iff in Hpresent as [Hown Hk].
    rewrite (has_at c h key doc k w1 Hafter), (get_at c h key doc k w1 Hafter), Hsec.
    cbn. unfold has_property, get_property. rewrite Hown, Hk.
    assert (Hnone : sec !! k = None).
    { destruct (sec !! k) eqn:Hlook; [| reflexivity].
      apply bool_decide_eq_false in Hown.
      exfalso. apply Hown. eauto. }
    rewrite Hnone. split; [reflexivity |]. split; [reflexivity |].
    split; [reflexivity |]. split; [discriminate |]. split.
    + intros k' Hk'. destruct (Hbefore k') as [-> ->].
      rewrite (has_at c h key doc k' w1 Hafter), (get_at c h key doc k' w1 Hafter).
      rewrite Hsec. split; reflexivity.
    + intros _. apply Hfiles. intros Heq. now apply (uuid_path_is_no_config_file c h).
Qed.

Lemma remove_forgets_the_key_witness :
  let w := snd (set createGlobalConfig host_L "theme" (JsonStr "dark") world_P) in
  fst (remove createGlobalConfig host_L "theme" w) = Returns true
  /\ fst (has createGlobalConfig host_L "theme"
            (snd (remove createGlobalConfig host_L "theme" w))) = Returns false.
Proof.
  split; [vm_compute; reflexivity |].
  exact (proj1 (proj2 (remove_forgets_the_key createGlobalConfig host_L "theme"
                         (snd (set createGlobalConfig host_L "theme" (JsonStr "dark")
                                 world_P)) true eq_refl))).
Defined.

Lemma saveSection_needs_key (c : EagleUserConfig) (h : Host) (data : Json) (w : World) :
  fst (saveSection c h data w) = Returns tt ->
  exists key, scope_at c h key (loaded c h w) w.
Proof.
  unfold saveSection. rewrite run_bind.
  destruct (getConfigKey c h w) as [[key | e |] w1] eqn:Hrun; cbn; try discriminate.
  intros _. exists key. split; [now rewrite Hrun | reflexivity].
Qed.

(** [X22] [clear] empties the scope.  When it returns, [getAll] returns
    the empty object and the scope has no key left; on a scope that is
    the root of its file (the global one) the file is then the empty
    object. *)
Theorem clear_empties_the_scope :
  forall (c : EagleUserConfig) (h : Host) (w : World),
    fst (clear c h w) = Returns tt ->
    let w' := snd (clear c h w) in
    fst (getAll c h w') = Returns (JsonObj ∅)
    /\ (forall k, inherited k = false ->
                  fst (get c h k w') = Returns None
                  /\ fst (has c h k w') = Returns false)
    /\ (fst (getConfigKey c h w) = Returns None ->
        files w' !! getConfigFilePath c h = Some (Parsed (JsonObj ∅))).
Proof.
  intros c h w Hret w'.
  destruct (saveSection_needs_key c h _ w Hret) as [key Hscope].
  set (doc := loaded c h w) in *.
  subst w'. unfold clear in *.
  destruct (saveSection_at c h key doc (JsonObj ∅) w Hscope) as (w1 & Hrun & Hsaved & _).
  rewrite Hrun in Hret |- *. cbn [fst snd] in *.
  destruct (with_section key doc (JsonObj ∅)) as [doc' | e |] eqn:Hstore;
    try discriminate.
  pose proof (section_of_with_section key doc doc' ∅ Hstore) as Hsec.
  split; [| split].
  - unfold getAll.
    destruct (getSection_at c h key doc' w1 Hsaved) as (w2 & -> & _).
    exact Hsec.
  - intros k Hk.
    rewrite (has_at c h key doc' k w1 Hsaved), (get_at c h key doc' k w1 Hsaved), Hsec.
    cbn. unfold has_property, get_property. rewrite Hk, ?lookup_empty.
    split; reflexivity.
  - destruct Hscope as [Hkey _]. rewrite Hkey. intros [= ->].
    cbn in Hstore. injection Hstore as <-.
    revert Hrun. unfold saveSection. rewrite run_bind.
    destruct (getConfigKey c h w) as [[[k |] | e |] w0]; cbn in Hkey; try discriminate.
    rewrite saveFile_run. intros [= <-]. cbn. now rewrite lookup_insert_eq.
Qed.

Lemma clear_empties_the_scope_witness :
  let w := snd (set createGlobalConfig host_L "theme" (JsonStr "dark") world_P) in
  fst (getAll createGlobalConfig host_L w) = Returns (JsonObj {[ "theme" := JsonStr "dark" ]})
  /\ fst (getAll createGlobalConfig host_L (snd (clear createGlobalConfig host_L w)))
     = Returns (JsonObj ∅).
Proof.
  split; [vm_compute; reflexivity |].
  exact (proj1 (clear_empties_the_scope createGlobalConfig host_L
                  (snd (set createGlobalConfig host_L "theme" (JsonStr "dark") world_P))
                  eq_refl)).
Defined.

(** *** Reading *)

Lemma getSection_world (c : EagleUserConfig) (h : Host) (w : World) :
  snd (getSection c h w) = snd (getConfigKey c h w).
Proof.
  unfold getSection. rewrite run_bind, loadFile_run. cbv beta iota. rewrite run_bind.
  destruct (getConfigKey c h w) as [[[key |] | e |] w1]; cbn; try reflexivity.
  rewrite run_bind. unfold lift. destruct (get_property (loaded c h w) key); reflexivity.
Qed.

Lemma read_world {A} (c : EagleUserConfig) (h : Host) (f : Json -> outcome A) (w : World) :
  snd ((getSection c h ≫= fun data => lift (f data)) w) = snd (getConfigKey c h w).
Proof.
  rewrite run_bind. rewrite <- getSection_world.
  destruct (getSection c h w) as [[data | e |] w1]; cbn; try reflexivity.
Qed.

(** The worlds the reading operations leave. *)
Definition after_reading (c : EagleUserConfig) (h : Host) (k : string) (d : Json)
    (w : World) : list World :=
  [snd (get c h k w); snd (has c h k w); snd (getAll c h w);
   snd (getOrDefault c h k d w); snd (getResolvedKey c h w)].

Lemma after_reading_is_after_key (c : EagleUserConfig) (h : Host) (k : string) (d : Json)
    (w : World) :
  Forall (fun w' => w' = snd (getConfigKey c h w)) (after_reading c h k d w).
Proof.
  unfold after_reading. repeat constructor.
  - apply (read_world c h (fun data => get_property data k)).
  - apply (read_world c h (fun data => has_property data k)).
  - apply getSection_world.
  - unfold getOrDefault. rewrite run_bind.
    pose proof (read_world c h (fun data => get_property data k) w) as Hget.
    change (snd (get c h k w) = snd (getConfigKey c h w)) in Hget.
    destruct (get c h k w) as [[v | e |] w1]; exact Hget.
Qed.

Lemma getConfigKey_without_uuid (c : EagleUserConfig) (h : Host) (w : World) :
  type c <> librarybased \/ useLibraryUuid c = false ->
  snd (getConfigKey c h w) = w.
Proof.
  unfold getConfigKey. intros Hmode.
  destruct (type c), (thisPluginOnly c); try reflexivity;
    destruct Hmode as [Hmode | ->]; try contradiction; reflexivity.
Qed.

Lemma getSection_throws (c : EagleUserConfig) (h : Host) (e : JsError) (w w1 : World) :
  getConfigKey c h w = (Throws e, w1) -> getSection c h w = (Throws e, w1).
Proof.
  intros Hkey. unfold getSection.
  rewrite run_bind, loadFile_run. cbv beta iota. now rewrite run_bind, Hkey.
Qed.

(** A read that cannot resolve its key throws what the resolution
    threw. *)
Lemma reads_throw_with_the_key (c : EagleUserConfig) (h : Host) (k : string) (d : Json)
    (e : JsError) (w w1 : World) :
  getConfigKey c h w = (Throws e, w1) ->
  fst (get c h k w) = Throws e
  /\ fst (has c h k w) = Throws e
  /\ fst (getAll c h w) = Throws e
  /\ fst (getOrDefault c h k d w) = Throws e
  /\ fst (getResolvedKey c h w) = Throws e.
Proof.
  intros Hkey. pose proof (getSection_throws c h e w w1 Hkey) as Hsection.
  unfold getOrDefault, get, has, getAll, getResolvedKey.
  rewrite !run_bind, Hsection, Hkey. repeat split.
Qed.

(** [X23] Reading writes no config file.  [get], [has], [getAll],
    [getOrDefault] and [getResolvedKey] leave every file but the
    library's uuid file as it was, and the plugin id; outside the uuid
    mode they leave the world untouched.  In the uuid mode, on a library
    that has no uuid file: when a file can be written in the library's
    folder, each of them creates the uuid file; when none can, each of
    them throws, the rejected write being caught nowhere, and leaves the
    world as it was. *)
Theorem reading_writes_no_config_file :
  forall (c : EagleUserConfig) (h : Host) (k : string) (d : Json) (w : World),
    Forall (fun w' =>
              _currentPluginId w' = _currentPluginId w
              /\ forall p, p <> getLibraryUuidFilePath h -> files w' !! p = files w !! p)
           (after_reading c h k d w)
    /\ (type c <> librarybased \/ useLibraryUuid c = false ->
        Forall (fun w' => w' = w) (after_reading c h k d w))
    /\ (type c = librarybased -> useLibraryUuid c = true ->
        files w !! getLibraryUuidFilePath h = None ->
        if library_writable h
        then Forall (fun w' =>
                       files w' !! getLibraryUuidFilePath h
                       = Some (Parsed (JsonObj {[ "uuid" := JsonStr (randomUUID h) ]})))
                    (after_reading c h k d w)
        else Forall (fun w' => w' = w) (after_reading c h k d w)
             /\ fst (get c h k w) = Throws IOError
             /\ fst (has c h k w) = Throws IOError
             /\ fst (getAll c h w) = Throws IOError
             /\ fst (getOrDefault c h k d w) = Throws IOError
             /\ fst (getResolvedKey c h w) = Throws IOError).
Proof.
  intros c h k d w.
  pose proof (after_reading_is_after_key c h k d w) as Hkey.
  destruct (getConfigKey_spec c h w) as (Hid & Hfiles & _).
  split; [| split].
  - eapply Forall_impl; [exact Hkey |]. cbn. intros w' ->. now split.
  - intros Hmode. eapply Forall_impl; [exact Hkey |]. cbn. intros w' ->.
    now apply getConfigKey_without_uuid.
  - intros Htype Huuid Hmissing.
    destruct (library_writable h) eqn:Hwritable.
    + eapply Forall_impl; [exact Hkey |]. cbn. intros w' ->.
      unfold getConfigKey. rewrite Htype, Huuid, run_bind, getOrCreateLibraryUuid_unfold.
      rewrite Hmissing, Hwritable. cbn [uuid_action_of].
      destruct (thisPluginOnly c); rewrite ?run_bind; cbn [fst snd]; cbn;
        now rewrite lookup_insert_eq.
    + assert (Hthrows : getConfigKey c h w = (Throws IOError, w)).
      { unfold getConfigKey.
        rewrite Htype, Huuid, run_bind, getOrCreateLibraryUuid_unfold.
        now rewrite Hmissing, Hwritable. }
      split; [| exact (reads_throw_with_the_key c h k d IOError w w Hthrows)].
      eapply Forall_impl; [exact Hkey |]. cbn. intros w' ->. now rewrite Hthrows.
Qed.

(** *** The library's uuid *)

Lemma stored_uuid_is_kept (h : Host) (w : World) (u : string) :
  fst (readLibraryUuid h w) = Returns (Some (JsonStr u)) -> u <> "" ->
  uuid_action_of (files w !! getLibraryUuidFilePath h) = Keep u.
Proof.
  unfold readLibraryUuid, uuid_action_of. intros Hread Hu.
  destruct (files w !! getLibraryUuidFilePath h) as [[doc |] |]; try discriminate.
  destruct doc; try discriminate. cbn in Hread. injection Hread as ->.
  destruct (String.eqb_spec u ""); [contradiction | reflexivity].
Qed.

(** [X24] The library's uuid is made once.  [getOrCreateLibraryUuid]
    returns the uuid stored in the library when there is one, and
    otherwise (no file, a file that does not parse, an empty uuid)
    stores a new one and returns it; either way the uuid it returned is
    now stored, and every later call returns it and writes nothing,
    whatever [randomUUID] would give by then. *)
Theorem library_uuid_is_made_once :
  forall (h : Host) (w : World) (u : string),
    randomUUID h <> "" ->
    fst (getOrCreateLibraryUuid h w) = Returns u ->
    let w' := snd (getOrCreateLibraryUuid h w) in
    fst (readLibraryUuid h w') = Returns (Some (JsonStr u))
    /\ (forall h', library_path h' = library_path h ->
                   getOrCreateLibraryUuid h' w' = (Returns u, w'))
    /\ (files w !! getLibraryUuidFilePath h = None
        \/ files w !! getLibraryUuidFilePath h = Some Unparsable
        \/ files w !! getLibraryUuidFilePath h
           = Some (Parsed (JsonObj {[ "uuid" := JsonStr "" ]})) ->
        u = randomUUID h
        /\ files w' !! getLibraryUuidFilePath h
           = Some (Parsed (JsonObj {[ "uuid" := JsonStr u ]}))).
Proof.
  intros h w u Hrandom. cbv zeta. rewrite getOrCreateLibraryUuid_unfold.
  assert (Hsame : forall h', library_path h' = library_path h ->
                             getLibraryUuidFilePath h' = getLibraryUuidFilePath h).
  { intros h' Hpath. unfold getLibraryUuidFilePath. now rewrite Hpath. }
  destruct (uuid_action_of (files w !! getLibraryUuidFilePath h)) as [u' | |] eqn:Hact;
    [| destruct (library_writable h) |];
    cbn [fst snd]; try discriminate; intros [= <-].
  - assert (Hstored : fst (readLibraryUuid h w) = Returns (Some (JsonStr u'))
                      /\ u' <> "").
    { revert Hact. unfold uuid_action_of, readLibraryUuid.
      destruct (files w !! getLibraryUuidFilePath h) as [[doc |] |]; try discriminate.
      destruct doc as [| b | n | s | elems | fields]; try discriminate.
      destruct (fields !! "uuid") as [j |]; try discriminate.
      destruct j as [| b | n | s | elems | fields']; cbn; try discriminate.
      - destruct b; discriminate.
      - destruct (n =? 0); discriminate.
      - destruct (String.eqb_spec s ""); [discriminate |]. intros [= <-]. now split. }
    destruct Hstored as [Hread Hu]. split; [exact Hread |]. split.
    + intros h' Hpath. rewrite getOrCreateLibraryUuid_unfold, (Hsame h' Hpath), Hact.
      reflexivity.
    + intros [Hfile | [Hfile | Hfile]]; rewrite Hfile in Hact; cbn in Hact;
        try discriminate; rewrite ?lookup_singleton_eq in Hact; discriminate.
  - split; [| split].
    + unfold readLibraryUuid, create_uuid, with_files. cbn [files].
      rewrite lookup_insert_eq. now rewrite lookup_singleton_eq.
    + intros h' Hpath. rewrite getOrCreateLibraryUuid_unfold, (Hsame h' Hpath).
      rewrite uuid_action_after_create.
      destruct (String.eqb_spec (randomUUID h) ""); [contradiction | reflexivity].
    + intros _. split; [reflexivity |].
      unfold create_uuid, with_files. cbn [files]. now rewrite lookup_insert_eq.
Qed.

Lemma library_uuid_is_made_once_witness :
  let w' := snd (getOrCreateLibraryUuid host_L world_P) in
  fst (getOrCreateLibraryUuid host_L world_P)
  = Returns "0b6b5c1e-7a0e-4f0e-9c55-3f1d2a4b8e10"
  /\ fst (readLibraryUuid host_L w')
     = Returns (Some (JsonStr "0b6b5c1e-7a0e-4f0e-9c55-3f1d2a4b8e10")).
Proof.
  split; [reflexivity |].
  refine (proj1 (library_uuid_is_made_once host_L world_P
                   "0b6b5c1e-7a0e-4f0e-9c55-3f1d2a4b8e10" _ eq_refl)).
  discriminate.
Defined.

(** [X25] A scope in uuid mode follows the library, not its place: the
    section key is made of the uuid stored in the library (and of the
    plugin id, for a scope of the plugin), so a library found under
    another path or name with the same uuid file resolves to the same
    key, and resolving it writes nothing. *)
Theorem uuid_scope_follows_the_library :
  forall (c : EagleUserConfig) (h h' : Host) (w w' : World) (u : string),
    type c = librarybased -> useLibraryUuid c = true -> u <> "" ->
    fst (readLibraryUuid h w) = Returns (Some (JsonStr u)) ->
    fst (readLibraryUuid h' w') = Returns (Some (JsonStr u)) ->
    _currentPluginId w' = _currentPluginId w ->
    getConfigKey c h w
    = (Returns (Some (sha256 (if thisPluginOnly c then u +:+ plugin_of w else u))), w)
    /\ fst (getConfigKey c h' w') = fst (getConfigKey c h w).
Proof.
  intros c h h' w w' u Htype Huuid Hu Hread Hread' Hid.
  apply stored_uuid_is_kept in Hread; [| exact Hu].
  apply stored_uuid_is_kept in Hread'; [| exact Hu].
  unfold getConfigKey. rewrite Htype, Huuid, !run_bind, !getOrCreateLibraryUuid_unfold.
  rewrite Hread, Hread'. unfold plugin_of.
  destruct (thisPluginOnly c); rewrite ?run_bind; unfold getPluginId; cbn;
    rewrite ?Hid; split; reflexivity.
Qed.

Definition moved_library : Host :=
  {| homedir := "/home/u"; library_path := "/mnt/backup/L"; library_name := "L (copy)";
     randomUUID := "8f14e45f-ceea-467f-ab1d-1c7a3b6f2d90";
     library_writable := true |}.

Definition with_uuid_file (h : Host) : World :=
  {| files := {[ path_join [library_path h; "cooler-uuid.json"]
                 := Parsed (JsonObj {[ "uuid" := JsonStr "6d4b9c2a" ]}) ]};
     _currentPluginId := Some "P" |}.

Lemma uuid_scope_follows_the_library_witness :
  library_path moved_library <> library_path host_L
  /\ fst (getConfigKey createLibraryUuidPluginConfig moved_library
            (with_uuid_file moved_library))
     = fst (getConfigKey createLibraryUuidPluginConfig host_L (with_uuid_file host_L)).
Proof.
  split; [discriminate |].
  refine (proj2 (uuid_scope_follows_the_library createLibraryUuidPluginConfig
                   host_L moved_library (with_uuid_file host_L)
                   (with_uuid_file moved_library) "6d4b9c2a"
                   eq_refl eq_refl _ eq_refl eq_refl eq_refl)).
  discriminate.
Defined.

End ConfigLaws.

(** ** More on bare library I/O: what [updateLibraryMetadata] writes,
       the item ids, the folder forest and the tag groups *)
Module BareIOLaws.
Import BareIO.

Lemma io_run_bind {A B} (m : IO A) (k : A -> IO B) (st : State) :
  (m ≫= k) st = match m st with
                | (Returns a, st') => k a st'
                | (Throws e, st') => (Throws e, st')
                | (Unmodelled, st') => (Unmodelled, st')
                end.
Proof. reflexivity. Qed.

Lemma readJson_files (filePath : string) (st : State) :
  files (snd (readJson filePath st)) = files st.
Proof.
  unfold readJson. destruct (files st !! filePath) as [[d |] |]; try reflexivity.
  destruct (parse d (objects st)). reflexivity.
Qed.

Lemma do_clone_files (v : val) (st : State) : files (snd (do_clone v st)) = files st.
Proof.
  unfold do_clone. destruct (structuredClone v (objects st)) as [[h v'] |]; reflexivity.
Qed.

Lemma call_files (update : UpdateMetadataFn) (v : val) (st : State) :
  files (snd (call update v st)) = files st.
Proof. unfold call. destruct (update v (objects st)) as [[h v'] |]; reflexivity. Qed.

Lemma writeJson_files (filePath : string) (data : val) (st : State) :
  (fst (writeJson filePath data st) = Returns tt
   /\ exists content, files (snd (writeJson filePath data st))
                      = <[filePath := Parsed content]> (files st))
  \/ (fst (writeJson filePath data st) = Throws TypeError
      /\ snd (writeJson filePath data st) = st).
Proof.
  unfold writeJson.
  destruct (stringify (S (size (objects st))) (objects st) data) as [content |].
  - left. split; [reflexivity |]. now exists content.
  - right. split; reflexivity.
Qed.

(** [X26] [updateLibraryMetadata] writes [metadata.json] and nothing else,
    and only once the update function has returned: when the call does
    not return (the file is missing or does not parse, the update
    function throws, what it returns cannot be written), every file is
    as it was.  A missing file is an I/O error, a file that does not
    parse a [SyntaxError], and nothing is created in its place. *)
Theorem updateLibraryMetadata_writes_on_success_only :
  forall (core : BareLibraryCore) (update : UpdateMetadataFn) (st : State),
    let result := updateLibraryMetadata core update st in
    (forall p, p <> metadataPath core -> files (snd result) !! p = files st !! p)
    /\ ((forall next, fst result <> Returns next) -> files (snd result) = files st)
    /\ (files st !! metadataPath core = None -> result = (Throws IOError, st))
    /\ (files st !! metadataPath core = Some Unparsable ->
        result = (Throws SyntaxError, st)).
Proof.
  intros core update st result.
  assert (Hfiles : (exists next content,
                       fst result = Returns next
                       /\ files (snd result)
                          = <[metadataPath core := Parsed content]> (files st))
                   \/ ((forall next, fst result <> Returns next)
                       /\ files (snd result) = files st)).
  { subst result. unfold updateLibraryMetadata, readLibraryMetadata, writeLibraryMetadata.
    rewrite io_run_bind.
    pose proof (readJson_files (metadataPath core) st) as Hread.
    destruct (readJson (metadataPath core) st) as [[current | e |] st1];
      cbn [snd] in Hread; try (right; split; [discriminate | cbn [snd]; congruence]).
    rewrite io_run_bind.
    pose proof (do_clone_files current st1) as Hclone.
    destruct (do_clone current st1) as [[copy | e |] st2];
      cbn [snd] in Hclone; try (right; split; [discriminate | cbn [snd]; congruence]).
    rewrite io_run_bind.
    pose proof (call_files update copy st2) as Hcall.
    destruct (call update copy st2) as [[next | e |] st3];
      cbn [snd] in Hcall; try (right; split; [discriminate | cbn [snd]; congruence]).
    rewrite io_run_bind.
    destruct (writeJson_files (metadataPath core) next st3)
      as [[Hret [content Hwritten]] | [Hthrows Hsame]].
    - destruct (writeJson (metadataPath core) next st3) as [[[] | e |] st4];
        cbn [fst snd] in *; try discriminate.
      left. exists next, content. split; [reflexivity |]. cbn [snd ret].
      rewrite Hwritten, Hcall, Hclone, Hread. reflexivity.
    - destruct (writeJson (metadataPath core) next st3) as [[[] | e |] st4];
        cbn [fst snd] in *; try discriminate.
      right. split; [discriminate |]. cbn [snd].
      rewrite Hsame, Hcall, Hclone, Hread. reflexivity. }
  split; [| split; [| split]].
  - intros p Hp. destruct Hfiles as [(next & content & _ & ->) | [_ ->]];
      [now rewrite lookup_insert_ne by congruence | reflexivity].
  - intros Hnot. destruct Hfiles as [(next & content & Hret & _) | [_ Hsame]];
      [now apply Hnot in Hret | exact Hsame].
  - intros Hmissing. subst result.
    unfold updateLibraryMetadata, readLibraryMetadata. rewrite io_run_bind.
    unfold readJson. now rewrite Hmissing.
  - intros Hbad. subst result.
    unfold updateLibraryMetadata, readLibraryMetadata. rewrite io_run_bind.
    unfold readJson. now rewrite Hbad.
Qed.

(** *** Item ids *)

Lemma length_append (a b : string) :
  String.length (a +:+ b) = (String.length a + String.length b)%nat.
Proof. induction a as [| c a IH]; simpl; [reflexivity | now rewrite IH]. Qed.

Lemma substring_whole (s : string) : String.substring 0 (String.length s) s = s.
Proof. induction s as [| c s IH]; cbn; [reflexivity | now rewrite IH]. Qed.

Lemma substring_after (a b : string) :
  String.substring (String.length a) (String.length b) (a +:+ b) = b.
Proof. induction a as [| c a IH]; simpl; [apply substring_whole | exact IH]. Qed.

Lemma substring_before (a b : string) :
  String.substring 0 (String.length a) (a +:+ b) = a.
Proof.
  induction a as [| c a IH]; simpl; [now destruct b | now rewrite IH].
Qed.

Lemma substring_split (k : nat) (s : string) :
  (k <= String.length s)%nat ->
  String.substring 0 k s +:+ String.substring k (String.length s - k) s = s.
Proof.
  revert s. induction k as [| k IH]; intros s Hk.
  - rewrite Nat.sub_0_r, substring_whole. now destruct s.
  - destruct s as [| c s]; simpl in Hk |- *; [lia |].
    change (String c (String.substring 0 k s
                      +:+ String.substring k (String.length s - k) s) = String c s).
    f_equal. apply IH. lia.
Qed.

Lemma endsWith_append (a b : string) : Js.endsWith (a +:+ b) b = true.
Proof.
  unfold Js.endsWith. rewrite length_append.
  replace (String.length a + String.length b - String.length b)%nat
    with (String.length a) by lia.
  rewrite substring_after, String.eqb_refl.
  apply andb_true_iff. split; [apply Nat.leb_le; lia | reflexivity].
Qed.

Lemma endsWith_split (s t : string) :
  Js.endsWith s t = true ->
  String.substring 0 (String.length s - String.length t) s +:+ t = s.
Proof.
  unfold Js.endsWith. intros H. apply andb_true_iff in H as [Hlen Heq].
  apply Nat.leb_le in Hlen. apply String.eqb_eq in Heq.
  pose proof (substring_split (String.length s - String.length t) s) as Hsplit.
  replace (String.length s - (String.length s - String.length t))%nat
    with (String.length t) in Hsplit by lia.
  rewrite Heq in Hsplit. apply Hsplit. lia.
Qed.

Lemma without_info_append (id : string) : without_info (id +:+ ".info") = id.
Proof.
  unfold without_info. rewrite (endsWith_append id ".info"), length_append.
  cbn [String.length]. replace (String.length id + 5 - 5)%nat with (String.length id) by lia.
  apply substring_before.
Qed.

Lemma without_info_split (name : string) :
  Js.endsWith name ".info" = true -> without_info name +:+ ".info" = name.
Proof.
  intros Hends. unfold without_info. rewrite Hends.
  exact (endsWith_split name ".info" Hends).
Qed.

(** The entries [listItemIds] keeps. *)
Definition info_directories (entries : list Dirent) : list Dirent :=
  List.filter (fun entry => isDirectory entry && Js.endsWith (name entry) ".info") entries.

(** [X27] [listItemIds] lists the [.info] directories, each once and in
    the order of the listing, by the name without the [.info]: the id
    of such a directory is listed and [itemInfoDir] of that id is the
    directory again, while a file, or a directory that does not end in
    [.info], gives no id. *)
Theorem listItemIds_names_the_info_directories :
  forall (core : BareLibraryCore) (entries : list Dirent),
    Forall2 (fun id entry =>
               itemInfoDir core id = Config.path_join [imagesPath core; name entry])
            (listItemIds entries) (info_directories entries)
    /\ forall id, In id (listItemIds entries)
                  <-> In {| name := id +:+ ".info"; isDirectory := true |} entries.
Proof.
  intros core entries. split.
  - unfold listItemIds. fold (info_directories entries).
    assert (Hall : List.Forall (fun entry => Js.endsWith (name entry) ".info" = true)
                     (info_directories entries)).
    { apply List.Forall_forall. intros entry Hin.
      apply List.filter_In in Hin as [_ Hkeep].
      now apply andb_true_iff in Hkeep as [_ Hends]. }
    induction Hall as [| entry rest Hends _ IH]; cbn; constructor; [| exact IH].
    unfold itemInfoDir. now rewrite (without_info_split _ Hends).
  - intros id. unfold listItemIds. rewrite List.in_map_iff. split.
    + intros (entry & <- & Hin). apply List.filter_In in Hin as [Hin Hkeep].
      apply andb_true_iff in Hkeep as [Hdir Hends].
      rewrite (without_info_split _ Hends). destruct entry as [n d]. cbn in *.
      now subst d.
    + intros Hin. exists {| name := id +:+ ".info"; isDirectory := true |}. split.
      * apply without_info_append.
      * apply List.filter_In. split; [exact Hin |]. cbn.
        apply (endsWith_append id ".info").
Qed.

(** *** The folder forest *)

Section Forest.
Import BareFolders.
Context {Data : Type}.

Section FolderInduction.
Variable P : Folder Data -> Prop.
Hypothesis step :
  forall id data children,
    List.Forall P (default [] children) -> P (mkFolder id data children).

Fixpoint Folder_nested_ind (folder : Folder Data) : P folder :=
  match folder with
  | mkFolder id data children =>
      step id data children
        match children return List.Forall P (default [] children) with
        | Some cs =>
            (fix all (l : list (Folder Data)) : List.Forall P l :=
               match l with
               | [] => @List.Forall_nil _ P
               | f :: l' => @List.Forall_cons _ P f l' (Folder_nested_ind f) (all l')
               end) cs
        | None => @List.Forall_nil _ P
        end
  end.
End FolderInduction.

(** The folders under a folder, itself first, then those under its
    children in their order; and the folders of a forest, in that
    document order. *)
Fixpoint all_under (folder : Folder Data) : list (Folder Data) :=
  match folder with
  | mkFolder _ _ children =>
      folder :: match children with
                | Some cs =>
                    (fix all (l : list (Folder Data)) : list (Folder Data) :=
                       match l with
                       | [] => []
                       | f :: l' => all_under f ++ all l'
                       end) cs
                | None => []
                end
  end.

Definition all_folders (folders : list (Folder Data)) : list (Folder Data) :=
  flat_map all_under folders.

Definition ids (folders : list (Folder Data)) : list string :=
  List.map folder_id (all_folders folders).

Lemma all_under_unfold (folder : Folder Data) :
  all_under folder = folder :: all_folders (children_or_empty folder).
Proof.
  destruct folder as [id data [cs |]]; reflexivity.
Qed.

Lemma find_from_unfold (id : string) (folder : Folder Data) :
  find_from id folder
  = if String.eqb (folder_id folder) id then Some folder
    else findById (children_or_empty folder) id.
Proof.
  destruct folder as [fid data [cs |]]; cbn; [| reflexivity].
  destruct (String.eqb fid id); [reflexivity |].
  induction cs as [| f cs IH]; cbn; [reflexivity |].
  destruct (find_from id f); [reflexivity | exact IH].
Qed.

Lemma without_unfold (id : string) (folder : Folder Data) :
  without id folder
  = mkFolder (folder_id folder) (folder_data folder)
      (Some (removeById (children_or_empty folder) id)).
Proof.
  destruct folder as [fid data [cs |]]; cbn; [| reflexivity].
  do 2 f_equal. unfold removeById.
  induction cs as [| f cs IH]; cbn; [reflexivity |].
  destruct (negb (String.eqb (folder_id f) id)); cbn; now rewrite IH.
Qed.

Lemma find_app_first {A} (p : A -> bool) (xs ys : list A) :
  List.find p (xs ++ ys)
  = match List.find p xs with Some x => Some x | None => List.find p ys end.
Proof.
  induction xs as [| x xs IH]; cbn; [reflexivity |].
  destruct (p x); [reflexivity | exact IH].
Qed.

Lemma findById_is_find (folders : list (Folder Data)) (id : string) :
  findById folders id
  = List.find (fun f => String.eqb (folder_id f) id) (all_folders folders).
Proof.
  assert (Hone : forall folder,
             find_from id folder
             = List.find (fun f => String.eqb (folder_id f) id) (all_under folder)).
  { apply Folder_nested_ind. intros fid data children IH.
    rewrite find_from_unfold, all_under_unfold. cbn [List.find folder_id].
    destruct (String.eqb fid id); [reflexivity |].
    unfold children_or_empty. cbn [folder_children].
    change (match children with Some cs => cs | None => [] end)
      with (default [] children).
    revert IH. generalize (default [] children). intros cs IH.
    induction IH as [| f cs Hf _ IHcs]; cbn; [reflexivity |].
    rewrite find_app_first, <- Hf. destruct (find_from id f); [reflexivity | exact IHcs]. }
  induction folders as [| f folders IH]; cbn; [reflexivity |].
  rewrite find_app_first, <- Hone. destruct (find_from id f); [reflexivity | exact IH].
Qed.

(** [X28] [findById] gives the first folder with the id, in document
    order: the folders of the forest taken parents first, each followed
    by those under its children.  What it gives has the id and is a
    folder of the forest, and it gives nothing exactly when no folder
    of the forest, at any depth, has the id. *)
Theorem findById_finds_the_first_in_document_order :
  forall (folders : list (Folder Data)) (id : string),
    findById folders id
    = List.find (fun f => String.eqb (folder_id f) id) (all_folders folders)
    /\ (forall found, findById folders id = Some found ->
                      folder_id found = id /\ In found (all_folders folders))
    /\ (findById folders id = None <-> ~ In id (ids folders)).
Proof.
  intros folders id. split; [apply findById_is_find |]. rewrite findById_is_find. split.
  - intros found Hfound. apply List.find_some in Hfound as [Hin Hid].
    apply String.eqb_eq in Hid. now split.
  - unfold ids. split.
    + intros Hnone Hin. apply List.in_map_iff in Hin as (f & Hid & Hin).
      apply (List.find_none _ _ Hnone) in Hin. apply String.eqb_neq in Hin. contradiction.
    + intros Hnot.
      destruct (List.find (fun f => String.eqb (folder_id f) id) (all_folders folders))
        as [f |] eqn:Hfind; [| reflexivity].
      apply List.find_some in Hfind as [Hin Hid]. apply String.eqb_eq in Hid.
      exfalso. apply Hnot. apply List.in_map_iff. now exists f.
Qed.

(** What is left of a folder: its id and its data. *)
Definition label (folder : Folder Data) : string * Data :=
  (folder_id folder, folder_data folder).

Lemma removeById_cons (folder : Folder Data) (folders : list (Folder Data)) (id : string) :
  removeById (folder :: folders) id
  = if negb (String.eqb (folder_id folder) id)
    then without id folder :: removeById folders id
    else removeById folders id.
Proof.
  unfold removeById. cbn. destruct (negb (String.eqb (folder_id folder) id)); reflexivity.
Qed.

Lemma all_folders_removeById (folders : list (Folder Data)) (id : string) :
  (forall f, In f (all_folders (removeById folders id)) ->
             folder_id f <> id /\ In (folder_id f) (ids folders)
             /\ folder_children f <> None)
  /\ (~ In id (ids folders) ->
      List.map label (all_folders (removeById folders id))
      = List.map label (all_folders folders)).
Proof.
  assert (Hone : forall folder,
             (forall f, In f (all_folders (removeById [folder] id)) ->
                        folder_id f <> id /\ In (folder_id f) (ids [folder])
                        /\ folder_children f <> None)
             /\ (~ In id (ids [folder]) ->
                 List.map label (all_folders (removeById [folder] id))
                 = List.map label (all_folders [folder]))).
  { apply Folder_nested_ind. intros fid data children IH.
    assert (Hkids :
              (forall f, In f (all_folders (removeById (default [] children) id)) ->
                         folder_id f <> id /\ In (folder_id f) (ids (default [] children))
                         /\ folder_children f <> None)
              /\ (~ In id (ids (default [] children)) ->
                  List.map label (all_folders (removeById (default [] children) id))
                  = List.map label (all_folders (default [] children)))).
    { induction IH as [| c cs [Hc1 Hc2] _ [IH1 IH2]]; [split; [intros f [] | reflexivity] |].
      rewrite removeById_cons. unfold ids, all_folders in *. cbn [flat_map] in *.
      rewrite !app_nil_r in *. rewrite removeById_cons in Hc1, Hc2.
      destruct (negb (String.eqb (folder_id c) id)) eqn:Hkeep; cbn [flat_map] in *.
      - rewrite !app_nil_r in *. split.
        + intros f Hin. rewrite map_app, in_app_iff. apply in_app_or in Hin as [Hin | Hin].
          * destruct (Hc1 f Hin) as (H1 & H2 & H3). tauto.
          * destruct (IH1 f Hin) as (H1 & H2 & H3). tauto.
        + intros Hnot. rewrite map_app, in_app_iff in Hnot.
          rewrite !map_app. f_equal; [apply Hc2 | apply IH2]; tauto.
      - split.
        + intros f Hin. rewrite map_app, in_app_iff.
          destruct (IH1 f Hin) as (H1 & H2 & H3). tauto.
        + intros Hnot. exfalso. apply Hnot. rewrite map_app, in_app_iff. left.
          apply negb_false_iff, String.eqb_eq in Hkeep.
          rewrite all_under_unfold. cbn. now left. }
    destruct Hkids as [Hk1 Hk2].
    rewrite removeById_cons. unfold ids, all_folders in *. cbn [flat_map folder_id] in *.
    rewrite !app_nil_r in *.
    destruct (negb (String.eqb fid id)) eqn:Hkeep; cbn [flat_map].
    - rewrite app_nil_r. rewrite without_unfold, !all_under_unfold.
      cbn [children_or_empty folder_children folder_id folder_data List.map].
      unfold children_or_empty. cbn [folder_children].
      fold (default [] children). split.
      + intros f [<- | Hin].
        * cbn. apply negb_true_iff, String.eqb_neq in Hkeep.
          split; [exact Hkeep |]. split; [now left | discriminate].
        * destruct (Hk1 f Hin) as (H1 & H2 & H3).
          split; [exact H1 |]. split; [now right | exact H3].
      + intros Hnot. cbn [List.map]. f_equal. apply Hk2. intros Hin. apply Hnot. now right.
    - split; [intros f [] |].
      intros Hnot. exfalso. apply Hnot. rewrite all_under_unfold. cbn.
      left. now apply negb_false_iff, String.eqb_eq in Hkeep. }
  induction folders as [| folder folders [IH1 IH2]]; [split; [intros f [] | reflexivity] |].
  destruct (Hone folder) as [H1 H2].
  rewrite removeById_cons in *. unfold ids, all_folders in *. cbn [flat_map] in *.
  rewrite !app_nil_r in *.
  destruct (negb (String.eqb (folder_id folder) id)) eqn:Hkeep; cbn [flat_map] in *.
  - rewrite !app_nil_r in *. split.
    + intros f Hin. rewrite map_app, in_app_iff. apply in_app_or in Hin as [Hin | Hin].
      * destruct (H1 f Hin) as (Ha & Hb & Hc). tauto.
      * destruct (IH1 f Hin) as (Ha & Hb & Hc). tauto.
    + intros Hnot. rewrite map_app, in_app_iff in Hnot.
      rewrite !map_app. f_equal; [apply H2 | apply IH2]; tauto.
  - split.
    + intros f Hin. rewrite map_app, in_app_iff.
      destruct (IH1 f Hin) as (Ha & Hb & Hc). tauto.
    + intros Hnot. exfalso. apply Hnot. rewrite map_app, in_app_iff. left.
      apply negb_false_iff, String.eqb_eq in Hkeep.
      rewrite all_under_unfold. cbn. now left.
Qed.

Lemma removeById_nothing_to_do (folders : list (Folder Data)) (id : string) :
  (forall f, In f (all_folders folders) ->
             folder_id f <> id /\ folder_children f <> None) ->
  removeById folders id = folders.
Proof.
  assert (Hone : forall folder,
             (forall f, In f (all_under folder) ->
                        folder_id f <> id /\ folder_children f <> None) ->
             without id folder = folder).
  { apply (Folder_nested_ind
             (fun folder =>
                (forall f, In f (all_under folder) ->
                           folder_id f <> id /\ folder_children f <> None) ->
                without id folder = folder)).
    intros fid data children IH Hall.
    rewrite without_unfold. cbn [folder_id folder_data]. f_equal.
    destruct (Hall (mkFolder fid data children)) as [_ Hsome];
      [rewrite all_under_unfold; now left |].
    destruct children as [cs |]; [| now contradiction Hsome]. f_equal.
    unfold children_or_empty. cbn [folder_children]. cbn in IH.
    assert (Hkids : forall f, In f (all_folders cs) ->
                              folder_id f <> id /\ folder_children f <> None).
    { intros f Hin. apply Hall. rewrite all_under_unfold. now right. }
    clear Hall Hsome. induction IH as [| c kids Hc _ IHcs]; [reflexivity |].
    rewrite removeById_cons.
    destruct (Hkids c) as [Hid _];
      [unfold all_folders; cbn; rewrite all_under_unfold; now left |].
    apply String.eqb_neq in Hid. rewrite Hid. cbn [negb]. f_equal.
    - apply Hc. intros f Hin. apply Hkids. unfold all_folders. cbn.
      apply in_or_app. now left.
    - apply IHcs. intros f Hin. apply Hkids. unfold all_folders. cbn.
      apply in_or_app. now right. }
  induction folders as [| folder folders IH]; intros Hall; [reflexivity |].
  rewrite removeById_cons.
  destruct (Hall folder) as [Hid _];
    [unfold all_folders; cbn; rewrite all_under_unfold; now left |].
  apply String.eqb_neq in Hid. rewrite Hid. cbn [negb]. f_equal.
  - apply Hone. intros f Hin. apply Hall. unfold all_folders. cbn.
    apply in_or_app. now left.
  - apply IH. intros f Hin. apply Hall. unfold all_folders. cbn.
    apply in_or_app. now right.
Qed.

(** [X29] [removeById] takes out every folder with the id, at any depth,
    with all that is under it: no folder of the result has the id, so
    [findById] finds none, and every folder of the result was a folder
    of the forest.  Every folder it keeps gets a [children] array, an
    empty one where it had none.  When no folder has the id the forest
    keeps its folders, their ids and their data, in order; and removing
    the same id again changes nothing. *)
Theorem removeById_takes_out_the_subtrees :
  forall (folders : list (Folder Data)) (id : string),
    findById (removeById folders id) id = None
    /\ (forall f, In f (all_folders (removeById folders id)) ->
                  folder_id f <> id /\ In (folder_id f) (ids folders)
                  /\ folder_children f <> None)
    /\ (~ In id (ids folders) ->
        List.map label (all_folders (removeById folders id))
        = List.map label (all_folders folders))
    /\ removeById (removeById folders id) id = removeById folders id.
Proof.
  intros folders id.
  destruct (all_folders_removeById folders id) as [Hkept Hsame].
  split; [| split; [exact Hkept | split; [exact Hsame |]]].
  - rewrite findById_is_find.
    destruct (List.find (fun f => String.eqb (folder_id f) id)
                (all_folders (removeById folders id))) as [f |] eqn:Hfind;
      [| reflexivity].
    apply List.find_some in Hfind as [Hin Hid]. apply String.eqb_eq in Hid.
    now destruct (Hkept f Hin) as [Hne _].
  - apply removeById_nothing_to_do. intros f Hin.
    destruct (Hkept f Hin) as (Hid & _ & Hsome). now split.
Qed.

End Forest.

(** *** Tag groups *)

Section Groups.
Import BareTagGroups.
Context {Data : Type}.

Definition add_unseen (seen : list string) (v : string) : list string :=
  if existsb (String.eqb v) seen then seen else seen ++ [v].

Lemma existsb_eqb_In (v : string) (seen : list string) :
  existsb (String.eqb v) seen = true <-> In v seen.
Proof.
  rewrite existsb_exists. split.
  - intros (x & Hin & Heq). apply String.eqb_eq in Heq. now subst.
  - intros Hin. exists v. split; [exact Hin | apply String.eqb_refl].
Qed.

Lemma unique_from (values seen : list string) :
  NoDup seen ->
  let result := fold_left add_unseen values seen in
  NoDup result
  /\ (forall t, In t result <-> In t seen \/ In t values)
  /\ ((forall t, In t values -> In t seen) -> result = seen).
Proof.
  revert seen. induction values as [| v values IH]; intros seen Hseen; cbn.
  - split; [exact Hseen |]. split; [tauto | reflexivity].
  - unfold add_unseen at 2 4 6.
    destruct (existsb (String.eqb v) seen) eqn:Hin.
    + apply existsb_eqb_In in Hin. destruct (IH seen Hseen) as (Hnd & Hiff & Hfix).
      split; [exact Hnd |]. split.
      * intros t. rewrite Hiff. split; [tauto |].
        intros [H | [<- | H]]; tauto.
      * intros Hall. apply Hfix. intros t Ht. apply Hall. now right.
    + assert (Hnot : ~ In v seen).
      { intros H. apply existsb_eqb_In in H. congruence. }
      assert (Hseen' : NoDup (seen ++ [v])).
      { apply NoDup_app. split; [exact Hseen |]. split.
        - intros x Hx Hx'. apply list_elem_of_In in Hx, Hx'.
          destruct Hx' as [<- | []]. contradiction.
        - apply NoDup_singleton. }
      destruct (IH (seen ++ [v]) Hseen') as (Hnd & Hiff & Hfix).
      split; [exact Hnd |]. split.
      * intros t. rewrite Hiff, in_app_iff. cbn. tauto.
      * intros Hall. exfalso. apply Hnot. apply Hall. now left.
Qed.

Lemma unique_spec (values : list string) :
  NoDup (unique values) /\ forall t, In t (unique values) <-> In t values.
Proof.
  destruct (unique_from values [] NoDup_nil_2) as (Hnd & Hiff & _).
  split; [exact Hnd |]. intros t. rewrite (Hiff t). cbn. tauto.
Qed.

Lemma fold_left_add_unseen_app (xs ys seen : list string) :
  fold_left add_unseen (xs ++ ys) seen
  = fold_left add_unseen ys (fold_left add_unseen xs seen).
Proof. apply fold_left_app. Qed.

Lemma unique_nodup (values : list string) : NoDup values -> unique values = values.
Proof.
  assert (Hgen : forall vs seen, NoDup (seen ++ vs) ->
                                 fold_left add_unseen vs seen = seen ++ vs).
  { induction vs as [| v vs IH]; intros seen Hnd; cbn.
    - now rewrite app_nil_r.
    - unfold add_unseen at 2.
      destruct (existsb (String.eqb v) seen) eqn:Hin.
      + apply existsb_eqb_In in Hin. apply NoDup_app in Hnd as (_ & Hdis & _).
        exfalso. apply (Hdis v); apply list_elem_of_In; [exact Hin | now left].
      + rewrite IH; [now rewrite <- app_assoc |]. now rewrite <- app_assoc. }
  intros Hnd. apply (Hgen values []). exact Hnd.
Qed.

(** Adding a tag to tags that have it already, each once, changes
    nothing. *)
Lemma unique_add_again (tags : list string) (tag : string) :
  unique (unique (tags ++ [tag]) ++ [tag]) = unique (tags ++ [tag]).
Proof.
  destruct (unique_spec (tags ++ [tag])) as [Hnd Hiff].
  unfold unique at 1. rewrite fold_left_add_unseen_app.
  change (fold_left add_unseen (unique (tags ++ [tag])) [])
    with (unique (unique (tags ++ [tag]))).
  rewrite (unique_nodup _ Hnd). cbn. unfold add_unseen.
  replace (existsb (String.eqb tag) (unique (tags ++ [tag]))) with true; [reflexivity |].
  symmetry. apply existsb_eqb_In, Hiff, in_or_app. right. now left.
Qed.

(** [change_found] changes the first group with the id, where it
    stands, and nothing before or after it. *)
Lemma change_found_spec (id : string) (change : TagGroup Data -> TagGroup Data)
    (groups : list (TagGroup Data)) :
  match find_group groups id with
  | None => change_found id change groups = None
  | Some group =>
      exists before after,
        groups = before ++ group :: after
        /\ Forall (fun g => group_id g <> id) before
        /\ group_id group = id
        /\ change_found id change groups = Some (before ++ change group :: after)
  end.
Proof.
  unfold find_group.
  induction groups as [| g groups IH]; cbn; [reflexivity |].
  destruct (String.eqb_spec (group_id g) id) as [Hg | Hg].
  - exists [], groups. repeat split; [constructor | exact Hg].
  - destruct (List.find (fun g0 => String.eqb (group_id g0) id) groups) as [group |].
    + destruct IH as (before & after & -> & Hbefore & Hid & ->).
      exists (g :: before), after. repeat split; [| exact Hid].
      constructor; assumption.
    + now rewrite IH.
Qed.

Lemma find_group_first (id : string) (before after : list (TagGroup Data))
    (group : TagGroup Data) :
  Forall (fun g => group_id g <> id) before -> group_id group = id ->
  find_group (before ++ group :: after) id = Some group.
Proof.
  intros Hbefore Hid. unfold find_group.
  induction Hbefore as [| g before Hg _ IH]; cbn.
  - rewrite Hid, String.eqb_refl. reflexivity.
  - destruct (String.eqb_spec (group_id g) id); [contradiction | exact IH].
Qed.

(** [X30] The tag edits of a group.  [addTag] and [removeTag] throw when
    no group has the id.  Otherwise the groups they return are the
    groups they were given, in order, with one group changed: the first
    one with the id, where it stands; the groups before and after it,
    another group with the same id among them, are as they were.  The
    changed group keeps its id and what else it holds, and its tags
    are: after [addTag], the tags it had and the tag, each once, so
    that adding the tag again changes nothing; after [removeTag], the
    tags it had other than the tag, in order. *)
Theorem addTag_adds_the_tag_once :
  forall (groups : list (TagGroup Data)) (id tag : string),
    match find_group groups id with
    | None =>
        addTag id tag groups = Throws Exception
        /\ removeTag id tag groups = Throws Exception
    | Some group =>
        exists before after added removed,
          groups = before ++ group :: after
          /\ Forall (fun g => group_id g <> id) before
          /\ addTag id tag groups = Returns (before ++ added :: after)
          /\ group_id added = group_id group
          /\ group_data added = group_data group
          /\ NoDup (tags_or_empty added)
          /\ (forall t, In t (tags_or_empty added)
                        <-> In t (tags_or_empty group) \/ t = tag)
          /\ addTag id tag (before ++ added :: after) = Returns (before ++ added :: after)
          /\ removeTag id tag groups = Returns (before ++ removed :: after)
          /\ group_id removed = group_id group
          /\ group_data removed = group_data group
          /\ tags_or_empty removed
             = List.filter (fun t => negb (String.eqb t tag)) (tags_or_empty group)
          /\ ~ In tag (tags_or_empty removed)
    end.
Proof.
  intros groups id tag.
  set (adding := fun group : TagGroup Data =>
                   with_tags (unique (tags_or_empty group ++ [tag])) group).
  set (removing := fun group : TagGroup Data =>
                     with_tags (List.filter (fun t => negb (String.eqb t tag))
                                            (tags_or_empty group)) group).
  pose proof (change_found_spec id adding groups) as Hadd.
  pose proof (change_found_spec id removing groups) as Hremove.
  unfold addTag, removeTag. fold adding removing.
  destruct (find_group groups id) as [group |] eqn:Hfind.
  - destruct Hadd as (before & after & Hgroups & Hbefore & Hid & Ha).
    destruct Hremove as (before' & after' & Hgroups' & Hbefore' & _ & Hr).
    assert (Hsame : before' = before /\ after' = after).
    { clear Ha Hr. rewrite Hgroups in Hgroups'. clear Hgroups Hfind.
      revert before' Hbefore' Hgroups'.
      induction Hbefore as [| g before Hg _ IH]; intros before' Hbefore' Heq.
      - destruct before' as [| g' before']; cbn in Heq.
        + injection Heq as <-. now split.
        + injection Heq as <- _. apply Forall_cons in Hbefore' as [Hg' _].
          contradiction.
      - destruct before' as [| g' before']; cbn in Heq.
        + injection Heq as -> _. contradiction.
        + injection Heq as <- Heq. apply Forall_cons in Hbefore' as [_ Hbefore'].
          destruct (IH before' Hbefore' Heq) as [-> ->]. now split. }
    destruct Hsame as [-> ->]. rewrite Ha, Hr.
    exists before, after, (adding group), (removing group).
    destruct (unique_spec (tags_or_empty group ++ [tag])) as [Hnd Hiff].
    split; [exact Hgroups |]. split; [exact Hbefore |].
    split; [reflexivity |]. split; [reflexivity |]. split; [reflexivity |].
    split; [exact Hnd |]. split.
    { intros t. cbn. rewrite (Hiff t), in_app_iff. cbn. split.
      - intros [H | [H | []]]; [now left | right; now symmetry].
      - intros [H | ->]; [now left | right; now left]. }
    split.
    { pose proof (change_found_spec id adding (before ++ adding group :: after)) as Hagain.
      rewrite (find_group_first id before after (adding group) Hbefore Hid) in Hagain.
      destruct Hagain as (b2 & a2 & Heq & _ & _ & ->).
      f_equal. rewrite Heq. do 2 f_equal.
      unfold adding, with_tags, tags_or_empty. cbn [group_id group_tags group_data default].
      do 2 f_equal. apply unique_add_again. }
    split; [reflexivity |]. split; [reflexivity |]. split; [reflexivity |].
    split; [reflexivity |].
    cbn. intros Hin. apply List.filter_In in Hin as [_ Hkeep].
    now rewrite String.eqb_refl in Hkeep.
  - rewrite Hadd, Hremove. split; reflexivity.
Qed.

End Groups.

End BareIOLaws.
